(** * smcroute: the .conf file parser and applier (src/conf.c)

    A shallow embedding of [conf.c]: the tokenizer [pop_token], the keyword
    matcher [match], the two appliers [join_mgroup] and [add_mroute], the
    line loop of [conf_parse] and the driver [conf_read].

    C strings ([char *]) are [string]s, a nullable [char *] is an
    [option string]; C [int]s are [Z].  Calls into the other translation
    units of the daemon (log, ifvc, mroute, mcgroup, script) are recorded as
    events; the interface table they share with the parser is an abstract
    backend state.

    A store or a read outside an array ([dest], [outbound], [mroute.ttl])
    is a fault that ends the run.  The loops over the tokens of a line and
    over the lines of a file carry fuel, one unit for each character left to
    read; the properties show that it never runs out.

    The file has three parts: the program, the vocabulary in which its
    properties are stated, and the properties with their proofs. *)

From Stdlib Require Import ZArith Ascii String List Lia Bool.
From stdpp Require Import base list.
Import ListNotations.

Local Open Scope string_scope.
Local Open Scope list_scope.
Local Open Scope Z_scope.

(** ** The C library functions the parser calls *)

Module Libc.

(** [isspace] in the "C" locale: space, \t, \n, \v, \f, \r. *)
Definition isspace (c : ascii) : bool :=
  let n := nat_of_ascii c in
  ((9 <=? n) && (n <=? 13) || (n =? 32))%nat.

Definition isdigit (c : ascii) : bool :=
  let n := nat_of_ascii c in ((48 <=? n) && (n <=? 57))%nat.

Definition digit_val (c : ascii) : Z := Z.of_nat (nat_of_ascii c) - 48.

(** [strchr(s, c) != NULL]. *)
Fixpoint strchr (s : string) (c : ascii) : bool :=
  match s with
  | EmptyString => false
  | String a s' => if Ascii.eqb a c then true else strchr s' c
  end.

(** [strchr(s, c)] as a cut: the text before the first [c] and the text
    after it, when there is one. *)
Fixpoint strchr_split (s : string) (c : ascii) : option (string * string) :=
  match s with
  | EmptyString => None
  | String a s' =>
      if Ascii.eqb a c then Some (EmptyString, s')
      else match strchr_split s' c with
           | Some (l, r) => Some (String a l, r)
           | None => None
           end
  end.

(** [!strncmp(keyword, token, strlen(keyword))]. *)
Fixpoint strncmp_prefix (keyword token : string) : bool :=
  match keyword, token with
  | EmptyString, _ => true
  | String k ks, String t ts => if Ascii.eqb k t then strncmp_prefix ks ts else false
  | String _ _, EmptyString => false
  end.

(** A buffer read as a C string stops at its first NUL byte. *)
Fixpoint c_str (buf : string) : string :=
  match buf with
  | EmptyString => EmptyString
  | String a s' => if Ascii.eqb a zero then EmptyString else String a (c_str s')
  end.

(** Two's complement wrap-around of a [w]-bit signed integer. *)
Definition wrap_signed (w : Z) (z : Z) : Z :=
  (z + 2 ^ (w - 1)) mod 2 ^ w - 2 ^ (w - 1).

Definition LONG_MAX : Z := 2 ^ 63 - 1.
Definition LONG_MIN : Z := - 2 ^ 63.

Fixpoint skip_spaces (s : string) : string :=
  match s with
  | String a s' => if isspace a then skip_spaces s' else s
  | EmptyString => EmptyString
  end.

Fixpoint digits_value (acc : Z) (s : string) : Z :=
  match s with
  | String a s' => if isdigit a then digits_value (acc * 10 + digit_val a) s' else acc
  | EmptyString => acc
  end.

(** [strtol(s, NULL, 10)]: leading white space, an optional sign, the
    longest run of digits, saturated to the range of [long]. *)
Definition strtol10 (s : string) : Z :=
  let v :=
    match skip_spaces s with
    | String "-" d => - digits_value 0 d
    | String "+" d => digits_value 0 d
    | d => digits_value 0 d
    end in
  Z.max LONG_MIN (Z.min LONG_MAX v).

(** [atoi(s)] is [(int) strtol(s, NULL, 10)]. *)
Definition atoi (s : string) : Z := wrap_signed 32 (strtol10 s).

(** [inet_pton(AF_INET, src, dst) > 0]: exactly four decimal octets of one
    to three digits, each at most 255 and without a leading zero before
    another digit, separated by single dots.  The address is returned as
    the number [ntohl(dst->s_addr)]. *)
Record pton4_state := {
  saw_digit : bool;
  octets : nat;
  cur : Z;            (* *tp *)
  done_octets : list Z (* tmp[0 .. tp) *)
}.

Fixpoint inet_pton4_loop (st : pton4_state) (s : string) : option pton4_state :=
  match s with
  | EmptyString => Some st
  | String ch s' =>
      if isdigit ch then
        let new := cur st * 10 + digit_val ch in
        if saw_digit st && (cur st =? 0) then None
        else if 255 <? new then None
        else if saw_digit st then
          inet_pton4_loop {| saw_digit := true; octets := octets st;
                             cur := new; done_octets := done_octets st |} s'
        else if (4 <? S (octets st))%nat then None
        else
          inet_pton4_loop {| saw_digit := true; octets := S (octets st);
                             cur := new; done_octets := done_octets st |} s'
      else if Ascii.eqb ch "." && saw_digit st then
        if (octets st =? 4)%nat then None
        else
          inet_pton4_loop {| saw_digit := false; octets := octets st;
                             cur := 0; done_octets := done_octets st ++ [cur st] |} s'
      else None
  end.

Definition inet_pton4 (src : string) : option Z :=
  match inet_pton4_loop {| saw_digit := false; octets := 0; cur := 0; done_octets := [] |} src with
  | Some st =>
      if (octets st <? 4)%nat then None
      else match done_octets st ++ [cur st] with
           | [a; b; c; d] => Some (Z.lor (Z.shiftl a 24) (Z.lor (Z.shiftl b 16) (Z.lor (Z.shiftl c 8) d)))
           | _ => None
           end
  | None => None
  end.

(** [IN_MULTICAST(a)] on a host-order address: class D, 224.0.0.0/4. *)
Definition IN_MULTICAST (a : Z) : bool :=
  Z.land a 0xf0000000 =? 0xe0000000.

Definition INADDR_ANY : Z := 0.

End Libc.

(** ** Data shared with the rest of the daemon *)

(** An IPv6 address: the 16 bytes of [struct in6_addr]. *)
Definition in6_addr := list Z.

Definition IN6_IS_ADDR_MULTICAST (a : in6_addr) : bool :=
  match a with
  | b :: _ => b =? 0xff
  | [] => false
  end.

(** The fields of [struct iface] (ifvc.h) that conf.c reads. *)
Record iface := {
  vif : Z;
  mif : Z;
  threshold : Z
}.

(** [MAXVIFS] and [MAXMIFS] come from the kernel headers
    (linux/mroute.h, linux/mroute6.h), where both are 32. *)
Definition MAXVIFS : Z := 32.
Definition MAXMIFS : Z := 32.

(** Modelled from the spec: [DEFAULT_THRESHOLD] is defined in a header that
    is not part of the sources; the specification gives the default TTL
    threshold of a phyint as 1. *)
Definition DEFAULT_THRESHOLD : Z := 1.

Definition MAX_LINE_LEN : nat := 512.

Definition EINVAL : Z := 22.
Definition ENOENT : Z := 2.

(** [struct mroute4] and [struct mroute6] (mroute.h), with the fields that
    [add_mroute] fills in.  IPv4 addresses are kept as [ntohl(s_addr)].  The
    header declaring the structures is not part of the sources; the integer
    fields are taken wide enough for the values stored in them. *)
Record mroute4 := {
  m4_inbound : Z;
  m4_source : Z;
  m4_group : Z;
  m4_len : Z;
  m4_ttl : list Z
}.

Record mroute6 := {
  m6_inbound : Z;
  m6_source : in6_addr;
  m6_group : in6_addr;
  m6_ttl : list Z
}.

(** Calls that leave conf.c for the kernel-facing layers and the hook. *)
Inductive call :=
  | mroute_add_vif (ifname : option string) (thr : Z)
  | mroute_del_vif (ifname : option string)
  | mcgroup4_join (ifname : string) (src grp : Z)
  | mcgroup6_join (ifname : string) (grp : in6_addr)
  | mroute4_add (m : mroute4)
  | mroute6_add (m : mroute6)
  | script_exec_NULL.

Inductive level := LOG_NOTICE | LOG_WARNING.

(** A variadic argument of [smclog]. *)
Inductive arg :=
  | AStr (s : string)
  | AInt (z : Z)
  | AStrerror (e : Z).

(** What the outside observes of a run, in program order: the calls of
    [smclog], each with its arguments as they are passed, and the calls into
    the backend.  The second argument of [smclog] is its format, a
    [const char *]: [None] is the null pointer. *)
Inductive event :=
  | Log (l : level) (fmt : option string) (args : list arg)
  | Call (c : call).

(** The interface table and kernel state behind ifvc.c, mroute.c and
    mcgroup.c.  [backend_exec] performs a call: it yields the next state and
    the call's return value. *)
Class Backend (B : Type) := {
  iface_find_by_name : B -> string -> option iface;
  iface_get_vif_by_name : B -> string -> Z;
  iface_get_mif_by_name : B -> string -> Z;
  backend_exec : B -> call -> B * Z
}.

(** Build-time configuration and the one libc routine left abstract,
    [inet_pton(AF_INET6, ...)]. *)
Record platform := {
  HAVE_IPV6_MULTICAST_HOST : bool;
  HAVE_IPV6_MULTICAST_ROUTING : bool;
  inet_pton6 : string -> option in6_addr
}.

Definition ipv6_enabled (p : platform) : bool :=
  HAVE_IPV6_MULTICAST_HOST p && HAVE_IPV6_MULTICAST_ROUTING p.

(** What the operating system answers to [access], [fopen] and [malloc]. *)
Record host := {
  access_R_OK : string -> option Z;   (* None: 0; Some e: -1, errno = e *)
  fopen_r : string -> Z + string;     (* errno, or the bytes of the file *)
  malloc_linebuf : option Z           (* None: ok; Some e: NULL, errno = e *)
}.

(** ** A state, output and fault monad *)

Inductive fault :=
  | OOB_dest (i : Z) (v : option string)   (* dest[i] = v with i outside dest[32] *)
  | OOB_outbound (i : Z)                   (* outbound[i] unset or outside the array *)
  | OOB_ttl (i : Z)                        (* mroute.ttl[i] outside the array *)
  | OutOfFuel.

Record world (B : Type) := World { be : B; errno : Z }.
Arguments World {B}.
Arguments be {B}.
Arguments errno {B}.

Record result (B A : Type) := Result {
  res : A + fault;
  post : world B;
  out : list event
}.
Arguments Result {B A}.
Arguments res {B A}.
Arguments post {B A}.
Arguments out {B A}.

Definition M (B A : Type) := world B -> result B A.

Definition ret {B A} (a : A) : M B A :=
  fun w => Result (inl a) w [].

Definition bind {B A C} (m : M B A) (k : A -> M B C) : M B C :=
  fun w =>
    let r := m w in
    match res r with
    | inl a => let r' := k a (post r) in Result (res r') (post r') (out r ++ out r')
    | inr f => Result (inr f) (post r) (out r)
    end.

Notation "'do' x <- m ; k" := (bind m (fun x => k))
  (at level 10, x name, m at level 100, k at level 200).
Notation "'seq' m ; k" := (bind m (fun _ => k))
  (at level 10, m at level 100, k at level 200).

Definition raise {B A} (f : fault) : M B A :=
  fun w => Result (inr f) w [].

Definition get_backend {B} : M B B :=
  fun w => Result (inl (be w)) w [].

Definition set_errno {B} (e : Z) : M B unit :=
  fun w => Result (inl tt) (World (be w) e) [].

(** [smclog(severity, fmt, ...)], as [conf_read] calls it: the severity, the
    format, then the arguments of the format. *)
Definition smclog {B} (l : level) (fmt : option string) (args : list arg) : M B unit :=
  fun w => Result (inl tt) w [Log l fmt args].

(** The [WARN] macro, [smclog(LOG_WARNING, 0, "%02d: " fmt, lineno, ##args)].
    The literal 0 stands where [smclog] takes its format, so the format is
    the null pointer; the text ["%02d: " fmt], the line number and [args]
    follow it as the variadic arguments. *)
Definition WARN {B} (lineno : Z) (fmt : string) (args : list arg) : M B unit :=
  smclog LOG_WARNING None (AStr (String.append "%02d: " fmt) :: AInt lineno :: args).

Definition invoke {B} `{Backend B} (c : call) : M B Z :=
  fun w =>
    let br := backend_exec (be w) c in
    Result (inl (snd br)) (World (fst br) (errno w)) [Call c].

(** ** The tokenizer and the keyword matcher *)

(** The run of non-space characters at the head of [s] and what follows
    it: the scan for the end of the token, which stops at the first white
    space character or at the terminating NUL. *)
Fixpoint token_end (s : string) : string * string :=
  match s with
  | EmptyString => (EmptyString, EmptyString)
  | String a s' =>
      if Libc.isspace a then (EmptyString, s)
      else let '(t, e) := token_end s' in (String a t, e)
  end.

(** [pop_token(&line)]: the token returned and the new value of [line]. *)
Definition pop_token (line : option string) : option string * option string :=
  match line with
  | None => (None, None)
  | Some l =>
      let token := Libc.skip_spaces l in
      let '(tok, e) := token_end token in
      match e, tok with
      | EmptyString, _ => (None, None)          (* end points at the NUL *)
      | _, EmptyString => (None, None)          (* end == token *)
      | String _ rest, _ => (Some tok, Some rest)
      end
  end.

(** [match(keyword, token)]: the keyword is a prefix of the token. *)
Definition match_ (keyword token : option string) : bool :=
  match keyword, token with
  | Some k, Some t => Libc.strncmp_prefix k t
  | _, _ => false
  end.

(** ** The warnings

    The texts that conf.c hands to [WARN] as its [fmt]. *)

Definition W_ipv6_disabled := "Ignored, IPv6 disabled.".
Definition W_ipv6_ssm := "IPv6 is not (yet) supported for Source Specific Multicast.".
Definition W_bad_group6 := "Invalid IPv6 multicast group: %s".
Definition W_bad_source4_mgroup := "Invalid IPv4 multicast source: %s".
Definition W_bad_group4 := "Invalid IPv4 multicast group: %s".
Definition W_bad_inbound6 := "Invalid inbound IPv6 interface: %s".
Definition W_bad_source6 := "Invalid source IPv6 address: %s".
Definition W_bad_outbound6 := "Invalid outbound IPv6 interface: %s".
Definition W_same_outbound6 := "Same outbound IPv6 interface (%s) as inbound (%s)?".
Definition W_no_outbound6 := "No valid outbound interfaces, skipping multicast route.".
Definition W_bad_inbound4 := "Invalid inbound IPv4 interface: %s".
Definition W_bad_source4 := "Invalid source IPv4 address: %s".
Definition W_prefix_ssm := "GROUP/LEN not yet supported for source specific multicast.".
Definition W_bad_prefix := "Invalid prefix length, %s/%d".
Definition W_bad_outbound4 := "Invalid outbound IPv4 interface: %s".
Definition W_same_outbound4 := "Same outbound IPv4 interface (%s) as inbound (%s)?".
Definition W_no_outbound4 := "No valid outbound IPv4 interfaces, skipping multicast route.".
Definition W_unknown_command := "Unknown command %s, skipping.".

(** ** The appliers *)

Section Appliers.

Context {B : Type} `{Backend B}.
Variable P : platform.

(** The IPv4 half of [join_mgroup], once [src] is known. *)
Definition join_mgroup4 (lineno : Z) (ifname group : string) (src : Z) : M B Z :=
  match Libc.inet_pton4 group with
  | Some grp =>
      if Libc.IN_MULTICAST grp then invoke (mcgroup4_join ifname src grp)
      else seq WARN lineno W_bad_group4 [AStr group]; ret 1
  | None => seq WARN lineno W_bad_group4 [AStr group]; ret 1
  end.

(** The IPv6 half of [join_mgroup], after the remark on a source. *)
Definition join_mgroup6 (lineno : Z) (ifname group : string) : M B Z :=
  match inet_pton6 P group with
  | Some grp =>
      if IN6_IS_ADDR_MULTICAST grp then invoke (mcgroup6_join ifname grp)
      else seq WARN lineno W_bad_group6 [AStr group]; ret 1
  | None => seq WARN lineno W_bad_group6 [AStr group]; ret 1
  end.

Definition join_mgroup (lineno : Z) (ifname source group : option string) : M B Z :=
  match ifname, group with
  | Some ifname, Some group =>
      if Libc.strchr group ":" then
        if negb (ipv6_enabled P) then
          seq WARN lineno W_ipv6_disabled [];
          ret 0
        else
          seq (match source with
               | Some _ => WARN lineno W_ipv6_ssm []
               | None => ret tt
               end);
          join_mgroup6 lineno ifname group
      else
        match source with
        | Some s =>
            match Libc.inet_pton4 s with
            | Some src => join_mgroup4 lineno ifname group src
            | None => seq WARN lineno W_bad_source4_mgroup [AStr s]; ret 1
            end
        | None => join_mgroup4 lineno ifname group 0 (* memset(&src, 0, sizeof(src)) *)
        end
  | _, _ =>
      seq set_errno EINVAL;
      ret 1
  end.

(** The loop over [outbound[0 .. num)] of [add_mroute].  The IPv4 and the
    IPv6 copy of the loop differ in the index they read ([vif] or [mif]) and
    in the wording of their two warnings; [n] counts the iterations left.
    Reading an entry of [outbound] that holds no name, and writing a slot
    outside [ttl], are faults. *)
Fixpoint outbound_loop (idx : iface -> Z) (w_bad w_same : string)
    (lineno : Z) (ifname : string) (inbound : Z)
    (outbound : list (option string)) (n : nat) (i : Z)
    (total : Z) (ttl : list Z) : M B (Z * list Z) :=
  match n with
  | O => ret (total, ttl)
  | S n' =>
      match outbound !! Z.to_nat i with
      | Some (Some name) =>
          do b <- get_backend;
          match iface_find_by_name b name with
          | Some ifc =>
              if idx ifc =? -1 then
                seq WARN lineno w_bad [AStr name];
                outbound_loop idx w_bad w_same lineno ifname inbound outbound n' (i + 1) (total - 1) ttl
              else
                seq (if idx ifc =? inbound
                     then WARN lineno w_same [AStr name; AStr ifname]
                     else ret tt);
                if (0 <=? idx ifc) && (idx ifc <? Z.of_nat (length ttl)) then
                  outbound_loop idx w_bad w_same lineno ifname inbound outbound n' (i + 1) total
                    (<[Z.to_nat (idx ifc) := threshold ifc]> ttl)
                else raise (OOB_ttl (idx ifc))
          | None =>
              seq WARN lineno w_bad [AStr name];
              outbound_loop idx w_bad w_same lineno ifname inbound outbound n' (i + 1) (total - 1) ttl
          end
      | _ => raise (OOB_outbound i)
      end
  end.

(** The IPv6 half of [add_mroute]. *)
Definition add_mroute6 (lineno : Z) (ifname group : string) (source : option string)
    (outbound : list (option string)) (num : Z) : M B Z :=
  do b <- get_backend;
  let inbound := iface_get_mif_by_name b ifname in
  if inbound <? 0 then
    seq WARN lineno W_bad_inbound6 [AStr ifname]; ret 1
  else
    match match source with Some s => inet_pton6 P s | None => None end with
    | None =>
        (* source ?: "NONE" *)
        seq WARN lineno W_bad_source6 [AStr (match source with Some s => s | None => "NONE" end)];
        ret 1
    | Some src =>
        match inet_pton6 P group with
        | Some grp =>
            if IN6_IS_ADDR_MULTICAST grp then
              do r <- outbound_loop mif W_bad_outbound6 W_same_outbound6 lineno ifname inbound
                        outbound (Z.to_nat num) 0 num (replicate (Z.to_nat MAXMIFS) 0);
              let '(total, ttl) := r in
              if total =? 0 then
                seq WARN lineno W_no_outbound6 []; ret 1
              else
                invoke (mroute6_add {| m6_inbound := inbound; m6_source := src;
                                       m6_group := grp; m6_ttl := ttl |})
            else seq WARN lineno W_bad_group6 [AStr group]; ret 1
        | None => seq WARN lineno W_bad_group6 [AStr group]; ret 1
        end
    end.

(** The IPv4 half of [add_mroute] after the source and the prefix length:
    the group is parsed, the outbound names are resolved and the route is
    handed to [mroute4_add]. *)
Definition add_mroute4_group (lineno : Z) (ifname : string) (inbound src : Z)
    (group : string) (len : Z) (outbound : list (option string)) (num : Z) : M B Z :=
  match Libc.inet_pton4 group with
  | Some grp =>
      if Libc.IN_MULTICAST grp then
        do r <- outbound_loop vif W_bad_outbound4 W_same_outbound4 lineno ifname inbound
                  outbound (Z.to_nat num) 0 num (replicate (Z.to_nat MAXVIFS) 0);
        let '(total, ttl) := r in
        if total =? 0 then
          seq WARN lineno W_no_outbound4 []; ret 1
        else
          invoke (mroute4_add {| m4_inbound := inbound; m4_source := src;
                                 m4_group := grp; m4_len := len; m4_ttl := ttl |})
      else seq WARN lineno W_bad_group4 [AStr group]; ret 1
  | None => seq WARN lineno W_bad_group4 [AStr group]; ret 1
  end.

(** The IPv4 half of [add_mroute] once the source address is known: the
    group text is cut at its first slash ([ptr = strchr(group, '/')],
    then the slash is overwritten with NUL). *)
Definition add_mroute4_prefix (lineno : Z) (ifname : string) (inbound src : Z)
    (group : string) (outbound : list (option string)) (num : Z) : M B Z :=
  match Libc.strchr_split group "/" with
  | Some (group', ptr) =>
      if negb (src =? Libc.INADDR_ANY) then
        seq WARN lineno W_prefix_ssm []; ret 1
      else
        let len := Libc.atoi ptr in
        if (len <? 0) || (32 <? len) then
          seq WARN lineno W_bad_prefix [AStr group'; AInt len]; ret 1
        else add_mroute4_group lineno ifname inbound src group' len outbound num
  | None => add_mroute4_group lineno ifname inbound src group 0 outbound num
  end.

(** The IPv4 half of [add_mroute], from [memset(&mroute, 0, ...)] on. *)
Definition add_mroute4 (lineno : Z) (ifname group : string) (source : option string)
    (outbound : list (option string)) (num : Z) : M B Z :=
  do b <- get_backend;
  let inbound := iface_get_vif_by_name b ifname in
  if inbound <? 0 then
    seq WARN lineno W_bad_inbound4 [AStr ifname]; ret 1
  else
    match source with
    | None => add_mroute4_prefix lineno ifname inbound Libc.INADDR_ANY group outbound num
    | Some s =>
        match Libc.inet_pton4 s with
        | Some src => add_mroute4_prefix lineno ifname inbound src group outbound num
        | None => seq WARN lineno W_bad_source4 [AStr s]; ret 1
        end
    end.

(** [add_mroute].  [outbound] is the caller's array [dest], which is never
    a null pointer; the test [!outbound] is therefore dropped. *)
Definition add_mroute (lineno : Z) (ifname group source : option string)
    (outbound : list (option string)) (num : Z) : M B Z :=
  match ifname, group with
  | Some ifname, Some group =>
      if num =? 0 then
        seq set_errno EINVAL; ret 1
      else if Libc.strchr group ":" then
        if negb (ipv6_enabled P) then
          seq WARN lineno W_ipv6_disabled [];
          ret 0
        else add_mroute6 lineno ifname group source outbound num
      else add_mroute4 lineno ifname group source outbound num
  | _, _ =>
      seq set_errno EINVAL;
      ret 1
  end.

End Appliers.

(** ** The line loop of [conf_parse] *)

(** The local variables of one pass of the loop over the lines. *)
Record locals := Locals {
  op : Z;
  num : Z;
  enable : Z;
  l_threshold : Z;
  ifname : option string;
  source : option string;
  group : option string;
  dest : list (option string);   (* char *dest[32] *)
  line : option string
}.

Definition set_op (v : Z) (s : locals) : locals :=
  Locals v (num s) (enable s) (l_threshold s) (ifname s) (source s) (group s) (dest s) (line s).
Definition set_num (v : Z) (s : locals) : locals :=
  Locals (op s) v (enable s) (l_threshold s) (ifname s) (source s) (group s) (dest s) (line s).
Definition set_enable (v : Z) (s : locals) : locals :=
  Locals (op s) (num s) v (l_threshold s) (ifname s) (source s) (group s) (dest s) (line s).
Definition set_threshold (v : Z) (s : locals) : locals :=
  Locals (op s) (num s) (enable s) v (ifname s) (source s) (group s) (dest s) (line s).
Definition set_ifname (v : option string) (s : locals) : locals :=
  Locals (op s) (num s) (enable s) (l_threshold s) v (source s) (group s) (dest s) (line s).
Definition set_source (v : option string) (s : locals) : locals :=
  Locals (op s) (num s) (enable s) (l_threshold s) (ifname s) v (group s) (dest s) (line s).
Definition set_group (v : option string) (s : locals) : locals :=
  Locals (op s) (num s) (enable s) (l_threshold s) (ifname s) (source s) v (dest s) (line s).
Definition set_dest (v : list (option string)) (s : locals) : locals :=
  Locals (op s) (num s) (enable s) (l_threshold s) (ifname s) (source s) (group s) v (line s).
Definition set_line (v : option string) (s : locals) : locals :=
  Locals (op s) (num s) (enable s) (l_threshold s) (ifname s) (source s) (group s) (dest s) v.

(** The number of characters [line] still points at, plus one: every
    successful [pop_token] makes it smaller, so it bounds the number of
    iterations a token loop can make. *)
Definition fuel_of (line : option string) : nat :=
  match line with
  | Some l => S (String.length l)
  | None => 1%nat
  end.

Section Parser.

Context {B : Type} `{Backend B}.
Variable P : platform.

(** [while ((dest[num] = pop_token(&line))) num++;] *)
Fixpoint to_loop (fuel : nat) (s : locals) : M B locals :=
  match fuel with
  | O => raise OutOfFuel
  | S fuel' =>
      let '(tok, line') := pop_token (line s) in
      if (0 <=? num s) && (num s <? Z.of_nat (length (dest s))) then
        let s' := set_line line' (set_dest (<[Z.to_nat (num s) := tok]> (dest s)) s) in
        match tok with
        | Some _ => to_loop fuel' (set_num (num s + 1) s')
        | None => ret s'
        end
      else raise (OOB_dest (num s) tok)
  end.

(** The chain of operand keywords, tried on every token that reaches it. *)
Definition operand (token : string) (s : locals) : M B locals :=
  if match_ (Some "from") (Some token) then
    let '(t, l) := pop_token (line s) in ret (set_line l (set_ifname t s))
  else if match_ (Some "source") (Some token) then
    let '(t, l) := pop_token (line s) in ret (set_line l (set_source t s))
  else if match_ (Some "group") (Some token) then
    let '(t, l) := pop_token (line s) in ret (set_line l (set_group t s))
  else if match_ (Some "to") (Some token) then
    to_loop (fuel_of (line s)) s
  else if match_ (Some "enable") (Some token) then
    ret (set_enable 1 s)
  else if match_ (Some "disable") (Some token) then
    ret (set_enable 0 s)
  else if match_ (Some "ttl-threshold") (Some token) then
    let '(t, l) := pop_token (line s) in
    let s := set_line l s in
    match t with
    | Some token =>
        let num := Libc.atoi token in
        if (1 <=? num) || (num <=? 255) then ret (set_threshold num s)
        else ret s
    | None => ret s
    end
  else ret s.

(** The choice of the directive while [op] is still 0.  [None] stands for
    the [continue] of the last branch. *)
Definition select_verb (lineno : Z) (token : string) (s : locals) : M B (option locals) :=
  if match_ (Some "mgroup") (Some token) then ret (Some (set_op 1 s))
  else if match_ (Some "mroute") (Some token) then ret (Some (set_op 2 s))
  else if match_ (Some "phyint") (Some token) then
    let '(t, l) := pop_token (line s) in
    let s := set_line l (set_ifname t (set_op 3 s)) in
    match t with
    | Some _ => ret (Some s)
    | None => ret (Some (set_op 0 s))
    end
  else if match_ (Some "ssmgroup") (Some token) then ret (Some (set_op 1 s))
  else
    seq WARN lineno W_unknown_command [AStr token];
    ret None.

(** [while ((token = pop_token(&line))) { ... }] *)
Fixpoint token_loop (fuel : nat) (lineno : Z) (s : locals) : M B locals :=
  match fuel with
  | O => raise OutOfFuel
  | S fuel' =>
      let '(tok, l) := pop_token (line s) in
      let s := set_line l s in
      match tok with
      | None => ret s
      | Some token =>
          if match_ (Some "#") (Some token) then ret s
          else
            do v <- (if op s =? 0 then select_verb lineno token s else ret (Some s));
            match v with
            | None => token_loop fuel' lineno s
            | Some s' =>
                do s'' <- operand token s';
                token_loop fuel' lineno s''
            end
      end
  end.

Definition init_locals (do_vifs : Z) (linebuf : string) : locals :=
  {| op := 0; num := 0; enable := do_vifs; l_threshold := DEFAULT_THRESHOLD;
     ifname := None; source := None; group := None;
     dest := replicate 32 None; line := Some (Libc.c_str linebuf) |}.

(** What is done with the directive once the tokens of the line are read. *)
Definition apply_directive (lineno : Z) (s : locals) : M B unit :=
  if op s =? 1 then
    seq join_mgroup P lineno (ifname s) (source s) (group s); ret tt
  else if op s =? 2 then
    seq add_mroute P lineno (ifname s) (group s) (source s) (dest s) (num s); ret tt
  else if op s =? 3 then
    if negb (enable s =? 0) then
      seq invoke (mroute_add_vif (ifname s) (l_threshold s)); ret tt
    else
      seq invoke (mroute_del_vif (ifname s)); ret tt
  else ret tt.

(** One pass of the loop over the lines: [linebuf] is what [fgets] stored. *)
Definition conf_line (do_vifs : Z) (lineno : Z) (linebuf : string) : M B unit :=
  let s0 := init_locals do_vifs linebuf in
  do s <- token_loop (fuel_of (line s0)) lineno s0;
  apply_directive lineno s.

End Parser.

(** ** The file driver *)

(** [fgets(buf, n, fp)] on a stream: at most [room] characters are taken,
    and the newline, if one is met, is the last of them. *)
Fixpoint fgets_read (room : nat) (stream : string) : string * string :=
  match room, stream with
  | O, _ => (EmptyString, stream)
  | _, EmptyString => (EmptyString, EmptyString)
  | S room', String c rest =>
      if Ascii.eqb c "010" then (String c EmptyString, rest)
      else let '(l, r) := fgets_read room' rest in (String c l, r)
  end.

(** [None] is the NULL of [fgets] at the end of the file. *)
Definition fgets (n : nat) (stream : string) : option (string * string) :=
  match stream with
  | EmptyString => None
  | _ => Some (fgets_read (n - 1) stream)
  end.

Section Driver.

Context {B : Type} `{Backend B}.
Variable P : platform.

(** [while ((line = fgets(linebuf, MAX_LINE_LEN, fp))) { ...; lineno++; }] *)
Fixpoint conf_lines (fuel : nat) (do_vifs lineno : Z) (fp : string) : M B unit :=
  match fuel with
  | O => raise OutOfFuel
  | S fuel' =>
      match fgets MAX_LINE_LEN fp with
      | None => ret tt
      | Some (linebuf, fp') =>
          seq conf_line P do_vifs lineno linebuf;
          conf_lines fuel' do_vifs (lineno + 1) fp'
      end
  end.

Definition conf_parse (h : host) (file : string) (do_vifs : Z) : M B Z :=
  match fopen_r h file with
  | inl e => seq set_errno e; ret 1
  | inr fp =>
      match malloc_linebuf h with
      | Some e => seq set_errno e; ret 1
      | None =>
          seq conf_lines (S (String.length fp)) do_vifs 1 fp;
          ret 0
      end
  end.

Definition get_errno : M B Z :=
  fun w => Result (inl (errno w)) w [].

Definition conf_read (h : host) (file : string) (do_vifs : Z) : M B unit :=
  match access_R_OK h file with
  | Some e =>
      seq set_errno e;
      seq (if e =? ENOENT
           then smclog LOG_NOTICE (Some "Configuration file %s does not exist") [AStr file]
           else smclog LOG_WARNING (Some "Unexpected error when accessing %s: %s")
                  [AStr file; AStrerror e]);
      smclog LOG_NOTICE (Some "Continuing anyway, waiting for client to connect.") []
  | None =>
      do r <- conf_parse h file do_vifs;
      if negb (r =? 0) then
        do e <- get_errno;
        smclog LOG_WARNING (Some "Failed parsing %s: %s") [AStr file; AStrerror e]
      else
        seq invoke script_exec_NULL; ret tt
  end.

End Driver.

(** ** A small backend to run the parser on *)

Module Demo.

(** A fixed interface table; every call succeeds and leaves it as it is. *)
Definition table := list (string * iface).

Fixpoint find (t : table) (name : string) : option iface :=
  match t with
  | [] => None
  | (n, i) :: t' => if String.eqb n name then Some i else find t' name
  end.

#[global] Instance table_backend : Backend table := {
  iface_find_by_name := find;
  iface_get_vif_by_name := fun t n =>
    match find t n with Some i => if vif i <? 0 then -1 else vif i | None => -1 end;
  iface_get_mif_by_name := fun t n =>
    match find t n with Some i => if mif i <? 0 then -1 else mif i | None => -1 end;
  backend_exec := fun t _ => (t, 0)
}.

Definition eth : table :=
  [ ("eth0", {| vif := 0; mif := 0; threshold := 1 |});
    ("eth1", {| vif := 1; mif := 1; threshold := 5 |});
    ("eth2", {| vif := 2; mif := 2; threshold := 7 |});
    ("dummy0", {| vif := -1; mif := -1; threshold := 1 |}) ].

Definition no_ipv6 : platform :=
  {| HAVE_IPV6_MULTICAST_HOST := false; HAVE_IPV6_MULTICAST_ROUTING := false;
     inet_pton6 := fun _ => None |}.

(** With IPv6: a stand-in for [inet_pton(AF_INET6, ...)] that knows two
    literals. *)
Definition with_ipv6 : platform :=
  {| HAVE_IPV6_MULTICAST_HOST := true; HAVE_IPV6_MULTICAST_ROUTING := true;
     inet_pton6 := fun s =>
       if String.eqb s "ff02::1" then Some [0xff; 2; 0; 0; 0; 0; 0; 0; 0; 0; 0; 0; 0; 0; 0; 1]
       else if String.eqb s "2001:db8::1" then Some [0x20; 1; 0xd; 0xb8; 0; 0; 0; 0; 0; 0; 0; 0; 0; 0; 0; 1]
       else None |}.

Definition w0 : world table := World eth 0.

Definition nl : string := String "010" EmptyString.

(** A line of text as [fgets] delivers it, with its newline. *)
Definition ln (text : string) : string := String.append text nl.

Definition host_with (contents : string) : host :=
  {| access_R_OK := fun _ => None; fopen_r := fun _ => inr contents; malloc_linebuf := None |}.

End Demo.

(** * The vocabulary of the properties

    Predicates on events, on the results of the loops and of the appliers,
    and the inputs used as examples, in which the properties are stated. *)

Section Vocabulary.

Context {B : Type} `{Backend B}.
Variable P : platform.

(** ** Judgements on events *)

Definition is_call (e : event) : bool :=
  match e with Call _ => true | Log _ _ _ => false end.

(** The record of a [WARN(fmt, ...)], whatever the line and the
    arguments: a warning without format whose first argument is the text
    ["%02d: " fmt]. *)
Definition is_warn (fmt : string) (e : event) : bool :=
  match e with
  | Log LOG_WARNING None (AStr f :: _) => String.eqb f (String.append "%02d: " fmt)
  | _ => false
  end.

(** The warnings with which an applier turns a directive down. *)
Definition reject_formats : list string :=
  [ W_bad_group6; W_bad_source4_mgroup; W_bad_group4; W_bad_inbound6; W_bad_source6;
    W_no_outbound6; W_bad_inbound4; W_bad_source4; W_prefix_ssm; W_bad_prefix;
    W_no_outbound4 ].

Definition is_reject (e : event) : bool :=
  existsb (fun f => is_warn f e) reject_formats.

Definition is_v6_call (e : event) : bool :=
  match e with
  | Call (mcgroup6_join _ _) | Call (mroute6_add _) => true
  | _ => false
  end.

Definition is_hook (e : event) : bool :=
  match e with Call script_exec_NULL => true | _ => false end.

(** The record that [WARN(fmt, args)] leaves on line [lineno]. *)
Definition warn_event (lineno : Z) (fmt : string) (args : list arg) : event :=
  Log LOG_WARNING None (AStr (String.append "%02d: " fmt) :: AInt lineno :: args).

(** What a loop over the tokens may change: the pointer into the line has
    not moved backwards. *)
Definition advances (s s' : locals) : Prop :=
  (fuel_of (line s') <= fuel_of (line s))%nat.

(** The results of a computation that neither logs nor touches the world,
    and that can only fail on a store outside [dest]. *)
Definition quiet (s : locals) (fuel_ok : Prop) (r : result B locals) (w : world B) : Prop :=
  post r = w /\ out r = [] /\
  (forall s', res r = inl s' -> advances s s') /\
  (forall f, res r = inr f -> (f = OutOfFuel /\ ~ fuel_ok) \/ exists i v, f = OOB_dest i v).

Definition is_unknown_warning (lineno : Z) (e : event) : Prop :=
  exists tok, e = warn_event lineno W_unknown_command [AStr tok].

(** What holds of every run of the loop over the tokens of a line. *)
Definition token_loop_post (lineno : Z) (fuel_ok : Prop)
    (r : result B locals) (w : world B) : Prop :=
  post r = w /\ Forall (is_unknown_warning lineno) (out r) /\
  (forall f, res r = inr f -> (f = OutOfFuel /\ ~ fuel_ok) \/ exists i v, f = OOB_dest i v).

(** The interface an outbound name stands for, when [add_mroute] accepts
    it: the name is known and its index ([vif] or [mif]) is not -1. *)
Definition resolve (idx : iface -> Z) (b : B) (name : string) : option iface :=
  match iface_find_by_name b name with
  | Some ifc => if idx ifc =? -1 then None else Some ifc
  | None => None
  end.

Definition resolves (idx : iface -> Z) (b : B) (name : string) : bool :=
  match resolve idx b name with Some _ => true | None => false end.

(** The slot an accepted name writes. *)
Definition set_ttl (idx : iface -> Z) (b : B) (ttl : list Z) (name : string) : list Z :=
  match resolve idx b name with
  | Some ifc => <[Z.to_nat (idx ifc) := threshold ifc]> ttl
  | None => ttl
  end.

(** The warning, if any, that one outbound name draws. *)
Definition outbound_warning (idx : iface -> Z) (w_bad w_same : string)
    (lineno : Z) (ifname : string) (inbound : Z) (b : B) (name : string) : list event :=
  match resolve idx b name with
  | None => [warn_event lineno w_bad [AStr name]]
  | Some ifc =>
      if idx ifc =? inbound then [warn_event lineno w_same [AStr name; AStr ifname]] else []
  end.

(** Every accepted name has its index inside the TTL vector. *)
Definition indices_in_range (idx : iface -> Z) (b : B) (names : list string) (size : nat) : Prop :=
  forall name ifc, In name names -> resolve idx b name = Some ifc ->
    0 <= idx ifc < Z.of_nat size.

(** Without any assumption on the array or on the interface table: the
    loop leaves the world alone, logs nothing but its two warnings, and can
    only fail on an access outside [outbound] or outside the TTL vector. *)
Definition outbound_loop_post (w_bad w_same : string) (lineno : Z)
    (w : world B) (r : result B (Z * list Z)) : Prop :=
  post r = w /\
  Forall (fun e => exists args, e = warn_event lineno w_bad args \/
                                e = warn_event lineno w_same args) (out r) /\
  (forall f, res r = inr f -> (exists i, f = OOB_ttl i) \/ (exists i, f = OOB_outbound i)).

Definition advisory_formats : list string :=
  [ W_ipv6_ssm; W_bad_outbound4; W_same_outbound4; W_bad_outbound6; W_same_outbound6 ].

(** A warning that goes with a directive without deciding its fate. *)
Definition is_advisory (lineno : Z) (e : event) : Prop :=
  exists fmt args, In fmt advisory_formats /\ e = warn_event lineno fmt args.

(** A warning with which the directive is turned down. *)
Definition is_rejection (lineno : Z) (e : event) : Prop :=
  exists fmt args, In fmt reject_formats /\ e = warn_event lineno fmt args.

(** The calls [join_mgroup] and [add_mroute] can make. *)
Definition directive_call (P : platform) (c : call) : Prop :=
  match c with
  | mcgroup4_join _ _ _ | mroute4_add _ => True
  | mcgroup6_join _ _ | mroute6_add _ => ipv6_enabled P = true
  | _ => False
  end.

Definition memory_fault (f : fault) : Prop :=
  match f with
  | OutOfFuel => False
  | _ => True
  end.

(** The five ways a call of [join_mgroup] or [add_mroute] can end. *)
Inductive applier_outcome (lineno : Z) (w : world B) (r : result B Z) : Prop :=
  | outcome_incomplete :
      r = Result (inl 1) (World (be w) EINVAL) [] ->
      applier_outcome lineno w r
  | outcome_ignored :
      ipv6_enabled P = false ->
      r = Result (inl 0) w [warn_event lineno W_ipv6_disabled []] ->
      applier_outcome lineno w r
  | outcome_rejected (adv : list event) (e : event) :
      Forall (is_advisory lineno) adv -> is_rejection lineno e ->
      r = Result (inl 1) w (adv ++ [e]) ->
      applier_outcome lineno w r
  | outcome_applied (adv : list event) (c : call) :
      Forall (is_advisory lineno) adv -> directive_call P c ->
      r = Result (inl (snd (backend_exec (be w) c)))
                 (World (fst (backend_exec (be w) c)) (errno w)) (adv ++ [Call c]) ->
      applier_outcome lineno w r
  | outcome_fault (adv : list event) (f : fault) :
      Forall (is_advisory lineno) adv -> memory_fault f ->
      r = Result (inr f) w adv ->
      applier_outcome lineno w r.

(** The call of a [phyint] directive. *)
Definition vif_call (c : call) : Prop :=
  match c with
  | mroute_add_vif _ _ | mroute_del_vif _ => True
  | _ => False
  end.

(** How applying the directive of a line can end: nothing to apply, the
    call of a [phyint], or one of the endings of an applier. *)
Inductive directive_outcome (lineno : Z) (w : world B) (r : result B unit) : Prop :=
  | directive_none :
      r = Result (inl tt) w [] -> directive_outcome lineno w r
  | directive_vif (c : call) :
      vif_call c ->
      r = Result (inl tt) (World (fst (backend_exec (be w) c)) (errno w)) [Call c] ->
      directive_outcome lineno w r
  | directive_applier (ra : result B Z) :
      applier_outcome lineno w ra ->
      r = Result (match res ra with inl _ => inl tt | inr f => inr f end) (post ra) (out ra) ->
      directive_outcome lineno w r.

(** One line: first the warnings for unknown commands, then the directive;
    or a store outside [dest] while the tokens are read. *)
Inductive line_outcome (lineno : Z) (w : world B) (r : result B unit) : Prop :=
  | line_applied (unknown : list event) (rd : result B unit) :
      Forall (is_unknown_warning lineno) unknown ->
      directive_outcome lineno w rd ->
      r = Result (res rd) (post rd) (unknown ++ out rd) ->
      line_outcome lineno w r
  | line_fault (unknown : list event) (f : fault) :
      Forall (is_unknown_warning lineno) unknown ->
      memory_fault f ->
      r = Result (inr f) w unknown ->
      line_outcome lineno w r.

Definition resolved (idx : iface -> Z) (b : B) (names : list string) : list string :=
  List.filter (resolves idx b) names.

Definition unresolved (idx : iface -> Z) (b : B) (names : list string) : list string :=
  List.filter (fun n => negb (resolves idx b n)) names.

(** Slot [v] of a TTL vector built for the outbound names [names]: it holds
    the threshold of an accepted name whose index is [v], or it holds 0 and
    no accepted name has index [v]. *)
Definition slot_holds (idx : iface -> Z) (b : B) (names : list string)
    (ttl : list Z) (v : Z) : Prop :=
  (exists name ifc, In name names /\ resolve idx b name = Some ifc /\ idx ifc = v /\
                    ttl !! Z.to_nat v = Some (threshold ifc)) \/
  ((forall name ifc, In name names -> resolve idx b name = Some ifc -> idx ifc <> v) /\
   ttl !! Z.to_nat v = Some 0).

(** What C1 says of a run of [add_mroute] on the outbound names [names],
    for one address family: [idx] is the index read, [w_bad] the warning for
    a name turned down, [w_none] the final warning, [route] the call. *)
Definition outbound_applied (idx : iface -> Z) (w_bad w_none : string)
    (route : list Z -> call) (size : Z) (lineno : Z) (w : world B)
    (names : list string) (r : result B Z) : Prop :=
  List.filter (is_warn w_bad) (out r)
    = map (fun n => warn_event lineno w_bad [AStr n]) (unresolved idx (be w) names) /\
  match resolved idx (be w) names with
  | [] =>
      res r = inl 1 /\ post r = w /\ List.filter is_call (out r) = [] /\
      last (out r) = Some (warn_event lineno w_none [])
  | _ :: _ =>
      exists ttl,
        List.filter is_call (out r) = [Call (route ttl)] /\
        res r = inl (snd (backend_exec (be w) (route ttl))) /\
        Z.of_nat (length ttl) = size /\
        forall v, 0 <= v < size -> slot_holds idx (be w) names ttl v
  end.

(** The operands of an IPv4 [mroute] parse and its inbound interface
    resolves: [inbound], [src], [grp] and [len] are what [add_mroute] stores
    in the route. *)
Definition operands_parse4 (b : B) (ifname group : string) (source : option string)
    (inbound src grp len : Z) : Prop :=
  Libc.strchr group ":" = false /\
  iface_get_vif_by_name b ifname = inbound /\ 0 <= inbound /\
  match source with
  | Some s => Libc.inet_pton4 s = Some src
  | None => src = Libc.INADDR_ANY
  end /\
  match Libc.strchr_split group "/" with
  | Some (g, ptr) =>
      src = Libc.INADDR_ANY /\ len = Libc.atoi ptr /\ 0 <= len <= 32 /\
      Libc.inet_pton4 g = Some grp
  | None => len = 0 /\ Libc.inet_pton4 group = Some grp
  end /\
  Libc.IN_MULTICAST grp = true.

(** The same for an IPv6 [mroute], on a build with IPv6. *)
Definition operands_parse6 (b : B) (ifname group : string) (source : option string)
    (inbound : Z) (src grp : in6_addr) : Prop :=
  ipv6_enabled P = true /\ Libc.strchr group ":" = true /\
  iface_get_mif_by_name b ifname = inbound /\ 0 <= inbound /\
  (exists s, source = Some s /\ inet_pton6 P s = Some src) /\
  inet_pton6 P group = Some grp /\ IN6_IS_ADDR_MULTICAST grp = true.

Definition names33 : string :=
  "n1 n2 n3 n4 n5 n6 n7 n8 n9 n10 n11 n12 n13 n14 n15 n16 n17 n18 n19 n20 n21 n22 n23 n24 n25 n26 n27 n28 n29 n30 n31 n32 n33".

Definition names32 : string :=
  "n1 n2 n3 n4 n5 n6 n7 n8 n9 n10 n11 n12 n13 n14 n15 n16 n17 n18 n19 n20 n21 n22 n23 n24 n25 n26 n27 n28 n29 n30 n31 n32".

(** An event that the lines of a file can produce: never the hook, and a
    call of the IPv6 backend only on a build with IPv6. *)
Definition pass_event (P : platform) (e : event) : Prop :=
  is_hook e = false /\ (ipv6_enabled P = false -> is_v6_call e = false).

(** A file with an IPv6 group, an IPv6 route and a phyint, read on a build
    without IPv6. *)
Definition demo_file : string :=
  String.append (Demo.ln "mgroup from eth0 group ff02::1")
    (String.append (Demo.ln "mroute from eth0 source 2001:db8::1 group ff02::1 to eth1")
       (Demo.ln "phyint eth0 enable")).

(** The claim under test: some warning of line [lineno] is among the
    events, be it a record of [WARN] or a warning whose format begins with
    the line number. *)
Definition warns_with_line_number (lineno : Z) (evs : list event) : Prop :=
  exists fmt args,
    In (warn_event lineno fmt args) evs \/
    In (Log LOG_WARNING (Some (String.append "%02d: " fmt)) (AInt lineno :: args)) evs.

(** A computation that neither reads nor changes the world: run from
    another world, it gives the same result and the same events. *)
Definition world_free {A} (m : M B A) : Prop :=
  forall w w' : world B, m w' = Result (res (m w)) w' (out (m w)).

(** The locals of a complete [mgroup] or [mroute] directive whose group is
    written with a colon: the interface and the group are there and, for an
    [mroute], at least one outbound name. *)
Definition ipv6_directive (s : locals) : Prop :=
  (op s = 1 \/ (op s = 2 /\ num s <> 0)) /\
  exists i g, ifname s = Some i /\ group s = Some g /\ Libc.strchr g ":" = true.

(** The result of a computation on the locals, with [op] overwritten. *)
Definition with_op (v : Z) (r : result B locals) : result B locals :=
  Result (match res r with inl s => inl (set_op v s) | inr f => inr f end) (post r) (out r).

Definition is_verb (token : string) : bool :=
  match_ (Some "mgroup") (Some token) || match_ (Some "mroute") (Some token) ||
  match_ (Some "phyint") (Some token) || match_ (Some "ssmgroup") (Some token).

(** No token of the line, up to a comment, is a verb. *)
Fixpoint no_verb (fuel : nat) (l : option string) : bool :=
  match fuel with
  | O => true
  | S fuel' =>
      match pop_token l with
      | (Some token, l') =>
          if match_ (Some "#") (Some token) then true
          else negb (is_verb token) && no_verb fuel' l'
      | (None, _) => true
      end
  end.

(** The first token of the line is neither a comment nor a verb. *)
Definition first_token_unknown (linebuf token rest : string) : Prop :=
  pop_token (Some (Libc.c_str linebuf)) = (Some token, Some rest) /\
  match_ (Some "#") (Some token) = false /\
  is_verb token = false.

(** ** The text of a line *)

(** Every character of [s] passes the test [p]. *)
Fixpoint all_chars (p : ascii -> bool) (s : string) : bool :=
  match s with
  | EmptyString => true
  | String c s' => p c && all_chars p s'
  end.

(** A run of white space, and a text without white space. *)
Definition space_run (s : string) : bool := all_chars Libc.isspace s.
Definition spaceless (s : string) : bool := all_chars (fun c => negb (Libc.isspace c)) s.

(** The keywords of the operand chain and the verbs, in the order in which
    [conf_parse] tests them. *)
Definition operand_keywords : list string :=
  [ "from"; "source"; "group"; "to"; "enable"; "disable"; "ttl-threshold" ].

Definition verbs : list string := [ "mgroup"; "mroute"; "phyint"; "ssmgroup" ].

(** No word of the list is a prefix of another word of the list. *)
Definition prefix_free (words : list string) : bool :=
  forallb (fun a => forallb (fun b => String.eqb a b || negb (Libc.strncmp_prefix a b)) words)
          words.

(** The tokens that repeated calls of [pop_token] take from [l], in
    order, until it returns NULL. *)
Fixpoint tokens (fuel : nat) (l : option string) : list string :=
  match fuel with
  | O => []
  | S fuel' =>
      match pop_token l with
      | (Some token, l') => token :: tokens fuel' l'
      | (None, _) => []
      end
  end.

(** A line that holds no directive: no token at all, a comment in first
    place, or a [phyint] with nothing after it. *)
Definition silent_line (linebuf : string) : Prop :=
  match pop_token (Some (Libc.c_str linebuf)) with
  | (None, _) => True
  | (Some token, l) =>
      match_ (Some "#") (Some token) = true \/
      (match_ (Some "phyint") (Some token) = true /\ fst (pop_token l) = None)
  end.

(** ** Calls and line numbers *)

(** A route as [add_mroute] hands it to [mroute4_add]. *)
Definition route4_ok (m : mroute4) : Prop :=
  0 <= m4_inbound m /\
  Libc.IN_MULTICAST (m4_group m) = true /\
  0 <= m4_len m <= 32 /\
  (m4_len m <> 0 -> m4_source m = Libc.INADDR_ANY) /\
  Z.of_nat (length (m4_ttl m)) = MAXVIFS.

Definition route6_ok (m : mroute6) : Prop :=
  0 <= m6_inbound m /\
  IN6_IS_ADDR_MULTICAST (m6_group m) = true /\
  Z.of_nat (length (m6_ttl m)) = MAXMIFS.

Definition call_ok (c : call) : Prop :=
  match c with
  | mcgroup4_join _ _ grp => Libc.IN_MULTICAST grp = true
  | mcgroup6_join _ grp => IN6_IS_ADDR_MULTICAST grp = true
  | mroute4_add m => route4_ok m
  | mroute6_add m => route6_ok m
  | _ => True
  end.

(** An event as line [lineno] produces it: a warning that carries the
    line number, or a call with validated operands. *)
Definition from_line (lineno : Z) (e : event) : Prop :=
  match e with
  | Log _ _ _ => exists fmt args, e = warn_event lineno fmt args
  | Call c => call_ok c
  end.

(** What successive calls of [fgets] return on a stream. *)
Fixpoint file_lines (fuel : nat) (fp : string) : list string :=
  match fuel with
  | O => []
  | S fuel' =>
      match fgets MAX_LINE_LEN fp with
      | Some (linebuf, fp') => linebuf :: file_lines fuel' fp'
      | None => []
      end
  end.

(** ** The arrays *)

(** [dest] has its 32 slots, [num] lies within them, and each of the first
    [num] slots holds a name. *)
Definition dest_filled (s : locals) : Prop :=
  length (dest s) = 32%nat /\ 0 <= num s <= 32 /\
  forall i, (i < Z.to_nat (num s))%nat -> exists name, dest s !! i = Some (Some name).

(** The fault [f] is a store into the TTL vector at the index of an
    interface of the table [b] that is neither -1 nor inside the vector. *)
Definition index_out_of_range (b : B) (f : fault) : Prop :=
  exists name ifc, iface_find_by_name b name = Some ifc /\
    ((f = OOB_ttl (vif ifc) /\ vif ifc <> -1 /\ ~ (0 <= vif ifc < MAXVIFS)) \/
     (f = OOB_ttl (mif ifc) /\ mif ifc <> -1 /\ ~ (0 <= mif ifc < MAXMIFS))).

(** ** The slots of a directive *)

(** No token of the list has the keyword as a prefix. *)
Definition absent (keyword : string) (toks : list string) : Prop :=
  Forall (fun t => match_ (Some keyword) (Some t) = false) toks.

(** Between [s] and [s'] every slot whose keyword is absent from [toks]
    has kept its value. *)
Definition kept (toks : list string) (s s' : locals) : Prop :=
  (absent "enable" toks -> absent "disable" toks -> enable s' = enable s) /\
  (absent "ttl-threshold" toks -> l_threshold s' = l_threshold s) /\
  (absent "source" toks -> source s' = source s) /\
  (absent "group" toks -> group s' = group s) /\
  (absent "to" toks -> dest s' = dest s /\ num s' = num s) /\
  (absent "from" toks -> absent "phyint" toks -> ifname s' = ifname s).

(** The tokens still to come at [l'] are the last of those to come at [l]. *)
Definition later_tokens (fuel : nat) (l l' : option string) : Prop :=
  exists pre, tokens fuel l = pre ++ tokens fuel l'.

End Vocabulary.

(** * Properties *)

(** ** The C library and the tokenizer on examples *)

Example atoi_300 : Libc.atoi "300" = 300. Proof. reflexivity. Qed.
Example atoi_neg : Libc.atoi " -7x" = -7. Proof. reflexivity. Qed.
Example atoi_txt : Libc.atoi "abc" = 0. Proof. reflexivity. Qed.
Example pton_ok : Libc.inet_pton4 "239.1.1.1" = Some 0xef010101. Proof. reflexivity. Qed.
Example pton_bad1 : Libc.inet_pton4 "239.1.1" = None. Proof. reflexivity. Qed.
Example pton_bad2 : Libc.inet_pton4 "239.1.1.256" = None. Proof. reflexivity. Qed.
Example pton_bad3 : Libc.inet_pton4 "239.01.1.1" = None. Proof. reflexivity. Qed.
Example pton_bad4 : Libc.inet_pton4 "1.2.3.4." = None. Proof. reflexivity. Qed.

Example pop1 : pop_token (Some "  from eth0
") = (Some "from", Some "eth0
").
Proof. reflexivity. Qed.
Example pop2 : pop_token (Some "eth0") = (None, None).
Proof. reflexivity. Qed.
Example pop3 : pop_token (Some "   ") = (None, None).
Proof. reflexivity. Qed.
Example match1 : match_ (Some "from") (Some "fromage") = true.
Proof. reflexivity. Qed.
Example match2 : match_ (Some "group") (Some "mgroup") = false.
Proof. reflexivity. Qed.

(** ** The parser on the scenarios of the specification *)

Example scenario_S1 :
  out (conf_line Demo.no_ipv6 0 1 (Demo.ln "phyint eth0 enable ttl-threshold 10") Demo.w0)
  = [Call (mroute_add_vif (Some "eth0") 10)].
Proof. reflexivity. Qed.

Example scenario_S2 :
  out (conf_line Demo.no_ipv6 1 1 (Demo.ln "phyint eth0") Demo.w0)
    = [Call (mroute_add_vif (Some "eth0") 1)] /\
  out (conf_line Demo.no_ipv6 0 1 (Demo.ln "phyint eth0") Demo.w0)
    = [Call (mroute_del_vif (Some "eth0"))].
Proof. split; reflexivity. Qed.

Example scenario_S4 :
  out (conf_line Demo.no_ipv6 0 1
         (Demo.ln "mgroup from eth0 source 10.0.0.1 group 239.0.0.1") Demo.w0)
  = [Call (mcgroup4_join "eth0" 0x0a000001 0xef000001)].
Proof. reflexivity. Qed.

Example scenario_S5 :
  out (conf_line Demo.no_ipv6 0 1
         (Demo.ln "mroute from eth0 source 10.0.0.1 group 239.1.1.1 to eth1 eth2") Demo.w0)
  = [Call (mroute4_add {| m4_inbound := 0; m4_source := 0x0a000001; m4_group := 0xef010101;
                          m4_len := 0;
                          m4_ttl := 0 :: 5 :: 7 :: replicate 29 0 |})].
Proof. reflexivity. Qed.

(** The last token of a file that does not end in a newline is lost:
    [pop_token] gives up when the token it has found runs to the NUL. *)
Example last_token_without_newline :
  out (conf_line Demo.no_ipv6 0 1 "phyint eth0 enable" Demo.w0)
    = [Call (mroute_del_vif (Some "eth0"))] /\
  out (conf_line Demo.no_ipv6 0 1 "phyint eth0" Demo.w0) = [].
Proof. split; reflexivity. Qed.

(** ** Equations of the monad *)

Section MonadFacts.

Context {B : Type} `{Backend B}.

Lemma result_eta {A} (r : result B A) : Result (res r) (post r) (out r) = r.
Proof. destruct r; reflexivity. Qed.

Lemma bind_ret {A C} (a : A) (k : A -> M B C) (w : world B) :
  bind (ret a) k w = k a w.
Proof. unfold bind, ret; simpl. apply result_eta. Qed.

Lemma bind_get {C} (k : B -> M B C) (w : world B) :
  bind get_backend k w = k (be w) w.
Proof. unfold bind, get_backend; simpl. apply result_eta. Qed.

Lemma bind_raise {A C} (f : fault) (k : A -> M B C) (w : world B) :
  bind (raise f) k w = Result (inr f) w [].
Proof. reflexivity. Qed.

Lemma bind_WARN {C} lineno fmt args (k : unit -> M B C) (w : world B) :
  bind (WARN lineno fmt args) k w =
  Result (res (k tt w)) (post (k tt w)) (warn_event lineno fmt args :: out (k tt w)).
Proof. reflexivity. Qed.

Lemma bind_set_errno {C} e (k : unit -> M B C) (w : world B) :
  bind (set_errno e) k w = k tt (World (be w) e).
Proof. unfold bind, set_errno; simpl. apply result_eta. Qed.

Lemma bind_invoke {C} c (k : Z -> M B C) (w : world B) :
  bind (invoke c) k w =
  let w' := World (fst (backend_exec (be w) c)) (errno w) in
  let r := k (snd (backend_exec (be w) c)) w' in
  Result (res r) (post r) (Call c :: out r).
Proof. reflexivity. Qed.

Lemma bind_done {A C} (m : M B A) (k : A -> M B C) (w w' : world B) a evs :
  m w = Result (inl a) w' evs ->
  bind m k w = Result (res (k a w')) (post (k a w')) (evs ++ out (k a w')).
Proof. intros Hm. unfold bind. rewrite Hm. reflexivity. Qed.

Lemma bind_fault {A C} (m : M B A) (k : A -> M B C) (w w' : world B) f evs :
  m w = Result (inr f) w' evs ->
  bind m k w = Result (inr f) w' evs.
Proof. intros Hm. unfold bind. rewrite Hm. reflexivity. Qed.

Lemma WARN_run lineno fmt args (w : world B) :
  WARN lineno fmt args w = Result (inl tt) w [warn_event lineno fmt args].
Proof. reflexivity. Qed.

Lemma invoke_run c (w : world B) :
  invoke c w =
  Result (inl (snd (backend_exec (be w) c)))
         (World (fst (backend_exec (be w) c)) (errno w)) [Call c].
Proof. reflexivity. Qed.

End MonadFacts.

(** ** The tokenizer consumes its input *)

Lemma skip_spaces_length (s : string) :
  (String.length (Libc.skip_spaces s) <= String.length s)%nat.
Proof.
  induction s as [|a s IH]; simpl; [lia|].
  destruct (Libc.isspace a); simpl; lia.
Qed.

Lemma token_end_length (s t e : string) :
  token_end s = (t, e) -> (String.length t + String.length e = String.length s)%nat.
Proof.
  revert t e; induction s as [|a s IH]; simpl; intros t e Heq.
  - inversion Heq; reflexivity.
  - destruct (Libc.isspace a).
    + inversion Heq; reflexivity.
    + destruct (token_end s) as [t' e'] eqn:E. inversion Heq; subst.
      simpl. rewrite (IH t' e eq_refl). reflexivity.
Qed.

Lemma fuel_of_pos (l : option string) : (1 <= fuel_of l)%nat.
Proof. destruct l; simpl; lia. Qed.

(** A token that is returned leaves strictly less to read. *)
Lemma pop_token_shrinks (l : option string) (t : string) (l' : option string) :
  pop_token l = (Some t, l') -> (fuel_of l' < fuel_of l)%nat.
Proof.
  destruct l as [s|]; simpl; [|discriminate].
  destruct (token_end (Libc.skip_spaces s)) as [tok e] eqn:E.
  pose proof (token_end_length _ _ _ E) as Hlen.
  pose proof (skip_spaces_length s) as Hsk.
  destruct e as [|c rest]; [discriminate|].
  destruct tok; [discriminate|].
  intros Heq; inversion Heq; subst. simpl in *. lia.
Qed.

Lemma pop_token_le (l : option string) (t l' : option string) :
  pop_token l = (t, l') -> (fuel_of l' <= fuel_of l)%nat.
Proof.
  destruct t as [t|].
  - intros Hp. apply pop_token_shrinks in Hp. lia.
  - intros Hp. assert (l' = None) as ->.
    { destruct l as [s|]; simpl in Hp; [|congruence].
      destruct (token_end (Libc.skip_spaces s)) as [tok e].
      destruct e; [congruence|]. destruct tok; congruence. }
    apply fuel_of_pos.
Qed.

(** ** The token loops *)

Arguments match_ : simpl never.

Section LoopFacts.

Context {B : Type} `{Backend B}.
Variable P : platform.

Lemma to_loop_quiet (fuel : nat) (s : locals) (w : world B) :
  quiet s (fuel_of (line s) <= fuel)%nat (to_loop fuel s w) w.
Proof.
  revert s; induction fuel as [|fuel IH]; intros s.
  - simpl. repeat split; try discriminate.
    intros f Hf. inversion Hf; subst. left. split; [reflexivity|].
    pose proof (fuel_of_pos (line s)). lia.
  - simpl. destruct (pop_token (line s)) as [tok l'] eqn:Hp.
    destruct ((0 <=? num s) && (num s <? Z.of_nat (length (dest s)))) eqn:Hb.
    + destruct tok as [t|].
      * pose proof (pop_token_shrinks _ _ _ Hp) as Hlt.
        destruct (IH (set_num (num s + 1)
                   (set_line l' (set_dest (<[Z.to_nat (num s):=Some t]> (dest s)) s))))
          as (Hpost & Hout & Hadv & Hflt).
        repeat split; auto.
        -- intros s' Hs'. specialize (Hadv s' Hs'). unfold advances in *. simpl in *. lia.
        -- intros f Hf. destruct (Hflt f Hf) as [[-> Hno]|Hoob]; [left|right; exact Hoob].
           split; [reflexivity|]. simpl in Hno. lia.
      * repeat split; try discriminate.
        intros s' Hs'. inversion Hs'; subst. unfold advances; simpl.
        apply (pop_token_le _ _ _ Hp).
    + repeat split; try discriminate.
      intros f Hf. inversion Hf; subst. right. eauto.
Qed.

Lemma operand_quiet (token : string) (s : locals) (w : world B) :
  quiet s True (operand token s w) w.
Proof.
  unfold operand.
  repeat match goal with
  | |- context [if match_ ?a ?b then _ else _] => destruct (match_ a b)
  end;
  try (destruct (pop_token (line s)) as [t l] eqn:Hp;
       pose proof (pop_token_le _ _ _ Hp) as Hle).
  7: destruct t as [t|]; [destruct ((1 <=? Libc.atoi t) || (Libc.atoi t <=? 255))|].
  all: try (repeat split; try discriminate;
            intros s' Hs'; inversion Hs'; subst; unfold advances; simpl; lia).
  destruct (to_loop_quiet (fuel_of (line s)) s w) as (Hpost & Hout & Hadv & Hflt).
  repeat split; auto.
  intros f Hf. destruct (Hflt f Hf) as [[_ Hno]|Hoob]; [|right; exact Hoob].
  exfalso; apply Hno; lia.
Qed.

Lemma select_verb_cases (lineno : Z) (token : string) (s : locals) (w : world B) :
  (exists s', select_verb lineno token s w = Result (inl (Some s')) w [] /\ advances s s') \/
  select_verb lineno token s w =
    Result (inl None) w [warn_event lineno W_unknown_command [AStr token]].
Proof.
  unfold select_verb.
  repeat match goal with
  | |- context [if match_ ?a ?b then _ else _] => destruct (match_ a b)
  end;
  try (left; eexists; split; [reflexivity|unfold advances; simpl; lia]).
  - destruct (pop_token (line s)) as [t l] eqn:Hp.
    pose proof (pop_token_le _ _ _ Hp) as Hle.
    left. destruct t; eexists; (split; [reflexivity|unfold advances; simpl; lia]).
  - right. reflexivity.
Qed.

Lemma token_loop_facts (fuel : nat) (lineno : Z) (s : locals) (w : world B) :
  token_loop_post lineno (fuel_of (line s) <= fuel)%nat (token_loop fuel lineno s w) w.
Proof.
  revert s; induction fuel as [|fuel IH]; intros s.
  - simpl. repeat split; auto.
    intros f Hf. inversion Hf; subst. left. split; [reflexivity|].
    pose proof (fuel_of_pos (line s)). lia.
  - simpl. destruct (pop_token (line s)) as [tok l] eqn:Hp.
    destruct tok as [token|]; [|repeat split; simpl; auto; intros; discriminate].
    pose proof (pop_token_shrinks _ _ _ Hp) as Hlt.
    destruct (match_ (Some "#") (Some token)); [repeat split; simpl; auto; intros; discriminate|].
    unfold bind at 1.
    assert (Hsel :
      (exists s1, (if op s =? 0
                   then select_verb lineno token (set_line l s)
                   else ret (Some (set_line l s))) w = Result (inl (Some s1)) w []
                  /\ advances (set_line l s) s1) \/
      (if op s =? 0
       then select_verb lineno token (set_line l s)
       else ret (Some (set_line l s))) w =
        Result (inl None) w [warn_event lineno W_unknown_command [AStr token]]).
    { destruct (op s =? 0).
      - apply select_verb_cases.
      - left. eexists; split; [reflexivity|unfold advances; lia]. }
    destruct Hsel as [(s1 & -> & Hadv1)| ->]; simpl.
    + unfold bind.
      destruct (operand_quiet token s1 w) as (Hpost & Hout & Hadv & Hflt).
      destruct (res (operand token s1 w)) as [s2|f] eqn:Hres; simpl.
      * rewrite Hpost, Hout. simpl.
        destruct (IH s2) as (Hp2 & Ho2 & Hf2).
        repeat split; auto.
        intros f Hf. destruct (Hf2 f Hf) as [[-> Hno]|Hoob]; [left|right; exact Hoob].
        split; [reflexivity|]. specialize (Hadv s2 eq_refl).
        unfold advances in *. simpl in *. lia.
      * rewrite Hpost, Hout. repeat split; auto.
        intros f' Hf'. inversion Hf'; subst.
        destruct (Hflt f' eq_refl) as [[_ Hno]|Hoob]; [exfalso; apply Hno; exact I|].
        right; exact Hoob.
    + destruct (IH (set_line l s)) as (Hp2 & Ho2 & Hf2).
      repeat split; auto.
      * constructor; [eexists; reflexivity|exact Ho2].
      * intros f Hf. destruct (Hf2 f Hf) as [[-> Hno]|Hoob]; [left|right; exact Hoob].
        split; [reflexivity|]. simpl in *. lia.
Qed.

End LoopFacts.

(** The loops over the tokens do not look at the world. *)

Section WorldFree.

Context {B : Type} `{Backend B}.

Lemma world_free_ret {A} (a : A) : world_free (B := B) (ret a).
Proof. intros w w'. reflexivity. Qed.

Lemma world_free_raise {A} (f : fault) : world_free (B := B) (A := A) (raise f).
Proof. intros w w'. reflexivity. Qed.

Lemma world_free_WARN lineno fmt args : world_free (B := B) (WARN lineno fmt args).
Proof. intros w w'. reflexivity. Qed.

Lemma world_free_post {A} (m : M B A) (w : world B) : world_free m -> post (m w) = w.
Proof. intros Hm. rewrite (Hm w w). reflexivity. Qed.

Lemma world_free_bind {A C} (m : M B A) (k : A -> M B C) :
  world_free m -> (forall a, world_free (k a)) -> world_free (bind m k).
Proof.
  intros Hm Hk w w'. unfold bind.
  rewrite (world_free_post m w Hm). rewrite (Hm w w'). cbn [res post out].
  destruct (res (m w)) as [a|f]; cbn [res post out]; [|reflexivity].
  rewrite (Hk a w w'). reflexivity.
Qed.

Lemma to_loop_world_free (fuel : nat) (s : locals) : world_free (B := B) (to_loop fuel s).
Proof.
  revert s; induction fuel as [|fuel IH]; intros s; [apply world_free_raise|].
  cbn [to_loop]. destruct (pop_token (line s)) as [tok l'].
  destruct ((0 <=? num s) && (num s <? Z.of_nat (length (dest s)))); [|apply world_free_raise].
  destruct tok as [t|]; [apply IH|apply world_free_ret].
Qed.

Lemma operand_world_free (token : string) (s : locals) :
  world_free (B := B) (operand token s).
Proof.
  unfold operand.
  repeat match goal with
  | |- context [if match_ ?a ?b then _ else _] => destruct (match_ a b)
  end;
  try (destruct (pop_token (line s)) as [t l]);
  try apply world_free_ret; try apply to_loop_world_free.
  destruct t as [t|]; [destruct ((1 <=? Libc.atoi t) || (Libc.atoi t <=? 255))|];
    apply world_free_ret.
Qed.

Lemma select_verb_world_free lineno (token : string) (s : locals) :
  world_free (B := B) (select_verb lineno token s).
Proof.
  unfold select_verb.
  repeat match goal with
  | |- context [if match_ ?a ?b then _ else _] => destruct (match_ a b)
  end;
  try (destruct (pop_token (line s)) as [[t|] l]; cbv zeta);
  try apply world_free_ret.
  all: apply world_free_bind; [apply world_free_WARN|intros; apply world_free_ret].
Qed.

Lemma token_loop_world_free (fuel : nat) (lineno : Z) (s : locals) :
  world_free (B := B) (token_loop fuel lineno s).
Proof.
  revert s; induction fuel as [|fuel IH]; intros s; [apply world_free_raise|].
  cbn [token_loop]. destruct (pop_token (line s)) as [[token|] l]; [|apply world_free_ret].
  destruct (match_ (Some "#") (Some token)); [apply world_free_ret|].
  apply world_free_bind.
  - destruct (op (set_line l s) =? 0); [apply select_verb_world_free|apply world_free_ret].
  - intros [s'|]; [|apply IH].
    apply world_free_bind; [apply operand_world_free|intros; apply IH].
Qed.

End WorldFree.

(** ** The loop over the outbound names *)

Section OutboundFacts.

Context {B : Type} `{Backend B}.

Lemma set_ttl_length idx b ttl name : length (set_ttl idx b ttl name) = length ttl.
Proof. unfold set_ttl. destruct (resolve idx b name); [apply length_insert|reflexivity]. Qed.

(** The loop, run on an array that holds the names [todo] from position
    [length pre] on: it subtracts the names it turns down from [total],
    writes one slot for each name it accepts, and leaves the world alone. *)
Lemma outbound_loop_exact idx w_bad w_same lineno ifname inbound
    (pre rest : list (option string)) (todo : list string) total ttl (w : world B) :
  indices_in_range idx (be w) todo (length ttl) ->
  outbound_loop idx w_bad w_same lineno ifname inbound
    (pre ++ map Some todo ++ rest) (length todo) (Z.of_nat (length pre)) total ttl w
  = Result
      (inl (total - Z.of_nat (length (List.filter (fun n => negb (resolves idx (be w) n)) todo)),
            fold_left (set_ttl idx (be w)) todo ttl))
      w
      (flat_map (outbound_warning idx w_bad w_same lineno ifname inbound (be w)) todo).
Proof.
  revert pre total ttl.
  induction todo as [|name todo IH]; intros pre total ttl Hrange.
  - simpl. unfold ret. f_equal. f_equal. f_equal. lia.
  - cbn [outbound_loop length map].
    rewrite Nat2Z.id.
    change ((Some name :: map Some todo) ++ rest)
      with (Some name :: (map Some todo ++ rest)).
    replace ((pre ++ Some name :: map Some todo ++ rest) !! length pre)
      with (Some (Some name)).
    2:{ symmetry. apply list_lookup_middle. reflexivity. }
    assert (Hnext : pre ++ Some name :: map Some todo ++ rest
                    = (pre ++ [Some name]) ++ map Some todo ++ rest).
    { rewrite <- app_assoc. reflexivity. }
    assert (Hidx : Z.of_nat (length pre) + 1 = Z.of_nat (length (pre ++ [Some name]))).
    { rewrite length_app. simpl. lia. }
    assert (Htail : forall ttl' : list Z, length ttl' = length ttl ->
                    indices_in_range idx (be w) todo (length ttl')).
    { intros ttl' Hl n i Hin Hr. rewrite Hl. apply (Hrange n i); [right; exact Hin|exact Hr]. }
    rewrite bind_get.
    cbn [List.filter flat_map fold_left].
    destruct (resolve idx (be w) name) as [ifc|] eqn:Hr.
    + assert (Hrs : resolves idx (be w) name = true) by (unfold resolves; rewrite Hr; reflexivity).
      assert (Hst : set_ttl idx (be w) ttl name = <[Z.to_nat (idx ifc):=threshold ifc]> ttl)
        by (unfold set_ttl; rewrite Hr; reflexivity).
      assert (Hw : outbound_warning idx w_bad w_same lineno ifname inbound (be w) name
                   = if idx ifc =? inbound
                     then [warn_event lineno w_same [AStr name; AStr ifname]] else [])
        by (unfold outbound_warning; rewrite Hr; reflexivity).
      rewrite Hrs, Hst, Hw. cbn [negb].
      pose proof (Hrange name ifc (or_introl eq_refl) Hr) as Hthis.
      unfold resolve in Hr.
      destruct (iface_find_by_name (be w) name) as [ifc'|]; [|discriminate].
      destruct (idx ifc' =? -1); [discriminate|]. inversion Hr; subst ifc'.
      assert (Hin : (0 <=? idx ifc) && (idx ifc <? Z.of_nat (length ttl)) = true).
      { apply andb_true_intro; split; [apply Z.leb_le|apply Z.ltb_lt]; lia. }
      rewrite Hin, Hnext, Hidx.
      destruct (idx ifc =? inbound); [rewrite bind_WARN|rewrite bind_ret];
        (rewrite IH by (apply Htail; apply length_insert)); reflexivity.
    + assert (Hrs : resolves idx (be w) name = false) by (unfold resolves; rewrite Hr; reflexivity).
      assert (Hst : set_ttl idx (be w) ttl name = ttl)
        by (unfold set_ttl; rewrite Hr; reflexivity).
      assert (Hw : outbound_warning idx w_bad w_same lineno ifname inbound (be w) name
                   = [warn_event lineno w_bad [AStr name]])
        by (unfold outbound_warning; rewrite Hr; reflexivity).
      rewrite Hrs, Hst, Hw. cbn [negb length].
      assert (Hloop := IH (pre ++ [Some name]) (total - 1) ttl (Htail ttl eq_refl)).
      rewrite <- Hnext, <- Hidx in Hloop.
      unfold resolve in Hr.
      destruct (iface_find_by_name (be w) name) as [ifc|].
      * destruct (idx ifc =? -1); [|discriminate].
        rewrite bind_WARN, Hloop. cbn [res post out app]. f_equal. f_equal. f_equal. lia.
      * rewrite bind_WARN, Hloop. cbn [res post out app]. f_equal. f_equal. f_equal. lia.
Qed.

Lemma outbound_loop_any idx w_bad w_same lineno ifname inbound outbound n i total ttl
    (w : world B) :
  outbound_loop_post w_bad w_same lineno w
    (outbound_loop idx w_bad w_same lineno ifname inbound outbound n i total ttl w).
Proof.
  revert i total ttl; induction n as [|n IH]; intros i total ttl.
  - repeat split; simpl; auto. intros; discriminate.
  - cbn [outbound_loop].
    destruct (outbound !! Z.to_nat i) as [[name|]|];
      try (repeat split; simpl; auto; intros f Hf; inversion Hf; eauto).
    rewrite bind_get.
    assert (Hbad : outbound_loop_post w_bad w_same lineno w
              ((seq WARN lineno w_bad [AStr name];
                outbound_loop idx w_bad w_same lineno ifname inbound outbound n
                  (i + 1) (total - 1) ttl) w)).
    { rewrite bind_WARN. destruct (IH (i + 1) (total - 1) ttl) as (Hp & Ho & Hf).
      repeat split; simpl; auto. constructor; eauto. }
    destruct (iface_find_by_name (be w) name) as [ifc|]; [|exact Hbad].
    destruct (idx ifc =? -1); [exact Hbad|].
    assert (Hgo : outbound_loop_post w_bad w_same lineno w
              ((if (0 <=? idx ifc) && (idx ifc <? Z.of_nat (length ttl))
                then outbound_loop idx w_bad w_same lineno ifname inbound outbound n
                       (i + 1) total (<[Z.to_nat (idx ifc):=threshold ifc]> ttl)
                else raise (OOB_ttl (idx ifc))) w)).
    { destruct ((0 <=? idx ifc) && (idx ifc <? Z.of_nat (length ttl))); [apply IH|].
      repeat split; simpl; auto. intros f Hf; inversion Hf; eauto. }
    destruct (idx ifc =? inbound); [rewrite bind_WARN|rewrite bind_ret; exact Hgo].
    destruct Hgo as (Hp & Ho & Hf).
    repeat split; simpl; auto. constructor; eauto.
Qed.

End OutboundFacts.

(** ** What an applier can do *)

Section ApplierFacts.

Context {B : Type} `{Backend B}.
Variable P : platform.

Ltac in_formats := simpl; tauto.

Ltac rejected_with fmt :=
  eapply (outcome_rejected _ _ _ _ []);
  [ constructor
  | eexists fmt, _; split; [in_formats | reflexivity]
  | reflexivity ].

Lemma join_mgroup4_outcome lineno ifname group src (w : world B) :
  applier_outcome P lineno w (join_mgroup4 lineno ifname group src w).
Proof.
  unfold join_mgroup4.
  destruct (Libc.inet_pton4 group) as [grp|]; [destruct (Libc.IN_MULTICAST grp)|].
  - apply (outcome_applied _ _ _ _ [] (mcgroup4_join ifname src grp)); [constructor|exact I|reflexivity].
  - rewrite bind_WARN. rejected_with W_bad_group4.
  - rewrite bind_WARN. rejected_with W_bad_group4.
Qed.

(** The IPv6 join, behind the advisory warnings [adv] already logged. *)
Lemma join_mgroup6_outcome lineno ifname group (adv : list event) (w : world B) :
  ipv6_enabled P = true ->
  Forall (is_advisory lineno) adv ->
  let r := join_mgroup6 P lineno ifname group w in
  applier_outcome P lineno w (Result (res r) (post r) (adv ++ out r)).
Proof.
  intros Hv6 Hadv. unfold join_mgroup6.
  destruct (inet_pton6 P group) as [grp|]; [destruct (IN6_IS_ADDR_MULTICAST grp)|]; cbv zeta.
  - apply (outcome_applied _ _ _ _ adv (mcgroup6_join ifname grp)); [exact Hadv|exact Hv6|reflexivity].
  - rewrite bind_WARN. eapply (outcome_rejected _ _ _ _ adv);
      [exact Hadv|eexists W_bad_group6, _; split; [in_formats|reflexivity]|reflexivity].
  - rewrite bind_WARN. eapply (outcome_rejected _ _ _ _ adv);
      [exact Hadv|eexists W_bad_group6, _; split; [in_formats|reflexivity]|reflexivity].
Qed.

Lemma join_mgroup_outcome lineno ifname source group (w : world B) :
  applier_outcome P lineno w (join_mgroup P lineno ifname source group w).
Proof.
  unfold join_mgroup.
  destruct ifname as [ifname|]; [|apply outcome_incomplete; reflexivity].
  destruct group as [group|]; [|apply outcome_incomplete; reflexivity].
  destruct (Libc.strchr group ":").
  - destruct (ipv6_enabled P) eqn:Hv6; cbn [negb].
    + destruct source as [s|].
      * rewrite bind_WARN.
        apply (join_mgroup6_outcome lineno ifname group [warn_event lineno W_ipv6_ssm []] w Hv6).
        repeat constructor. eexists W_ipv6_ssm, _; split; [in_formats|reflexivity].
      * rewrite bind_ret. rewrite <- (result_eta (_ w)).
        apply (join_mgroup6_outcome lineno ifname group [] w Hv6). constructor.
    + rewrite bind_WARN. apply outcome_ignored; [exact Hv6|reflexivity].
  - destruct source as [s|]; [|apply join_mgroup4_outcome].
    destruct (Libc.inet_pton4 s); [apply join_mgroup4_outcome|].
    rewrite bind_WARN. rejected_with W_bad_source4_mgroup.
Qed.

(** The end of both halves of [add_mroute]: the loop over the outbound
    names, then either the final warning or the call. *)
Lemma route_tail_outcome idx w_bad w_same w_none (route : list Z -> call)
    lineno ifname inbound outbound n total ttl (w : world B) :
  In w_bad advisory_formats -> In w_same advisory_formats -> In w_none reject_formats ->
  (forall t, directive_call P (route t)) ->
  applier_outcome P lineno w
    ((do r <- outbound_loop idx w_bad w_same lineno ifname inbound outbound n 0 total ttl;
      let '(total, ttl) := r in
      if total =? 0 then seq WARN lineno w_none []; ret 1
      else invoke (route ttl)) w).
Proof.
  intros Hbad Hsame Hnone Hroute.
  destruct (outbound_loop_any idx w_bad w_same lineno ifname inbound outbound n 0 total ttl w)
    as (Hpost & Hout & Hflt).
  destruct (outbound_loop idx w_bad w_same lineno ifname inbound outbound n 0 total ttl w)
    as [x w' evs] eqn:E.
  simpl in Hpost, Hout, Hflt. subst w'.
  assert (Hadv : Forall (is_advisory lineno) evs).
  { eapply Forall_impl; [exact Hout|]. intros e [args [-> | ->]]; eexists _, _; eauto. }
  destruct x as [[total' ttl']|f].
  - rewrite (bind_done _ _ _ _ _ _ E).
    destruct (total' =? 0).
    + rewrite bind_WARN. eapply (outcome_rejected _ _ _ _ evs);
        [exact Hadv|eexists w_none, _; split; [exact Hnone|reflexivity]|reflexivity].
    + apply (outcome_applied _ _ _ _ evs (route ttl')); [exact Hadv|apply Hroute|reflexivity].
  - rewrite (bind_fault _ _ _ _ _ _ E).
    apply (outcome_fault _ _ _ _ evs f); [exact Hadv| |reflexivity].
    destruct (Hflt f eq_refl) as [[i ->]|[i ->]]; exact I.
Qed.

Lemma add_mroute4_group_outcome lineno ifname inbound src group len outbound num (w : world B) :
  applier_outcome P lineno w
    (add_mroute4_group lineno ifname inbound src group len outbound num w).
Proof.
  unfold add_mroute4_group.
  destruct (Libc.inet_pton4 group) as [grp|]; [destruct (Libc.IN_MULTICAST grp)|].
  - apply (route_tail_outcome vif W_bad_outbound4 W_same_outbound4 W_no_outbound4
             (fun t => mroute4_add {| m4_inbound := inbound; m4_source := src;
                                      m4_group := grp; m4_len := len; m4_ttl := t |}));
      try in_formats; try (intros; exact I).
  - rewrite bind_WARN. rejected_with W_bad_group4.
  - rewrite bind_WARN. rejected_with W_bad_group4.
Qed.

Lemma add_mroute4_prefix_outcome lineno ifname inbound src group outbound num (w : world B) :
  applier_outcome P lineno w
    (add_mroute4_prefix lineno ifname inbound src group outbound num w).
Proof.
  unfold add_mroute4_prefix.
  destruct (Libc.strchr_split group "/") as [[g ptr]|]; [|apply add_mroute4_group_outcome].
  destruct (negb (src =? Libc.INADDR_ANY)).
  - rewrite bind_WARN. rejected_with W_prefix_ssm.
  - cbv zeta. destruct ((Libc.atoi ptr <? 0) || (32 <? Libc.atoi ptr)).
    + rewrite bind_WARN. rejected_with W_bad_prefix.
    + apply add_mroute4_group_outcome.
Qed.

Lemma add_mroute4_outcome lineno ifname group source outbound num (w : world B) :
  applier_outcome P lineno w (add_mroute4 lineno ifname group source outbound num w).
Proof.
  unfold add_mroute4. rewrite bind_get. cbv zeta.
  destruct (iface_get_vif_by_name (be w) ifname <? 0).
  - rewrite bind_WARN. rejected_with W_bad_inbound4.
  - destruct source as [s|]; [|apply add_mroute4_prefix_outcome].
    destruct (Libc.inet_pton4 s); [apply add_mroute4_prefix_outcome|].
    rewrite bind_WARN. rejected_with W_bad_source4.
Qed.

Lemma add_mroute6_outcome lineno ifname group source outbound num (w : world B) :
  ipv6_enabled P = true ->
  applier_outcome P lineno w (add_mroute6 P lineno ifname group source outbound num w).
Proof.
  intros Hv6. unfold add_mroute6. rewrite bind_get. cbv zeta.
  destruct (iface_get_mif_by_name (be w) ifname <? 0).
  - rewrite bind_WARN. rejected_with W_bad_inbound6.
  - destruct (match source with Some s => inet_pton6 P s | None => None end) as [src|].
    + destruct (inet_pton6 P group) as [grp|]; [destruct (IN6_IS_ADDR_MULTICAST grp)|].
      * apply (route_tail_outcome mif W_bad_outbound6 W_same_outbound6 W_no_outbound6
                 (fun t => mroute6_add {| m6_inbound := iface_get_mif_by_name (be w) ifname;
                                          m6_source := src; m6_group := grp; m6_ttl := t |}));
          try in_formats; try (intros; exact Hv6).
      * rewrite bind_WARN. rejected_with W_bad_group6.
      * rewrite bind_WARN. rejected_with W_bad_group6.
    + rewrite bind_WARN. rejected_with W_bad_source6.
Qed.

Lemma add_mroute_outcome lineno ifname group source outbound num (w : world B) :
  applier_outcome P lineno w (add_mroute P lineno ifname group source outbound num w).
Proof.
  unfold add_mroute.
  destruct ifname as [ifname|]; [|apply outcome_incomplete; reflexivity].
  destruct group as [group|]; [|apply outcome_incomplete; reflexivity].
  destruct (num =? 0); [apply outcome_incomplete; reflexivity|].
  destruct (Libc.strchr group ":"); [|apply add_mroute4_outcome].
  destruct (ipv6_enabled P) eqn:Hv6; cbn [negb].
  - apply add_mroute6_outcome; exact Hv6.
  - rewrite bind_WARN. apply outcome_ignored; [exact Hv6|reflexivity].
Qed.

End ApplierFacts.

(** ** Telling the events apart *)

Lemma advisory_not_reject lineno e : is_advisory lineno e -> is_reject e = false.
Proof.
  intros (fmt & args & Hin & ->). simpl in Hin.
  repeat (destruct Hin as [<- | Hin]; [reflexivity|]). destruct Hin.
Qed.

Lemma advisory_not_call lineno e : is_advisory lineno e -> is_call e = false.
Proof. intros (fmt & args & _ & ->). reflexivity. Qed.

Lemma advisory_not_prefix_ssm lineno e : is_advisory lineno e -> is_warn W_prefix_ssm e = false.
Proof.
  intros (fmt & args & Hin & ->). simpl in Hin.
  repeat (destruct Hin as [<- | Hin]; [reflexivity|]). destruct Hin.
Qed.

Lemma rejection_is_reject lineno e : is_rejection lineno e -> is_reject e = true.
Proof.
  intros (fmt & args & Hin & ->). simpl in Hin.
  repeat (destruct Hin as [<- | Hin]; [reflexivity|]). destruct Hin.
Qed.

Lemma rejection_not_call lineno e : is_rejection lineno e -> is_call e = false.
Proof. intros (fmt & args & _ & ->). reflexivity. Qed.

Lemma unknown_not_reject lineno e : is_unknown_warning lineno e -> is_reject e = false.
Proof. intros (tok & ->). reflexivity. Qed.

Lemma unknown_not_call lineno e : is_unknown_warning lineno e -> is_call e = false.
Proof. intros (tok & ->). reflexivity. Qed.

Lemma existsb_all_false {A} (f : A -> bool) (l : list A) (Q : A -> Prop) :
  (forall x, Q x -> f x = false) -> Forall Q l -> existsb f l = false.
Proof.
  intros Hq Hall. induction Hall as [|x l Hx _ IH]; simpl; [reflexivity|].
  rewrite (Hq x Hx), IH. reflexivity.
Qed.

(** ** What one line can do *)

Section LineFacts.

Context {B : Type} `{Backend B}.
Variable P : platform.

Lemma discard_result {A} (m : M B A) (w : world B) :
  (seq m; ret tt) w =
  Result (match res (m w) with inl _ => inl tt | inr f => inr f end) (post (m w)) (out (m w)).
Proof.
  unfold bind, ret. destruct (res (m w)); cbn [res post out]; [|reflexivity].
  rewrite app_nil_r. reflexivity.
Qed.

Lemma apply_directive_outcome lineno (s : locals) (w : world B) :
  directive_outcome P lineno w (apply_directive P lineno s w).
Proof.
  unfold apply_directive.
  destruct (op s =? 1).
  { rewrite discard_result. eapply directive_applier; [apply join_mgroup_outcome|reflexivity]. }
  destruct (op s =? 2).
  { rewrite discard_result. eapply directive_applier; [apply add_mroute_outcome|reflexivity]. }
  destruct (op s =? 3); [|apply directive_none; reflexivity].
  destruct (negb (enable s =? 0)); rewrite discard_result;
    eapply directive_vif; try reflexivity; exact I.
Qed.

Lemma conf_line_outcome do_vifs lineno linebuf (w : world B) :
  line_outcome P lineno w (conf_line P do_vifs lineno linebuf w).
Proof.
  unfold conf_line. cbv zeta.
  destruct (token_loop_facts (fuel_of (line (init_locals do_vifs linebuf))) lineno
              (init_locals do_vifs linebuf) w) as (Hpost & Hout & Hflt).
  destruct (token_loop _ lineno (init_locals do_vifs linebuf) w) as [x w' evs] eqn:E.
  simpl in Hpost, Hout, Hflt. subst w'.
  destruct x as [s|f].
  - rewrite (bind_done _ _ _ _ _ _ E).
    eapply line_applied; [exact Hout|apply apply_directive_outcome|reflexivity].
  - rewrite (bind_fault _ _ _ _ _ _ E).
    eapply line_fault; [exact Hout| |reflexivity].
    destruct (Hflt f eq_refl) as [[_ Hno]|(i & v & ->)]; [exfalso; apply Hno; lia|exact I].
Qed.

End LineFacts.

(** ** A rejected operand and the backend *)

Section Rejection.

Context {B : Type} `{Backend B}.
Variable P : platform.

Lemma no_reject_in_advisory lineno adv :
  Forall (is_advisory lineno) adv -> existsb is_reject adv = false.
Proof. apply existsb_all_false, advisory_not_reject. Qed.

Lemma no_call_in_advisory lineno adv :
  Forall (is_advisory lineno) adv -> existsb is_call adv = false.
Proof. apply existsb_all_false, advisory_not_call. Qed.

Lemma no_reject_in_unknown lineno evs :
  Forall (is_unknown_warning lineno) evs -> existsb is_reject evs = false.
Proof. apply existsb_all_false, unknown_not_reject. Qed.

Lemma no_call_in_unknown lineno evs :
  Forall (is_unknown_warning lineno) evs -> existsb is_call evs = false.
Proof. apply existsb_all_false, unknown_not_call. Qed.

(** An applier that has logged a rejection has made no call and has left
    the backend as it was. *)
Lemma applier_rejection lineno (w : world B) (r : result B Z) :
  applier_outcome P lineno w r ->
  existsb is_reject (out r) = true ->
  existsb is_call (out r) = false /\ be (post r) = be w /\ res r = inl 1.
Proof.
  intros [-> | Hv6 -> | adv e Hadv Hrej -> | adv c Hadv Hc -> | adv f Hadv Hf ->];
    cbn [out post res be]; intros Hr.
  - discriminate.
  - discriminate.
  - rewrite existsb_app, (no_call_in_advisory _ _ Hadv). simpl.
    rewrite (rejection_not_call _ _ Hrej). auto.
  - rewrite existsb_app, (no_reject_in_advisory _ _ Hadv) in Hr. discriminate.
  - rewrite (no_reject_in_advisory _ _ Hadv) in Hr. discriminate.
Qed.

(** C2. Whatever the line, once a [WARN] that rejects an operand has been
    issued for it (invalid address literal, group that is not multicast,
    invalid prefix length, unresolved inbound interface, no valid outbound
    interface, source combined with a prefix), the events of the line hold
    no backend call and the backend state is the one the line started
    with. *)
Theorem rejected_operand_no_backend_mutation
    (do_vifs lineno : Z) (linebuf : string) (w : world B) :
  existsb is_reject (out (conf_line P do_vifs lineno linebuf w)) = true ->
  existsb is_call (out (conf_line P do_vifs lineno linebuf w)) = false /\
  be (post (conf_line P do_vifs lineno linebuf w)) = be w.
Proof.
  destruct (conf_line_outcome P do_vifs lineno linebuf w)
    as [unknown rd Hun Hd -> | unknown f Hun Hf ->]; cbn [out post].
  - rewrite !existsb_app, (no_reject_in_unknown _ _ Hun), (no_call_in_unknown _ _ Hun).
    cbn [orb]. intros Hr.
    destruct Hd as [-> | c Hc -> | ra Ha ->]; cbn [out post] in *; try discriminate.
    destruct (applier_rejection lineno w ra Ha Hr) as (Hcall & Hbe & _). auto.
  - rewrite (no_reject_in_unknown _ _ Hun). discriminate.
Qed.

End Rejection.

(** The scenario of the specification: the group of
    [mgroup from eth0 group 10.0.0.1] is not a multicast address; the line
    draws one warning and nothing else, on every backend. *)
Lemma mgroup_unicast_group_rejected {B : Type} `{Backend B} (P : platform)
    (do_vifs lineno : Z) (w : world B) :
  conf_line P do_vifs lineno (Demo.ln "mgroup from eth0 group 10.0.0.1") w =
  Result (inl tt) w [warn_event lineno W_bad_group4 [AStr "10.0.0.1"]].
Proof. reflexivity. Qed.

Lemma rejected_operand_no_backend_mutation_witness :
  existsb is_reject
    (out (conf_line Demo.no_ipv6 0 1 (Demo.ln "mgroup from eth0 group 10.0.0.1") Demo.w0)) = true /\
  existsb is_call
    (out (conf_line Demo.no_ipv6 0 1 (Demo.ln "mgroup from eth0 group 10.0.0.1") Demo.w0)) = false /\
  be (post (conf_line Demo.no_ipv6 0 1 (Demo.ln "mgroup from eth0 group 10.0.0.1") Demo.w0))
    = be Demo.w0.
Proof.
  split; [reflexivity|].
  apply (rejected_operand_no_backend_mutation Demo.no_ipv6 0 1
           (Demo.ln "mgroup from eth0 group 10.0.0.1") Demo.w0).
  reflexivity.
Defined.

(** ** The outbound interfaces of a multicast route *)

Section Outbound.

Context {B : Type} `{Backend B}.
Variable P : platform.

Lemma resolved_unresolved_length idx (b : B) names :
  (length (resolved idx b names) + length (unresolved idx b names) = length names)%nat.
Proof.
  unfold resolved, unresolved. induction names as [|n names IH]; simpl; [reflexivity|].
  destruct (resolves idx b n); simpl; lia.
Qed.

Lemma fold_set_ttl_length idx (b : B) names ttl :
  length (fold_left (set_ttl idx b) names ttl) = length ttl.
Proof.
  revert ttl; induction names as [|n names IH]; intros ttl; simpl; [reflexivity|].
  rewrite IH. apply set_ttl_length.
Qed.

Lemma fold_set_ttl_slot idx (b : B) names (ttl0 : list Z) (v : Z) :
  0 <= v -> (Z.to_nat v < length ttl0)%nat ->
  indices_in_range idx b names (length ttl0) ->
  (exists name ifc, In name names /\ resolve idx b name = Some ifc /\ idx ifc = v /\
     fold_left (set_ttl idx b) names ttl0 !! Z.to_nat v = Some (threshold ifc)) \/
  ((forall name ifc, In name names -> resolve idx b name = Some ifc -> idx ifc <> v) /\
   fold_left (set_ttl idx b) names ttl0 !! Z.to_nat v = ttl0 !! Z.to_nat v).
Proof.
  intros Hv. revert ttl0. induction names as [|n names IH]; intros ttl0 Hlt Hrange.
  - right. split; [intros ? ? []|reflexivity].
  - cbn [fold_left].
    assert (Hlen : length (set_ttl idx b ttl0 n) = length ttl0) by apply set_ttl_length.
    destruct (IH (set_ttl idx b ttl0 n)) as [(name & ifc & Hin & Hr & Hi & Hl)|[Hnone Hl]].
    + rewrite Hlen; exact Hlt.
    + rewrite Hlen. intros name ifc Hin. apply Hrange. right; exact Hin.
    + left. exists name, ifc. repeat split; auto. right; exact Hin.
    + assert (Hs : set_ttl idx b ttl0 n =
                   match resolve idx b n with
                   | Some ifc => <[Z.to_nat (idx ifc):=threshold ifc]> ttl0
                   | None => ttl0
                   end) by reflexivity.
      rewrite Hs in Hl |- *. clear Hs.
      destruct (resolve idx b n) as [ifc|] eqn:Hr.
      * destruct (Z.eq_dec (idx ifc) v) as [Heq|Hne].
        -- left. exists n, ifc. repeat split; auto; [left; reflexivity|].
           rewrite Hl, Heq. apply list_lookup_insert_eq. exact Hlt.
        -- right. split.
           ++ intros name ifc' [<-|Hin] Hr'; [congruence|eapply Hnone; eauto].
           ++ rewrite Hl. apply list_lookup_insert_ne.
              pose proof (Hrange n ifc (or_introl eq_refl) Hr). lia.
      * right. split; [|exact Hl].
        intros name ifc' [<-|Hin] Hr'; [congruence|eapply Hnone; eauto].
Qed.

(** The warnings of the loop, sorted out by format. *)
Lemma outbound_warnings_bad idx w_bad w_same lineno ifname inbound (b : B) names :
  String.eqb (String.append "%02d: " w_same) (String.append "%02d: " w_bad) = false ->
  List.filter (is_warn w_bad)
    (flat_map (outbound_warning idx w_bad w_same lineno ifname inbound b) names)
  = map (fun n => warn_event lineno w_bad [AStr n]) (unresolved idx b names).
Proof.
  intros Hne. unfold unresolved. induction names as [|n names IH]; [reflexivity|].
  cbn [flat_map List.filter]. rewrite List.filter_app, IH.
  unfold outbound_warning, resolves.
  destruct (resolve idx b n) as [ifc|]; cbn [negb].
  - destruct (idx ifc =? inbound); [|reflexivity].
    cbn [List.filter is_warn warn_event]. rewrite Hne. reflexivity.
  - cbn [List.filter is_warn warn_event map app]. rewrite String.eqb_refl. reflexivity.
Qed.

Lemma outbound_warnings_no_call idx w_bad w_same lineno ifname inbound (b : B) names :
  List.filter is_call
    (flat_map (outbound_warning idx w_bad w_same lineno ifname inbound b) names) = [].
Proof.
  induction names as [|n names IH]; [reflexivity|].
  cbn [flat_map]. rewrite List.filter_app, IH. unfold outbound_warning.
  destruct (resolve idx b n) as [ifc|]; [destruct (idx ifc =? inbound)|]; reflexivity.
Qed.

(** The end of [add_mroute] on an array that starts with [names]. *)
Lemma route_tail_applied idx w_bad w_same w_none route size lineno ifname inbound
    (names : list string) (rest : list (option string)) (w : world B) :
  0 <= size ->
  String.eqb (String.append "%02d: " w_same) (String.append "%02d: " w_bad) = false ->
  String.eqb (String.append "%02d: " w_none) (String.append "%02d: " w_bad) = false ->
  indices_in_range idx (be w) names (Z.to_nat size) ->
  outbound_applied idx w_bad w_none route size lineno w names
    ((do r <- outbound_loop idx w_bad w_same lineno ifname inbound
                (map Some names ++ rest) (Z.to_nat (Z.of_nat (length names))) 0
                (Z.of_nat (length names)) (replicate (Z.to_nat size) 0);
      let '(total, ttl) := r in
      if total =? 0 then seq WARN lineno w_none []; ret 1
      else invoke (route ttl)) w).
Proof.
  intros Hsize Hsame Hnone Hrange.
  assert (Hrange' : indices_in_range idx (be w) names (length (replicate (Z.to_nat size) 0))).
  { rewrite length_replicate. exact Hrange. }
  pose proof (outbound_loop_exact idx w_bad w_same lineno ifname inbound [] rest names
                (Z.of_nat (length names)) (replicate (Z.to_nat size) 0) w Hrange') as Hloop.
  cbn [app length] in Hloop. change (Z.of_nat 0) with 0 in Hloop.
  rewrite Nat2Z.id. rewrite (bind_done _ _ _ _ _ _ Hloop).
  pose proof (resolved_unresolved_length idx (be w) names) as Hlen.
  fold (unresolved idx (be w) names).
  unfold outbound_applied.
  destruct (resolved idx (be w) names) as [|n0 rs] eqn:Hres.
  - replace (Z.of_nat (length names) - Z.of_nat (length (unresolved idx (be w) names)) =? 0)
      with true by (symmetry; apply Z.eqb_eq; simpl in Hlen; lia).
    rewrite bind_WARN. cbn [res post out].
    rewrite List.filter_app, outbound_warnings_bad by exact Hsame.
    rewrite List.filter_app, outbound_warnings_no_call.
    cbn [List.filter is_warn warn_event is_call]. rewrite Hnone, app_nil_r.
    repeat split. apply last_snoc.
  - replace (Z.of_nat (length names) - Z.of_nat (length (unresolved idx (be w) names)) =? 0)
      with false by (symmetry; apply Z.eqb_neq; simpl in Hlen; lia).
    rewrite invoke_run. cbn [res post out].
    rewrite List.filter_app, outbound_warnings_bad by exact Hsame.
    rewrite List.filter_app, outbound_warnings_no_call.
    cbn [List.filter is_warn is_call]. rewrite app_nil_r. split; [reflexivity|].
    exists (fold_left (set_ttl idx (be w)) names (replicate (Z.to_nat size) 0)).
    repeat split.
    + rewrite fold_set_ttl_length, length_replicate. lia.
    + intros v Hv.
      destruct (fold_set_ttl_slot idx (be w) names (replicate (Z.to_nat size) 0) v)
        as [Hset|[Hnot Hl]]; try (rewrite ?length_replicate; lia || exact Hrange).
      * left; exact Hset.
      * right. split; [exact Hnot|]. rewrite Hl. apply lookup_replicate_2. lia.
Qed.

(** C1. An [mroute] directive whose operands parse and whose inbound
    interface resolves, with the outbound names [names] (at least one):
    [add_mroute] issues one [WARN("Invalid outbound ... interface: %s",
    name)] for each name that does not resolve, in order; a warning is the
    call of [smclog] at LOG_WARNING that the macro makes, which carries the
    text, the line number and the name.  If no name resolves it issues the
    final warning, returns 1 and makes no call.  Otherwise it makes exactly one
    call, [mroute4_add] (or [mroute6_add]), on a route whose TTL vector
    holds, in the slot of each accepted interface, the threshold of such an
    interface, and 0 in every other slot.  The indices of the accepted
    interfaces are taken to lie inside the vector. *)
Theorem mroute_outbound_resolution (lineno : Z) (ifname group : string)
    (source : option string) (names : list string) (rest : list (option string))
    (w : world B) :
  names <> [] ->
  (forall inbound src grp len,
     operands_parse4 (be w) ifname group source inbound src grp len ->
     indices_in_range vif (be w) names (Z.to_nat MAXVIFS) ->
     outbound_applied vif W_bad_outbound4 W_no_outbound4
       (fun ttl => mroute4_add {| m4_inbound := inbound; m4_source := src;
                                  m4_group := grp; m4_len := len; m4_ttl := ttl |})
       MAXVIFS lineno w names
       (add_mroute P lineno (Some ifname) (Some group) source
          (map Some names ++ rest) (Z.of_nat (length names)) w)) /\
  (forall inbound src grp,
     operands_parse6 P (be w) ifname group source inbound src grp ->
     indices_in_range mif (be w) names (Z.to_nat MAXMIFS) ->
     outbound_applied mif W_bad_outbound6 W_no_outbound6
       (fun ttl => mroute6_add {| m6_inbound := inbound; m6_source := src;
                                  m6_group := grp; m6_ttl := ttl |})
       MAXMIFS lineno w names
       (add_mroute P lineno (Some ifname) (Some group) source
          (map Some names ++ rest) (Z.of_nat (length names)) w)).
Proof.
  intros Hne.
  assert (Hnum : (Z.of_nat (length names) =? 0) = false).
  { apply Z.eqb_neq. destruct names; [congruence|simpl; lia]. }
  split.
  - intros inbound src grp len (Hfam & Hin & Hge & Hsrc & Hgrp & Hmc) Hrange.
    unfold add_mroute. rewrite Hnum, Hfam.
    unfold add_mroute4. rewrite bind_get. cbv zeta. rewrite Hin.
    replace (inbound <? 0) with false by (symmetry; apply Z.ltb_ge; lia).
    assert (Hprefix :
      add_mroute4_prefix lineno ifname inbound src group (map Some names ++ rest)
        (Z.of_nat (length names)) w
      = (do r <- outbound_loop vif W_bad_outbound4 W_same_outbound4 lineno ifname inbound
                   (map Some names ++ rest) (Z.to_nat (Z.of_nat (length names))) 0
                   (Z.of_nat (length names)) (replicate (Z.to_nat MAXVIFS) 0);
         let '(total, ttl) := r in
         if total =? 0 then seq WARN lineno W_no_outbound4 []; ret 1
         else invoke (mroute4_add {| m4_inbound := inbound; m4_source := src;
                                     m4_group := grp; m4_len := len; m4_ttl := ttl |})) w).
    { unfold add_mroute4_prefix.
      destruct (Libc.strchr_split group "/") as [[g ptr]|].
      - destruct Hgrp as (-> & -> & Hlen & Hg). cbn [negb Z.eqb Libc.INADDR_ANY].
        cbv zeta.
        replace ((Libc.atoi ptr <? 0) || (32 <? Libc.atoi ptr)) with false.
        2:{ symmetry. apply orb_false_intro; apply Z.ltb_ge; lia. }
        unfold add_mroute4_group. rewrite Hg, Hmc. reflexivity.
      - destruct Hgrp as (-> & Hg). unfold add_mroute4_group. rewrite Hg, Hmc. reflexivity. }
    assert (Htail := route_tail_applied vif W_bad_outbound4 W_same_outbound4 W_no_outbound4
              (fun ttl => mroute4_add {| m4_inbound := inbound; m4_source := src;
                                         m4_group := grp; m4_len := len; m4_ttl := ttl |})
              MAXVIFS lineno ifname inbound names rest w
              ltac:(unfold MAXVIFS; lia) eq_refl eq_refl Hrange).
    destruct source as [s|].
    + rewrite Hsrc, Hprefix. exact Htail.
    + subst src. rewrite Hprefix. exact Htail.
  - intros inbound src grp (Hv6 & Hfam & Hin & Hge & (s & -> & Hsrc) & Hgrp & Hmc) Hrange.
    unfold add_mroute. rewrite Hnum, Hfam, Hv6. cbn [negb].
    unfold add_mroute6. rewrite bind_get. cbv zeta. rewrite Hin.
    replace (inbound <? 0) with false by (symmetry; apply Z.ltb_ge; lia).
    rewrite Hsrc, Hgrp, Hmc.
    exact (route_tail_applied mif W_bad_outbound6 W_same_outbound6 W_no_outbound6
             (fun ttl => mroute6_add {| m6_inbound := inbound; m6_source := src;
                                        m6_group := grp; m6_ttl := ttl |})
             MAXMIFS lineno ifname inbound names rest w
             ltac:(unfold MAXMIFS; lia) eq_refl eq_refl Hrange).
Qed.

End Outbound.

Lemma demo_indices_in_range (idx : iface -> Z) (names : list string) :
  forallb (fun n => match resolve idx Demo.eth n with
                    | Some ifc => (0 <=? idx ifc) && (idx ifc <? 32)
                    | None => true
                    end) names = true ->
  indices_in_range idx Demo.eth names 32.
Proof.
  intros Hall name ifc Hin Hr.
  rewrite forallb_forall in Hall. specialize (Hall name Hin). rewrite Hr in Hall.
  apply andb_prop in Hall. destruct Hall as [H1 H2].
  apply Z.leb_le in H1. apply Z.ltb_lt in H2. lia.
Qed.

(** The route of [mroute from eth0 source 10.0.0.1 group 239.1.1.1 to eth1
    nope eth2], and an IPv6 route with the same outbound names. *)
Lemma mroute_outbound_resolution_witness :
  outbound_applied vif W_bad_outbound4 W_no_outbound4
    (fun ttl => mroute4_add {| m4_inbound := 0; m4_source := 0x0a000001;
                               m4_group := 0xef010101; m4_len := 0; m4_ttl := ttl |})
    MAXVIFS 1 Demo.w0 ["eth1"; "nope"; "eth2"]
    (add_mroute Demo.with_ipv6 1 (Some "eth0") (Some "239.1.1.1") (Some "10.0.0.1")
       (map Some ["eth1"; "nope"; "eth2"] ++ replicate 29 None) 3 Demo.w0) /\
  outbound_applied mif W_bad_outbound6 W_no_outbound6
    (fun ttl => mroute6_add {| m6_inbound := 0;
                               m6_source := [0x20; 1; 0xd; 0xb8; 0; 0; 0; 0; 0; 0; 0; 0; 0; 0; 0; 1];
                               m6_group := [0xff; 2; 0; 0; 0; 0; 0; 0; 0; 0; 0; 0; 0; 0; 0; 1];
                               m6_ttl := ttl |})
    MAXMIFS 1 Demo.w0 ["eth1"; "nope"; "eth2"]
    (add_mroute Demo.with_ipv6 1 (Some "eth0") (Some "ff02::1") (Some "2001:db8::1")
       (map Some ["eth1"; "nope"; "eth2"] ++ replicate 29 None) 3 Demo.w0).
Proof.
  assert (Hne : ["eth1"; "nope"; "eth2"] <> @nil string) by discriminate.
  split.
  - apply (proj1 (mroute_outbound_resolution Demo.with_ipv6 1 "eth0" "239.1.1.1"
                    (Some "10.0.0.1") ["eth1"; "nope"; "eth2"] (replicate 29 None)
                    Demo.w0 Hne) 0 0x0a000001 0xef010101 0).
    + unfold operands_parse4. simpl. repeat split; reflexivity || lia.
    + apply demo_indices_in_range. reflexivity.
  - apply (proj2 (mroute_outbound_resolution Demo.with_ipv6 1 "eth0" "ff02::1"
                    (Some "2001:db8::1") ["eth1"; "nope"; "eth2"] (replicate 29 None)
                    Demo.w0 Hne) 0).
    + unfold operands_parse6. simpl. repeat split; try reflexivity; try lia.
      exists "2001:db8::1". split; reflexivity.
    + apply demo_indices_in_range. reflexivity.
Defined.

(** ** The range test on [ttl-threshold] *)

Lemma ttl_range_test_always_true (n : Z) : (1 <=? n) || (n <=? 255) = true.
Proof.
  destruct (1 <=? n) eqn:H1; [reflexivity|].
  apply Z.leb_gt in H1. simpl. apply Z.leb_le. lia.
Qed.

(** C3, the code at the failing inputs.  The test [num >= 1 || num <= 255]
    holds of every integer, so the operand of [ttl-threshold] always
    replaces the default: thresholds 0, 300 and -5 all reach
    [mroute_add_vif], where the claim keeps the default 1. *)
Theorem ttl_threshold_out_of_range_is_applied {B : Type} `{Backend B} (P : platform)
    (lineno : Z) (w : world B) :
  out (conf_line P 1 lineno (Demo.ln "phyint eth0 enable ttl-threshold 0") w)
    = [Call (mroute_add_vif (Some "eth0") 0)] /\
  out (conf_line P 1 lineno (Demo.ln "phyint eth0 enable ttl-threshold 300") w)
    = [Call (mroute_add_vif (Some "eth0") 300)] /\
  out (conf_line P 1 lineno (Demo.ln "phyint eth0 enable ttl-threshold -5") w)
    = [Call (mroute_add_vif (Some "eth0") (-5))] /\
  out (conf_line P 1 lineno (Demo.ln "phyint eth0 enable") w)
    = [Call (mroute_add_vif (Some "eth0") DEFAULT_THRESHOLD)].
Proof. repeat split. Qed.

(** ** The array of outbound names *)

(** C5, the code at the failing input.  The loop of [to] has no bound: with
    33 names after [to] it stores the 33rd at [dest[32]], one past the end of
    the array; with 32 names the terminating NULL is stored there too.  The
    line is shorter than the line buffer. *)
Theorem to_stores_past_the_end_of_dest {B : Type} `{Backend B} (P : platform)
    (do_vifs lineno : Z) (w : world B) :
  res (conf_line P do_vifs lineno
         (Demo.ln (String.append "mroute from eth0 group 225.1.2.3 to " names33)) w)
    = inr (OOB_dest 32 (Some "n33")) /\
  res (conf_line P do_vifs lineno
         (Demo.ln (String.append "mroute from eth0 group 225.1.2.3 to " names32)) w)
    = inr (OOB_dest 32 None) /\
  (String.length (Demo.ln (String.append "mroute from eth0 group 225.1.2.3 to " names33))
     < MAX_LINE_LEN)%nat.
Proof. repeat split. vm_compute. lia. Qed.

(** ** A group prefix together with a source *)

Lemma strchr_split_some (s : string) (c : ascii) :
  Libc.strchr s c = true -> exists l r, Libc.strchr_split s c = Some (l, r).
Proof.
  induction s as [|a s IH]; simpl; [discriminate|].
  destruct (Ascii.eqb a c); [eauto|].
  intros Hs. destruct (IH Hs) as (l & r & ->). eauto.
Qed.

Section PrefixAndSource.

Context {B : Type} `{Backend B}.
Variable P : platform.

Lemma loop_warnings_not_prefix_ssm lineno w_bad w_same evs :
  In w_bad advisory_formats -> In w_same advisory_formats ->
  Forall (fun e => exists args, e = warn_event lineno w_bad args \/
                                e = warn_event lineno w_same args) evs ->
  existsb (is_warn W_prefix_ssm) evs = false.
Proof.
  intros Hb Hs Hall.
  apply (existsb_all_false _ _ (is_advisory lineno)); [apply advisory_not_prefix_ssm|].
  eapply Forall_impl; [exact Hall|]. intros e [args [-> | ->]]; eexists _, _; eauto.
Qed.

Lemma add_mroute4_group_no_prefix_ssm lineno ifname inbound src group len outbound num
    (w : world B) :
  existsb (is_warn W_prefix_ssm)
    (out (add_mroute4_group lineno ifname inbound src group len outbound num w)) = false.
Proof.
  unfold add_mroute4_group.
  destruct (Libc.inet_pton4 group) as [grp|]; [destruct (Libc.IN_MULTICAST grp)|];
    try reflexivity.
  destruct (outbound_loop_any vif W_bad_outbound4 W_same_outbound4 lineno ifname inbound
              outbound (Z.to_nat num) 0 num (replicate (Z.to_nat MAXVIFS) 0) w)
    as (Hpost & Hout & _).
  destruct (outbound_loop vif W_bad_outbound4 W_same_outbound4 lineno ifname inbound
              outbound (Z.to_nat num) 0 num (replicate (Z.to_nat MAXVIFS) 0) w)
    as [x w' evs] eqn:E.
  simpl in Hpost, Hout. subst w'.
  assert (Hevs : existsb (is_warn W_prefix_ssm) evs = false).
  { eapply loop_warnings_not_prefix_ssm; [| |exact Hout]; simpl; tauto. }
  destruct x as [[total ttl]|f].
  - rewrite (bind_done _ _ _ _ _ _ E). cbn [out].
    rewrite existsb_app, Hevs. destruct (total =? 0); reflexivity.
  - rewrite (bind_fault _ _ _ _ _ _ E). exact Hevs.
Qed.

(** C6. An IPv4 [mroute] with its operands present, with a slash in the
    group and with a source that parses to an address other than
    INADDR_ANY: [add_mroute] returns 1, leaves the world as it is and issues
    exactly one [WARN] and no call; the warning is the one about GROUP/LEN
    and source specific multicast, unless the inbound interface does not
    resolve, which is reported first.  With no source, or with a source
    that parses to INADDR_ANY, that warning is never issued. *)
Theorem prefix_with_source_rejected (lineno : Z) (ifname group s : string) (a : Z)
    (outbound : list (option string)) (num : Z) (w : world B) :
  num <> 0 ->
  Libc.strchr group ":" = false ->
  Libc.strchr group "/" = true ->
  Libc.inet_pton4 s = Some a ->
  a <> Libc.INADDR_ANY ->
  add_mroute P lineno (Some ifname) (Some group) (Some s) outbound num w
    = Result (inl 1) w
        [if iface_get_vif_by_name (be w) ifname <? 0
         then warn_event lineno W_bad_inbound4 [AStr ifname]
         else warn_event lineno W_prefix_ssm []] /\
  forall source,
    match source with
    | Some s0 => Libc.inet_pton4 s0 = Some Libc.INADDR_ANY
    | None => True
    end ->
    existsb (is_warn W_prefix_ssm)
      (out (add_mroute P lineno (Some ifname) (Some group) source outbound num w)) = false.
Proof.
  intros Hnum Hfam Hslash Hs Ha.
  apply Z.eqb_neq in Hnum.
  destruct (strchr_split_some _ _ Hslash) as (g & ptr & Hcut).
  split.
  - unfold add_mroute. rewrite Hnum, Hfam.
    unfold add_mroute4. rewrite bind_get. cbv zeta.
    destruct (iface_get_vif_by_name (be w) ifname <? 0); [reflexivity|].
    rewrite Hs. unfold add_mroute4_prefix. rewrite Hcut.
    replace (a =? Libc.INADDR_ANY) with false by (symmetry; apply Z.eqb_neq; exact Ha).
    reflexivity.
  - intros source Hsrc.
    unfold add_mroute. rewrite Hnum, Hfam.
    unfold add_mroute4. rewrite bind_get. cbv zeta.
    destruct (iface_get_vif_by_name (be w) ifname <? 0); [reflexivity|].
    assert (Hany : existsb (is_warn W_prefix_ssm)
              (out (add_mroute4_prefix lineno ifname (iface_get_vif_by_name (be w) ifname)
                      Libc.INADDR_ANY group outbound num w)) = false).
    { unfold add_mroute4_prefix. rewrite Hcut. cbn [negb Z.eqb Libc.INADDR_ANY]. cbv zeta.
      destruct ((Libc.atoi ptr <? 0) || (32 <? Libc.atoi ptr)); [reflexivity|].
      apply add_mroute4_group_no_prefix_ssm. }
    destruct source as [s0|]; [rewrite Hsrc|]; exact Hany.
Qed.

End PrefixAndSource.

(** The second line of scenario S6, and the same line without its source. *)
Lemma prefix_with_source_rejected_witness :
  add_mroute Demo.no_ipv6 6 (Some "eth0") (Some "239.1.0.0/16") (Some "10.0.0.1")
    (Some "eth1" :: replicate 31 None) 1 Demo.w0
    = Result (inl 1) Demo.w0 [warn_event 6 W_prefix_ssm []] /\
  existsb (is_warn W_prefix_ssm)
    (out (add_mroute Demo.no_ipv6 6 (Some "eth0") (Some "239.1.0.0/16") None
            (Some "eth1" :: replicate 31 None) 1 Demo.w0)) = false.
Proof.
  assert (Hnum : 1 <> 0) by lia.
  assert (Ha : 0x0a000001 <> Libc.INADDR_ANY) by (unfold Libc.INADDR_ANY; lia).
  pose proof (prefix_with_source_rejected Demo.no_ipv6 6 "eth0" "239.1.0.0/16" "10.0.0.1"
                0x0a000001 (Some "eth1" :: replicate 31 None) 1 Demo.w0
                Hnum eq_refl eq_refl eq_refl Ha) as [Hrej Hnot].
  split; [exact Hrej|exact (Hnot None I)].
Defined.

(** ** The whole pass *)

Lemma fgets_read_length (room : nat) (s l r : string) :
  fgets_read room s = (l, r) ->
  (String.length l + String.length r = String.length s)%nat /\
  (0 < room -> s <> EmptyString -> 0 < String.length l)%nat.
Proof.
  revert s l r; induction room as [|room IH]; intros s l r.
  - simpl. intros Heq; inversion Heq; subst. simpl. split; [reflexivity|lia].
  - destruct s as [|c s]; simpl.
    + intros Heq; inversion Heq; subst. simpl. split; [reflexivity|congruence].
    + destruct (Ascii.eqb c "010").
      * intros Heq; inversion Heq; subst. simpl. split; [reflexivity|lia].
      * destruct (fgets_read room s) as [l' r'] eqn:E. intros Heq; inversion Heq; subst.
        destruct (IH _ _ _ E) as [Hlen _]. simpl. split; lia.
Qed.

Lemma fgets_consumes (fp linebuf fp' : string) :
  fgets MAX_LINE_LEN fp = Some (linebuf, fp') -> (String.length fp' < String.length fp)%nat.
Proof.
  unfold fgets. destruct fp as [|c s]; [discriminate|].
  intros Heq.
  assert (Hr : fgets_read (MAX_LINE_LEN - 1) (String c s) = (linebuf, fp')) by congruence.
  clear Heq. apply fgets_read_length in Hr.
  destruct Hr as [Hlen Hpos].
  assert (0 < String.length linebuf)%nat
    by (apply Hpos; [unfold MAX_LINE_LEN; lia|discriminate]).
  lia.
Qed.

Section PassFacts.

Context {B : Type} `{Backend B}.
Variable P : platform.

Lemma unknown_pass_event lineno e : is_unknown_warning lineno e -> pass_event P e.
Proof. intros (tok & ->). split; reflexivity. Qed.

Lemma advisory_pass_event lineno e : is_advisory lineno e -> pass_event P e.
Proof. intros (fmt & args & _ & ->). split; reflexivity. Qed.

Lemma applier_pass_events lineno (w : world B) (r : result B Z) :
  applier_outcome P lineno w r ->
  Forall (pass_event P) (out r) /\ (forall f, res r = inr f -> memory_fault f).
Proof.
  intros [-> | Hv6 -> | adv e Hadv Hrej -> | adv c Hadv Hc -> | adv f Hadv Hf ->];
    cbn [out res]; (split; [|intros f' Hf'; inversion Hf'; subst; auto]).
  - constructor.
  - repeat constructor.
  - apply Forall_app; split.
    + eapply Forall_impl; [exact Hadv|apply advisory_pass_event].
    + destruct Hrej as (fmt & args & _ & ->). repeat constructor.
  - apply Forall_app; split.
    + eapply Forall_impl; [exact Hadv|apply advisory_pass_event].
    + repeat constructor; destruct c; simpl in *; try reflexivity; try contradiction; congruence.
  - eapply Forall_impl; [exact Hadv|apply advisory_pass_event].
Qed.

Lemma line_pass_events do_vifs lineno linebuf (w : world B) :
  Forall (pass_event P) (out (conf_line P do_vifs lineno linebuf w)) /\
  (forall f, res (conf_line P do_vifs lineno linebuf w) = inr f -> memory_fault f).
Proof.
  destruct (conf_line_outcome P do_vifs lineno linebuf w)
    as [unknown rd Hun Hd -> | unknown f Hun Hf ->]; cbn [out res].
  - assert (Hrd : Forall (pass_event P) (out rd) /\ (forall f, res rd = inr f -> memory_fault f)).
    { destruct Hd as [-> | c Hc -> | ra Ha ->]; cbn [out res].
      - split; [constructor|intros; discriminate].
      - split; [|intros; discriminate].
        repeat constructor; destruct c; simpl in *; try reflexivity; contradiction.
      - destruct (applier_pass_events lineno w ra Ha) as [Hev Hflt].
        split; [exact Hev|]. intros f Hf. destruct (res ra); [discriminate|].
        inversion Hf; subst. apply Hflt. reflexivity. }
    destruct Hrd as [Hev Hflt]. split; [|exact Hflt].
    apply Forall_app; split; [|exact Hev].
    eapply Forall_impl; [exact Hun|apply unknown_pass_event].
  - split; [|intros f' Hf'; inversion Hf'; subst; exact Hf].
    eapply Forall_impl; [exact Hun|apply unknown_pass_event].
Qed.

(** The loop over the lines: with fuel for every character of the file it
    never runs dry. *)
Lemma conf_lines_facts (fuel : nat) (do_vifs lineno : Z) (fp : string) (w : world B) :
  (String.length fp < fuel)%nat ->
  Forall (pass_event P) (out (conf_lines P fuel do_vifs lineno fp w)) /\
  (res (conf_lines P fuel do_vifs lineno fp w) = inl tt \/
   exists f, res (conf_lines P fuel do_vifs lineno fp w) = inr f /\ memory_fault f).
Proof.
  revert lineno fp w; induction fuel as [|fuel IH]; intros lineno fp w Hfuel; [lia|].
  cbn [conf_lines].
  destruct (fgets MAX_LINE_LEN fp) as [[linebuf fp']|] eqn:Hg.
  - pose proof (fgets_consumes _ _ _ Hg) as Hlt.
    destruct (line_pass_events do_vifs lineno linebuf w) as [Hev Hflt].
    unfold bind.
    destruct (res (conf_line P do_vifs lineno linebuf w)) as [[]|f] eqn:Hres; cbn [out res].
    + destruct (IH (lineno + 1) fp' (post (conf_line P do_vifs lineno linebuf w)))
        as [Hev' Hres']; [lia|].
      split; [apply Forall_app; split; assumption|exact Hres'].
    + split; [exact Hev|]. right. exists f. split; [reflexivity|apply Hflt; reflexivity].
  - split; [constructor|left; reflexivity].
Qed.

(** A pass that comes to its end has run every line that [fgets]
    delivers, each under its line number; the events of the line are part
    of the events of the pass. *)
Lemma conf_lines_line (fuel : nat) (do_vifs lineno : Z) (fp : string) (w : world B)
    (k : nat) (linebuf : string) :
  res (conf_lines P fuel do_vifs lineno fp w) = inl tt ->
  file_lines fuel fp !! k = Some linebuf ->
  exists (w' : world B) before after,
    out (conf_lines P fuel do_vifs lineno fp w) =
    before ++ out (conf_line P do_vifs (lineno + Z.of_nat k) linebuf w') ++ after.
Proof.
  revert lineno fp w k; induction fuel as [|fuel IH]; intros lineno fp w k; [discriminate|].
  cbn [conf_lines file_lines].
  destruct (fgets MAX_LINE_LEN fp) as [[l fp']|].
  2:{ intros _ Hk. rewrite lookup_nil in Hk. discriminate. }
  unfold bind.
  destruct (res (conf_line P do_vifs lineno l w)) as [[]|f] eqn:Hl; cbn [res out];
    [|discriminate].
  intros Hres Hk. destruct k as [|k].
  - inversion Hk; subst l.
    exists w, [], (out (conf_lines P fuel do_vifs (lineno + 1) fp'
                          (post (conf_line P do_vifs lineno linebuf w)))).
    rewrite Z.add_0_r. reflexivity.
  - destruct (IH _ _ _ _ Hres Hk) as (w' & before & after & Heq).
    exists w', (out (conf_line P do_vifs lineno l w) ++ before), after.
    rewrite Heq, <- app_assoc.
    replace (lineno + Z.of_nat (S k)) with (lineno + 1 + Z.of_nat k) by lia. reflexivity.
Qed.

Lemma conf_parse_facts (h : host) (file : string) (do_vifs : Z) (w : world B) :
  Forall (pass_event P) (out (conf_parse P h file do_vifs w)) /\
  match fopen_r h file, malloc_linebuf h with
  | inl e, _ | inr _, Some e =>
      conf_parse P h file do_vifs w = Result (inl 1) (World (be w) e) []
  | inr fp, None =>
      res (conf_parse P h file do_vifs w) = inl 0 \/
      exists f, res (conf_parse P h file do_vifs w) = inr f /\ memory_fault f
  end.
Proof.
  unfold conf_parse.
  destruct (fopen_r h file) as [e|fp]; [split; [constructor|reflexivity]|].
  destruct (malloc_linebuf h) as [e|]; [split; [constructor|reflexivity]|].
  destruct (conf_lines_facts (S (String.length fp)) do_vifs 1 fp w) as [Hev Hres]; [lia|].
  unfold bind.
  destruct Hres as [Hres|(f & Hres & Hf)]; rewrite Hres; cbn [out res].
  - rewrite app_nil_r. split; [exact Hev|left; reflexivity].
  - split; [exact Hev|right; eauto].
Qed.

End PassFacts.

Section Pass.

Context {B : Type} `{Backend B}.
Variable P : platform.

Lemma pass_events_no_v6 (evs : list event) :
  ipv6_enabled P = false -> Forall (pass_event P) evs -> existsb is_v6_call evs = false.
Proof.
  intros Hv6. apply existsb_all_false. intros e [_ He]. apply He, Hv6.
Qed.

Lemma pass_events_no_hook (evs : list event) :
  Forall (pass_event P) evs -> List.filter is_hook evs = [].
Proof.
  induction 1 as [|e evs [He _] _ IH]; simpl; [reflexivity|]. rewrite He. exact IH.
Qed.

(** What [conf_read] adds to the events of [conf_parse]. *)
Lemma conf_read_events (h : host) (file : string) (do_vifs : Z) (w : world B) :
  out (conf_read P h file do_vifs w) =
  match access_R_OK h file with
  | Some e =>
      [ if e =? ENOENT
        then Log LOG_NOTICE (Some "Configuration file %s does not exist") [AStr file]
        else Log LOG_WARNING (Some "Unexpected error when accessing %s: %s")
               [AStr file; AStrerror e];
        Log LOG_NOTICE (Some "Continuing anyway, waiting for client to connect.") [] ]
  | None =>
      out (conf_parse P h file do_vifs w) ++
      match res (conf_parse P h file do_vifs w) with
      | inl r =>
          if r =? 0 then [Call script_exec_NULL]
          else [Log LOG_WARNING (Some "Failed parsing %s: %s")
                  [AStr file; AStrerror (errno (post (conf_parse P h file do_vifs w)))]]
      | inr _ => []
      end
  end.
Proof.
  unfold conf_read.
  destruct (access_R_OK h file) as [e|].
  - rewrite bind_set_errno. destruct (e =? ENOENT); reflexivity.
  - unfold bind at 1.
    destruct (res (conf_parse P h file do_vifs w)) as [r|f]; cbn [out]; [|rewrite app_nil_r; reflexivity].
    destruct (r =? 0); reflexivity.
Qed.

(** A complete directive with an IPv6 group, applied on a build without
    IPv6: one warning, no call, and the applier's 0 is dropped. *)
Lemma apply_directive_ipv6_disabled lineno (s : locals) (w : world B) :
  ipv6_enabled P = false -> ipv6_directive s ->
  apply_directive P lineno s w = Result (inl tt) w [warn_event lineno W_ipv6_disabled []].
Proof.
  intros Hv6 (Hop & i & g & Hi & Hg & Hc). unfold apply_directive.
  destruct Hop as [Hop | [Hop Hnum]]; rewrite Hop; cbn [Z.eqb Pos.eqb];
    rewrite discard_result, Hi, Hg.
  - unfold join_mgroup. rewrite Hc, Hv6. reflexivity.
  - unfold add_mroute. apply Z.eqb_neq in Hnum. rewrite Hnum, Hc, Hv6. reflexivity.
Qed.

(** C7. On a build without IPv6 multicast support no run of [conf_read]
    calls [mcgroup6_join] or [mroute6_add].  [join_mgroup] and [add_mroute],
    on a directive with its operands present and a colon in its group, issue
    [WARN("Ignored, IPv6 disabled.")], one call of [smclog] at LOG_WARNING
    that carries this text and the line number, and return 0 without a call.
    A line from which the loop over the tokens reads such a directive ends
    with exactly this warning after the warnings of the loop, and leaves the
    world as it is; and when such a line is the k-th, counted from 1, that a
    pass reads from its file, and the pass comes to its end, the warning
    with the line number k is among the events of [conf_read].
    [conf_parse], once the file is open and the line buffer allocated,
    returns 0 unless the run stops at a store outside an array. *)
Theorem ipv6_disabled_is_ignored (h : host) (file : string) (do_vifs : Z) (w : world B) :
  ipv6_enabled P = false ->
  existsb is_v6_call (out (conf_read P h file do_vifs w)) = false /\
  (forall lineno ifname source group (w' : world B),
     Libc.strchr group ":" = true ->
     join_mgroup P lineno (Some ifname) source (Some group) w'
       = Result (inl 0) w' [warn_event lineno W_ipv6_disabled []]) /\
  (forall lineno ifname source group outbound num (w' : world B),
     Libc.strchr group ":" = true -> num <> 0 ->
     add_mroute P lineno (Some ifname) (Some group) source outbound num w'
       = Result (inl 0) w' [warn_event lineno W_ipv6_disabled []]) /\
  (forall lineno linebuf (w' : world B) (s : locals),
     res (token_loop (fuel_of (line (init_locals do_vifs linebuf))) lineno
            (init_locals do_vifs linebuf) w') = inl s ->
     ipv6_directive s ->
     conf_line P do_vifs lineno linebuf w' =
       Result (inl tt) w'
         (out (token_loop (fuel_of (line (init_locals do_vifs linebuf))) lineno
                 (init_locals do_vifs linebuf) w')
          ++ [warn_event lineno W_ipv6_disabled []])) /\
  (forall fp (k : nat) linebuf (s : locals),
     access_R_OK h file = None -> fopen_r h file = inr fp -> malloc_linebuf h = None ->
     res (conf_parse P h file do_vifs w) = inl 0 ->
     file_lines (S (String.length fp)) fp !! k = Some linebuf ->
     res (token_loop (fuel_of (line (init_locals do_vifs linebuf))) (Z.of_nat k + 1)
            (init_locals do_vifs linebuf) w) = inl s ->
     ipv6_directive s ->
     In (warn_event (Z.of_nat k + 1) W_ipv6_disabled [])
        (out (conf_read P h file do_vifs w))) /\
  match fopen_r h file, malloc_linebuf h with
  | inr fp, None =>
      res (conf_parse P h file do_vifs w) = inl 0 \/
      exists f, res (conf_parse P h file do_vifs w) = inr f /\ memory_fault f
  | _, _ => True
  end.
Proof.
  intros Hv6.
  assert (Hline : forall lineno linebuf (w' : world B) (s : locals),
     res (token_loop (fuel_of (line (init_locals do_vifs linebuf))) lineno
            (init_locals do_vifs linebuf) w') = inl s ->
     ipv6_directive s ->
     conf_line P do_vifs lineno linebuf w' =
       Result (inl tt) w'
         (out (token_loop (fuel_of (line (init_locals do_vifs linebuf))) lineno
                 (init_locals do_vifs linebuf) w')
          ++ [warn_event lineno W_ipv6_disabled []])).
  { intros lineno linebuf w' s Hres Hdir. unfold conf_line. cbv zeta.
    pose proof (world_free_post _ w' (token_loop_world_free
                  (fuel_of (line (init_locals do_vifs linebuf))) lineno
                  (init_locals do_vifs linebuf))) as Hpost.
    unfold bind. rewrite Hres, Hpost.
    rewrite (apply_directive_ipv6_disabled lineno s w' Hv6 Hdir). reflexivity. }
  split; [|split; [|split; [|split; [exact Hline|split]]]].
  - rewrite conf_read_events.
    destruct (access_R_OK h file) as [e|]; [destruct (e =? ENOENT); reflexivity|].
    rewrite existsb_app.
    rewrite (pass_events_no_v6 _ Hv6 (proj1 (conf_parse_facts P h file do_vifs w))).
    destruct (res (conf_parse P h file do_vifs w)) as [r|f]; [|reflexivity].
    destruct (r =? 0); reflexivity.
  - intros lineno ifname source group w' Hc. unfold join_mgroup. rewrite Hc, Hv6. reflexivity.
  - intros lineno ifname source group outbound num w' Hc Hnum. unfold add_mroute.
    apply Z.eqb_neq in Hnum. rewrite Hnum, Hc, Hv6. reflexivity.
  - intros fp k linebuf s Hacc Hopen Halloc Hpass Hk Hres Hdir.
    rewrite conf_read_events, Hacc. apply in_or_app. left.
    unfold conf_parse in Hpass |- *. rewrite Hopen, Halloc in Hpass |- *.
    assert (Hrun : res (conf_lines P (S (String.length fp)) do_vifs 1 fp w) = inl tt).
    { unfold bind in Hpass.
      destruct (res (conf_lines P (S (String.length fp)) do_vifs 1 fp w)) as [[]|f];
        [reflexivity|discriminate]. }
    assert (Hout : out ((seq conf_lines P (S (String.length fp)) do_vifs 1 fp; ret 0) w)
                   = out (conf_lines P (S (String.length fp)) do_vifs 1 fp w)).
    { unfold bind, ret. rewrite Hrun. cbn [out]. apply app_nil_r. }
    rewrite Hout.
    destruct (conf_lines_line P _ _ _ _ _ _ _ Hrun Hk) as (w' & before & after & Heq).
    rewrite Heq. replace (1 + Z.of_nat k) with (Z.of_nat k + 1) by lia.
    assert (Hres' : res (token_loop (fuel_of (line (init_locals do_vifs linebuf)))
                           (Z.of_nat k + 1) (init_locals do_vifs linebuf) w') = inl s).
    { rewrite (token_loop_world_free _ _ _ w w'). exact Hres. }
    rewrite (Hline _ _ _ _ Hres' Hdir). cbn [out].
    apply in_or_app. right. apply in_or_app. left. apply in_or_app. right. left. reflexivity.
  - pose proof (proj2 (conf_parse_facts P h file do_vifs w)) as Hp.
    destruct (fopen_r h file); [exact I|]. destruct (malloc_linebuf h); [exact I|exact Hp].
Qed.

(** C10. The hook [script_exec(NULL)] is called once, as the last event,
    when [access] succeeds and [conf_parse] returns 0, and not at all
    otherwise: not when [access] fails, where [conf_read] returns after its
    two log records, and not when [fopen] or the allocation of the line
    buffer fails, where [conf_parse] returns 1 at once. *)
Theorem post_apply_hook_once (h : host) (file : string) (do_vifs : Z) (w : world B) :
  List.filter is_hook (out (conf_read P h file do_vifs w)) =
    match access_R_OK h file with
    | Some _ => []
    | None =>
        match res (conf_parse P h file do_vifs w) with
        | inl r => if r =? 0 then [Call script_exec_NULL] else []
        | inr _ => []
        end
    end /\
  match access_R_OK h file with
  | Some e =>
      conf_read P h file do_vifs w =
      Result (inl tt) (World (be w) e)
        [ if e =? ENOENT
          then Log LOG_NOTICE (Some "Configuration file %s does not exist") [AStr file]
          else Log LOG_WARNING (Some "Unexpected error when accessing %s: %s")
                 [AStr file; AStrerror e];
          Log LOG_NOTICE (Some "Continuing anyway, waiting for client to connect.") [] ]
  | None =>
      match res (conf_parse P h file do_vifs w) with
      | inl r =>
          if r =? 0
          then last (out (conf_read P h file do_vifs w)) = Some (Call script_exec_NULL)
          else True
      | inr _ => True
      end
  end /\
  match fopen_r h file, malloc_linebuf h with
  | inl e, _ | inr _, Some e =>
      conf_parse P h file do_vifs w = Result (inl 1) (World (be w) e) []
  | inr _, None => True
  end.
Proof.
  repeat split.
  - rewrite conf_read_events.
    destruct (access_R_OK h file) as [e|]; [destruct (e =? ENOENT); reflexivity|].
    rewrite List.filter_app.
    rewrite (pass_events_no_hook _ (proj1 (conf_parse_facts P h file do_vifs w))).
    destruct (res (conf_parse P h file do_vifs w)) as [r|f]; [|reflexivity].
    destruct (r =? 0); reflexivity.
  - destruct (access_R_OK h file) as [e|] eqn:Hacc.
    + unfold conf_read. rewrite Hacc, bind_set_errno. destruct (e =? ENOENT); reflexivity.
    + destruct (res (conf_parse P h file do_vifs w)) as [r|f] eqn:Hres; [|exact I].
      destruct (r =? 0) eqn:Hr; [|exact I].
      rewrite conf_read_events, Hacc, Hres, Hr. apply last_snoc.
  - pose proof (proj2 (conf_parse_facts P h file do_vifs w)) as Hp.
    destruct (fopen_r h file); [exact Hp|]. destruct (malloc_linebuf h); [exact Hp|exact I].
Qed.

End Pass.

Example demo_file_events :
  conf_read Demo.no_ipv6 (Demo.host_with demo_file) "smcroute.conf" 0 Demo.w0 =
  Result (inl tt) Demo.w0
    [ warn_event 1 W_ipv6_disabled [];
      warn_event 2 W_ipv6_disabled [];
      Call (mroute_add_vif (Some "eth0") 1);
      Call script_exec_NULL ].
Proof. reflexivity. Qed.

(** The second line of [demo_file], an IPv6 route, in a pass over the
    file. *)
Lemma ipv6_disabled_is_ignored_witness :
  existsb is_v6_call
    (out (conf_read Demo.no_ipv6 (Demo.host_with demo_file) "smcroute.conf" 0 Demo.w0)) = false /\
  join_mgroup Demo.no_ipv6 1 (Some "eth0") None (Some "ff02::1") Demo.w0
    = Result (inl 0) Demo.w0 [warn_event 1 W_ipv6_disabled []] /\
  In (warn_event 2 W_ipv6_disabled [])
     (out (conf_read Demo.no_ipv6 (Demo.host_with demo_file) "smcroute.conf" 0 Demo.w0)) /\
  res (conf_parse Demo.no_ipv6 (Demo.host_with demo_file) "smcroute.conf" 0 Demo.w0) = inl 0.
Proof.
  pose proof (ipv6_disabled_is_ignored Demo.no_ipv6 (Demo.host_with demo_file)
                "smcroute.conf" 0 Demo.w0 eq_refl) as (Hno & Hjoin & _ & _ & Hpass & _).
  split; [exact Hno|]. split; [apply Hjoin; reflexivity|]. split; [|reflexivity].
  apply (Hpass demo_file 1%nat
           (Demo.ln "mroute from eth0 source 2001:db8::1 group ff02::1 to eth1")
           (Locals 2 1 0 1 (Some "eth0") (Some "2001:db8::1") (Some "ff02::1")
              (Some "eth1" :: replicate 31 None) None));
    try reflexivity.
  split; [right; split; [reflexivity|discriminate]|].
  exists "eth0", "ff02::1". repeat split.
Defined.

(** ** A directive with an operand missing *)

(** An [mgroup] without group, and an [mroute] without inbound interface,
    without group and without outbound names: the line is skipped, and no
    warning at all is logged. *)
Lemma missing_operand_draws_no_warning :
  ~ warns_with_line_number 3
      (out (conf_line Demo.no_ipv6 0 3 (Demo.ln "mgroup from eth0") Demo.w0)) /\
  ~ warns_with_line_number 3
      (out (conf_line Demo.no_ipv6 0 3 (Demo.ln "mroute group 225.1.2.3 to eth1") Demo.w0)) /\
  ~ warns_with_line_number 3
      (out (conf_line Demo.no_ipv6 0 3 (Demo.ln "mroute from eth0 to eth1") Demo.w0)) /\
  ~ warns_with_line_number 3
      (out (conf_line Demo.no_ipv6 0 3 (Demo.ln "mroute from eth0 group 225.1.2.3") Demo.w0)).
Proof. repeat split; intros (fmt & args & [[] | []]). Qed.

(** C8, as the code has it.  A directive that lacks a required operand (an
    [mgroup] without interface or group; an [mroute] without interface,
    group or outbound names) is skipped without a trace: no log record and
    no call, only [errno] set to EINVAL; the return value 1 of the applier
    is dropped by [conf_parse]. *)
Theorem missing_operand_skipped_silently {B : Type} `{Backend B} (P : platform)
    (lineno : Z) (s : locals) (w : world B) :
  (op s = 1 /\ (ifname s = None \/ group s = None)) \/
  (op s = 2 /\ (ifname s = None \/ group s = None \/ num s = 0)) ->
  apply_directive P lineno s w = Result (inl tt) (World (be w) EINVAL) [].
Proof.
  unfold apply_directive.
  intros [[-> Hmiss] | [-> Hmiss]]; cbn [Z.eqb Pos.eqb]; rewrite discard_result.
  - unfold join_mgroup. destruct Hmiss as [-> | ->]; [reflexivity|].
    destruct (ifname s); reflexivity.
  - unfold add_mroute. destruct Hmiss as [-> | [-> | ->]]; [reflexivity| |].
    + destruct (ifname s); reflexivity.
    + destruct (ifname s); [destruct (group s)|]; reflexivity.
Qed.

(** The directive read from [mgroup from eth0]. *)
Lemma missing_operand_skipped_silently_witness :
  apply_directive Demo.no_ipv6 3
    {| op := 1; num := 0; enable := 0; l_threshold := 1; ifname := Some "eth0";
       source := None; group := None; dest := replicate 32 None; line := None |}
    Demo.w0
  = Result (inl tt) (World Demo.eth EINVAL) [].
Proof.
  apply (missing_operand_skipped_silently Demo.no_ipv6 3).
  left. split; [reflexivity|]. right. reflexivity.
Defined.

(** ** The operand chain does not look at [op] *)

Section OperandAndOp.

Context {B : Type} `{Backend B}.
Variable P : platform.

Lemma to_loop_set_op (fuel : nat) (v : Z) (s : locals) (w : world B) :
  to_loop fuel (set_op v s) w = with_op v (to_loop fuel s w).
Proof.
  revert s; induction fuel as [|fuel IH]; intros s; [reflexivity|].
  cbn [to_loop]. cbn [line num dest set_op].
  destruct (pop_token (line s)) as [tok l].
  destruct ((0 <=? num s) && (num s <? Z.of_nat (length (dest s)))); [|reflexivity].
  destruct tok as [t|]; [|reflexivity].
  exact (IH (set_num (num s + 1)
               (set_line l (set_dest (<[Z.to_nat (num s):=Some t]> (dest s)) s)))).
Qed.

Lemma operand_set_op (token : string) (v : Z) (s : locals) (w : world B) :
  operand token (set_op v s) w = with_op v (operand token s w).
Proof.
  unfold operand. cbn [line set_op].
  repeat match goal with
  | |- context [if match_ ?a ?b then _ else _] => destruct (match_ a b)
  end;
  try (destruct (pop_token (line s)) as [t l]); try reflexivity.
  - apply to_loop_set_op.
  - destruct t as [t|]; [|reflexivity].
    destruct ((1 <=? Libc.atoi t) || (Libc.atoi t <=? 255)); reflexivity.
Qed.

End OperandAndOp.


(** ** An unknown first token *)

Lemma skip_spaces_suffix (s : string) :
  exists pre, s = String.append pre (Libc.skip_spaces s).
Proof.
  induction s as [|a s [pre IH]]; [exists EmptyString; reflexivity|].
  simpl. destruct (Libc.isspace a).
  - exists (String a pre). simpl. rewrite <- IH. reflexivity.
  - exists EmptyString. reflexivity.
Qed.

Lemma token_end_split (s t e : string) :
  token_end s = (t, e) -> s = String.append t e.
Proof.
  revert t e; induction s as [|a s IH]; simpl; intros t e Heq.
  - inversion Heq; reflexivity.
  - destruct (Libc.isspace a); [inversion Heq; reflexivity|].
    destruct (token_end s) as [t' e'] eqn:E. inversion Heq; subst.
    simpl. rewrite (IH t' e eq_refl) at 1. reflexivity.
Qed.

Lemma append_assoc (a b c : string) :
  String.append (String.append a b) c = String.append a (String.append b c).
Proof. induction a as [|x a IH]; simpl; [reflexivity|]. rewrite IH. reflexivity. Qed.

Lemma pop_token_suffix (l tok rest : string) :
  pop_token (Some l) = (Some tok, Some rest) -> exists pre, l = String.append pre rest.
Proof.
  unfold pop_token.
  destruct (token_end (Libc.skip_spaces l)) as [t e] eqn:E.
  destruct (skip_spaces_suffix l) as [pre Hpre].
  apply token_end_split in E.
  destruct e as [|c e]; [discriminate|]. destruct t as [|a t]; [discriminate|].
  intros Heq; inversion Heq; subst.
  exists (String.append pre (String.append (String a t) (String c EmptyString))).
  rewrite Hpre at 1. rewrite E. rewrite !append_assoc. reflexivity.
Qed.

Lemma c_str_suffix (pre rest : string) :
  Libc.c_str (String.append pre rest) = String.append pre rest -> Libc.c_str rest = rest.
Proof.
  induction pre as [|a pre IH]; simpl; [auto|].
  destruct (Ascii.eqb a zero); [discriminate|].
  intros Heq. inversion Heq. auto.
Qed.

Lemma c_str_idempotent (s : string) : Libc.c_str (Libc.c_str s) = Libc.c_str s.
Proof.
  induction s as [|a s IH]; simpl; [reflexivity|].
  destruct (Ascii.eqb a zero) eqn:E; simpl; [reflexivity|]. rewrite E, IH. reflexivity.
Qed.

Section UnknownToken.

Context {B : Type} `{Backend B}.
Variable P : platform.

(** More fuel than the line is long changes nothing. *)
Lemma to_loop_fuel (f1 f2 : nat) (s : locals) (w : world B) :
  (fuel_of (line s) <= f1)%nat -> (fuel_of (line s) <= f2)%nat ->
  to_loop f1 s w = to_loop f2 s w.
Proof.
  revert f2 s; induction f1 as [|f1 IH]; intros f2 s H1 H2.
  - pose proof (fuel_of_pos (line s)). lia.
  - destruct f2 as [|f2]; [pose proof (fuel_of_pos (line s)); lia|].
    cbn [to_loop]. destruct (pop_token (line s)) as [tok l] eqn:Hp.
    destruct ((0 <=? num s) && (num s <? Z.of_nat (length (dest s)))); [|reflexivity].
    destruct tok as [t|]; [|reflexivity].
    pose proof (pop_token_shrinks _ _ _ Hp).
    apply IH; simpl; lia.
Qed.

Lemma token_loop_fuel (f1 f2 : nat) (lineno : Z) (s : locals) (w : world B) :
  (fuel_of (line s) <= f1)%nat -> (fuel_of (line s) <= f2)%nat ->
  token_loop f1 lineno s w = token_loop f2 lineno s w.
Proof.
  revert f2 s; induction f1 as [|f1 IH]; intros f2 s H1 H2.
  - pose proof (fuel_of_pos (line s)). lia.
  - destruct f2 as [|f2]; [pose proof (fuel_of_pos (line s)); lia|].
    cbn [token_loop]. destruct (pop_token (line s)) as [tok l] eqn:Hp.
    destruct tok as [token|]; [|reflexivity].
    pose proof (pop_token_shrinks _ _ _ Hp) as Hlt.
    destruct (match_ (Some "#") (Some token)); [reflexivity|].
    assert (Hsel :
      (exists s1, (if op (set_line l s) =? 0
                   then select_verb lineno token (set_line l s)
                   else ret (Some (set_line l s))) w = Result (inl (Some s1)) w []
                  /\ advances (set_line l s) s1) \/
      (if op (set_line l s) =? 0
       then select_verb lineno token (set_line l s)
       else ret (Some (set_line l s))) w =
        Result (inl None) w [warn_event lineno W_unknown_command [AStr token]]).
    { destruct (op (set_line l s) =? 0).
      - apply select_verb_cases.
      - left. eexists; split; [reflexivity|unfold advances; lia]. }
    destruct Hsel as [(s1 & Hs1 & Hadv1)| Hnone].
    + rewrite !(bind_done _ _ _ _ _ _ Hs1).
      destruct (operand_quiet token s1 w) as (Hpost & Hout & Hadv & _).
      unfold bind.
      destruct (res (operand token s1 w)) as [s2|f] eqn:Hres; [|reflexivity].
      rewrite Hpost. specialize (Hadv s2 eq_refl).
      unfold advances in *. simpl in *.
      rewrite (IH f2 s2) by lia. reflexivity.
    + rewrite !(bind_done _ _ _ _ _ _ Hnone).
      rewrite (IH f2 (set_line l s)) by (simpl; lia). reflexivity.
Qed.

Lemma select_verb_unknown lineno token (s : locals) (w : world B) :
  is_verb token = false ->
  select_verb lineno token s w =
  Result (inl None) w [warn_event lineno W_unknown_command [AStr token]].
Proof.
  unfold is_verb, select_verb. intros Hv.
  apply orb_false_elim in Hv. destruct Hv as [Hv H4].
  apply orb_false_elim in Hv. destruct Hv as [Hv H3].
  apply orb_false_elim in Hv. destruct Hv as [H1 H2].
  rewrite H1, H2, H3, H4. reflexivity.
Qed.

(** While no verb has been met, the loop only warns: it moves along the
    line and leaves every other local as it is. *)
Lemma token_loop_no_verb (fuel : nat) (lineno : Z) (s : locals) (w : world B) :
  op s = 0 -> no_verb fuel (line s) = true ->
  (exists l', res (token_loop fuel lineno s w) = inl (set_line l' s)) \/
  res (token_loop fuel lineno s w) = inr OutOfFuel.
Proof.
  revert s; induction fuel as [|fuel IH]; intros s Hop Hnv; [right; reflexivity|].
  cbn [token_loop no_verb] in *.
  destruct (pop_token (line s)) as [tok l].
  destruct tok as [token|]; [|left; eexists; reflexivity].
  destruct (match_ (Some "#") (Some token)); [left; eexists; reflexivity|].
  apply andb_prop in Hnv. destruct Hnv as [Hv Hnv]. apply negb_true_iff in Hv.
  cbn [op set_line]. rewrite Hop. cbn [Z.eqb].
  rewrite (bind_done _ _ _ _ _ _ (select_verb_unknown lineno token (set_line l s) w Hv)).
  cbn [res].
  destruct (IH (set_line l s) Hop Hnv) as [(l' & Hres) | Hres]; [left|right; exact Hres].
  exists l'. exact Hres.
Qed.

End UnknownToken.

Section UnknownCommand.

Context {B : Type} `{Backend B}.
Variable P : platform.

(** C4, as the code has it.  A verb is matched as a prefix of the token.
    When the first token of a line is not a comment and begins with none of
    the four verbs, the line issues [WARN("Unknown command %s, skipping.",
    token)], one call of [smclog] at LOG_WARNING that carries this text, the
    line number and the token, and is then read on exactly as if it began
    after that token: the next token is tried as a verb in its turn.  Only a
    line none of whose tokens begins with a verb ends without a directive:
    the loop over its tokens leaves [op] at 0 and every operand slot as it
    was set up, and the line logs nothing but such warnings, makes no call
    and leaves the world as it is. *)
Theorem unknown_command_skips_one_token :
  (forall (do_vifs lineno : Z) (linebuf token rest : string) (w : world B),
     first_token_unknown linebuf token rest ->
     conf_line P do_vifs lineno linebuf w =
       Result (res (conf_line P do_vifs lineno rest w))
              (post (conf_line P do_vifs lineno rest w))
              (warn_event lineno W_unknown_command [AStr token]
                 :: out (conf_line P do_vifs lineno rest w))) /\
  (forall (do_vifs lineno : Z) (linebuf : string) (w : world B),
     no_verb (fuel_of (Some (Libc.c_str linebuf))) (Some (Libc.c_str linebuf)) = true ->
     (exists l',
        res (token_loop (fuel_of (line (init_locals do_vifs linebuf))) lineno
               (init_locals do_vifs linebuf) w)
        = inl (set_line l' (init_locals do_vifs linebuf))) /\
     res (conf_line P do_vifs lineno linebuf w) = inl tt /\
     post (conf_line P do_vifs lineno linebuf w) = w /\
     Forall (is_unknown_warning lineno) (out (conf_line P do_vifs lineno linebuf w))).
Proof.
  split.
  - intros do_vifs lineno linebuf token rest w (Hpop & Hcomment & Hverb).
    assert (Hrest : Libc.c_str rest = rest).
    { destruct (pop_token_suffix _ _ _ Hpop) as [pre Hpre].
      apply (c_str_suffix pre). rewrite <- Hpre. apply c_str_idempotent. }
    pose proof (pop_token_shrinks _ _ _ Hpop) as Hlt.
    unfold conf_line. cbv zeta.
    assert (Hinit : init_locals do_vifs rest = set_line (Some rest) (init_locals do_vifs linebuf)).
    { unfold init_locals, set_line. cbn [op num enable l_threshold ifname source group dest].
      rewrite Hrest. reflexivity. }
    assert (Hstep :
      token_loop (fuel_of (line (init_locals do_vifs linebuf))) lineno
        (init_locals do_vifs linebuf) w =
      Result (res (token_loop (fuel_of (line (init_locals do_vifs rest))) lineno
                     (init_locals do_vifs rest) w))
             (post (token_loop (fuel_of (line (init_locals do_vifs rest))) lineno
                     (init_locals do_vifs rest) w))
             (warn_event lineno W_unknown_command [AStr token]
                :: out (token_loop (fuel_of (line (init_locals do_vifs rest))) lineno
                          (init_locals do_vifs rest) w))).
    { remember (token_loop (fuel_of (line (init_locals do_vifs rest))) lineno
                  (init_locals do_vifs rest) w) as R eqn:HR.
      change (fuel_of (line (init_locals do_vifs linebuf)))
        with (S (String.length (Libc.c_str linebuf))).
      cbn [token_loop].
      change (line (init_locals do_vifs linebuf)) with (Some (Libc.c_str linebuf)).
      rewrite Hpop, Hcomment.
      change (op (set_line (Some rest) (init_locals do_vifs linebuf)) =? 0) with true.
      cbv iota.
      rewrite (bind_done _ _ _ _ _ _ (select_verb_unknown lineno token _ w Hverb)).
      cbn [app]. rewrite <- Hinit.
      rewrite (token_loop_fuel (String.length (Libc.c_str linebuf))
                 (fuel_of (line (init_locals do_vifs rest)))).
      - subst R. reflexivity.
      - cbn [init_locals line]. rewrite Hrest. simpl in Hlt. simpl. lia.
      - lia. }
    unfold bind. rewrite Hstep. cbn [res post out].
    destruct (res (token_loop (fuel_of (line (init_locals do_vifs rest))) lineno
                (init_locals do_vifs rest) w)); reflexivity.
  - intros do_vifs lineno linebuf w Hnv.
    unfold conf_line. cbv zeta.
    pose proof (token_loop_facts (fuel_of (line (init_locals do_vifs linebuf))) lineno
                  (init_locals do_vifs linebuf) w) as (Hpost & Hout & Hflt).
    pose proof (token_loop_no_verb (fuel_of (line (init_locals do_vifs linebuf))) lineno
                  (init_locals do_vifs linebuf) w eq_refl Hnv) as Hres.
    unfold bind.
    destruct Hres as [(l' & Hres)|Hres].
    + split; [exists l'; exact Hres|].
      rewrite Hres, Hpost. unfold apply_directive. cbn [op set_line init_locals Z.eqb res post out ret].
      rewrite app_nil_r. auto.
    + destruct (Hflt _ Hres) as [[_ Hno]|(i & v & Hoob)]; [exfalso; apply Hno; lia|discriminate].
Qed.

End UnknownCommand.

(** The claim fails on two lines.  On [foo phyint eth0 enable], [foo] is
    not a verb and the warning is issued, yet the rest of the line is still
    applied as a phyint directive.  On [phyint0 eth0 enable], the first token
    is none of the four verbs, yet no warning is issued: [phyint] is a prefix
    of it and the line is applied as a phyint directive. *)
Lemma unknown_first_token_then_directive :
  (first_token_unknown (Demo.ln "foo phyint eth0 enable") "foo" (Demo.ln "phyint eth0 enable") /\
   out (conf_line Demo.no_ipv6 0 1 (Demo.ln "foo phyint eth0 enable") Demo.w0)
     = [warn_event 1 W_unknown_command [AStr "foo"]; Call (mroute_add_vif (Some "eth0") 1)] /\
   existsb is_call (out (conf_line Demo.no_ipv6 0 1 (Demo.ln "foo phyint eth0 enable") Demo.w0))
     = true) /\
  (pop_token (Some (Libc.c_str (Demo.ln "phyint0 eth0 enable")))
     = (Some "phyint0", Some (Demo.ln "eth0 enable")) /\
   ~ In "phyint0" verbs /\
   out (conf_line Demo.no_ipv6 0 1 (Demo.ln "phyint0 eth0 enable") Demo.w0)
     = [Call (mroute_add_vif (Some "eth0") 1)]).
Proof.
  repeat split.
  intros [E | [E | [E | [E | []]]]]; discriminate E.
Qed.

Lemma unknown_command_skips_one_token_witness :
  conf_line Demo.no_ipv6 0 1 (Demo.ln "foo phyint eth0 enable") Demo.w0 =
    Result (res (conf_line Demo.no_ipv6 0 1 (Demo.ln "phyint eth0 enable") Demo.w0))
           (post (conf_line Demo.no_ipv6 0 1 (Demo.ln "phyint eth0 enable") Demo.w0))
           (warn_event 1 W_unknown_command [AStr "foo"]
              :: out (conf_line Demo.no_ipv6 0 1 (Demo.ln "phyint eth0 enable") Demo.w0)) /\
  out (conf_line Demo.no_ipv6 0 1 (Demo.ln "foo from eth0") Demo.w0) =
    [ warn_event 1 W_unknown_command [AStr "foo"];
      warn_event 1 W_unknown_command [AStr "from"];
      warn_event 1 W_unknown_command [AStr "eth0"] ] /\
  res (conf_line Demo.no_ipv6 0 1 (Demo.ln "foo from eth0") Demo.w0) = inl tt.
Proof.
  split.
  - apply (proj1 (unknown_command_skips_one_token Demo.no_ipv6) 0 1
             (Demo.ln "foo phyint eth0 enable") "foo" (Demo.ln "phyint eth0 enable") Demo.w0).
    repeat split.
  - split; [reflexivity|].
    apply (proj2 (unknown_command_skips_one_token Demo.no_ipv6) 0 1
             (Demo.ln "foo from eth0") Demo.w0 eq_refl).
Defined.

(** * Further properties of the tokenizer and of the matcher *)

Lemma skip_spaces_split (s : string) :
  exists ws, s = String.append ws (Libc.skip_spaces s) /\ space_run ws = true.
Proof.
  induction s as [|a s (ws & IH & Hws)]; [exists EmptyString; split; reflexivity|].
  simpl. destruct (Libc.isspace a) eqn:Ha.
  - exists (String a ws). simpl. rewrite <- IH. split; [reflexivity|].
    unfold space_run in *. simpl. rewrite Ha, Hws. reflexivity.
  - exists EmptyString. split; reflexivity.
Qed.

Lemma skip_spaces_run (ws s : string) :
  space_run ws = true -> Libc.skip_spaces (String.append ws s) = Libc.skip_spaces s.
Proof.
  unfold space_run. induction ws as [|a ws IH]; simpl; [reflexivity|].
  intros Hws. apply andb_prop in Hws. destruct Hws as [Ha Hws]. rewrite Ha. auto.
Qed.

Lemma skip_spaces_head (s : string) :
  match Libc.skip_spaces s with
  | String c _ => Libc.isspace c = false
  | EmptyString => True
  end.
Proof.
  induction s as [|a s IH]; simpl; [exact I|].
  destruct (Libc.isspace a) eqn:Ha; [exact IH|exact Ha].
Qed.

Lemma token_end_spaceless (s t e : string) :
  token_end s = (t, e) ->
  spaceless t = true /\
  match e with String c _ => Libc.isspace c = true | EmptyString => True end.
Proof.
  revert t e; induction s as [|a s IH]; simpl; intros t e Heq.
  - inversion Heq; subst. split; [reflexivity|exact I].
  - destruct (Libc.isspace a) eqn:Ha.
    + inversion Heq; subst. split; [reflexivity|exact Ha].
    + destruct (token_end s) as [t' e'] eqn:E. inversion Heq; subst.
      destruct (IH t' e eq_refl) as [Ht He]. split; [|exact He].
      unfold spaceless in *. simpl. rewrite Ha, Ht. reflexivity.
Qed.

Lemma token_end_run (t e : string) :
  spaceless t = true ->
  match e with String c _ => Libc.isspace c = true | EmptyString => True end ->
  token_end (String.append t e) = (t, e).
Proof.
  unfold spaceless. induction t as [|a t IH]; simpl; intros Ht He.
  - destruct e as [|c e]; [reflexivity|]. simpl. rewrite He. reflexivity.
  - apply andb_prop in Ht. destruct Ht as [Ha Ht]. apply negb_true_iff in Ha.
    rewrite Ha, (IH Ht He). reflexivity.
Qed.

Lemma skip_spaces_fixed (s : string) :
  match s with String c _ => Libc.isspace c = false | EmptyString => True end ->
  Libc.skip_spaces s = s.
Proof. destruct s as [|c s]; simpl; [reflexivity|]. intros ->. reflexivity. Qed.

(** X1. [pop_token] returns a token exactly when the line is a run of
    white space, a non-empty text without white space, one white space
    character, and a remainder: the token is that text and [line] is left
    at the remainder. *)
Theorem pop_token_some_iff (l tok rest : string) :
  pop_token (Some l) = (Some tok, Some rest) <->
  exists ws c,
    l = String.append ws (String.append tok (String c rest)) /\
    space_run ws = true /\ spaceless tok = true /\ tok <> EmptyString /\
    Libc.isspace c = true.
Proof.
  split.
  - unfold pop_token.
    destruct (skip_spaces_split l) as (ws & Hl & Hws).
    destruct (token_end (Libc.skip_spaces l)) as [t e] eqn:E.
    destruct (token_end_spaceless _ _ _ E) as [Ht He].
    apply token_end_split in E.
    destruct e as [|c e]; [discriminate|]. destruct t as [|a t]; [discriminate|].
    intros Heq; inversion Heq; subst tok rest.
    exists ws, c. rewrite Hl at 1. rewrite E. repeat split; auto; discriminate.
  - intros (ws & c & -> & Hws & Htok & Hne & Hc).
    unfold pop_token. rewrite (skip_spaces_run _ _ Hws).
    rewrite skip_spaces_fixed.
    + rewrite (token_end_run tok (String c rest) Htok Hc).
      destruct tok; [congruence|reflexivity].
    + destruct tok as [|a t]; [congruence|]. simpl.
      unfold spaceless in Htok. simpl in Htok. apply andb_prop in Htok.
      destruct Htok as [Ha _]. apply negb_true_iff in Ha. exact Ha.
Qed.

Lemma pop_token_some_iff_witness :
  pop_token (Some "  from eth0
") = (Some "from", Some "eth0
").
Proof.
  apply (proj2 (pop_token_some_iff "  from eth0
" "from" "eth0
")).
  exists "  ", " "%char. repeat split. discriminate.
Defined.

(** X2. [pop_token] returns NULL, and sets [line] to NULL, exactly when
    what is left of the line is white space followed by a text without
    white space: nothing, blanks, or a last token that no white space
    character ends.  Such a last token is lost. *)
Theorem pop_token_none_iff (l : string) :
  (exists l', pop_token (Some l) = (None, l')) <->
  exists ws tok, l = String.append ws tok /\ space_run ws = true /\ spaceless tok = true.
Proof.
  split.
  - intros (l' & Hp). unfold pop_token in Hp.
    destruct (skip_spaces_split l) as (ws & Hl & Hws).
    destruct (token_end (Libc.skip_spaces l)) as [t e] eqn:E.
    destruct (token_end_spaceless _ _ _ E) as [Ht He].
    apply token_end_split in E.
    destruct e as [|c e].
    + exists ws, t. rewrite Hl at 1. rewrite E.
      replace (String.append t EmptyString) with t; [auto|].
      clear. induction t as [|a t IH]; simpl; [reflexivity|]. rewrite <- IH. reflexivity.
    + destruct t as [|a t]; [|discriminate].
      simpl in E. pose proof (skip_spaces_head l) as Hh. rewrite E in Hh. congruence.
  - intros (ws & tok & -> & Hws & Htok). exists None.
    unfold pop_token. rewrite (skip_spaces_run _ _ Hws).
    rewrite skip_spaces_fixed.
    + replace tok with (String.append tok EmptyString) at 1.
      * rewrite (token_end_run tok EmptyString Htok I). reflexivity.
      * clear. induction tok as [|a t IH]; simpl; [reflexivity|]. rewrite IH. reflexivity.
    + destruct tok as [|a t]; [exact I|].
      unfold spaceless in Htok. simpl in Htok. apply andb_prop in Htok.
      destruct Htok as [Ha _]. apply negb_true_iff in Ha. exact Ha.
Qed.

(** X3. [match] holds exactly when the token is the keyword followed by
    anything: the keyword is a prefix of the token. *)
Theorem match_iff_prefix (keyword token : string) :
  match_ (Some keyword) (Some token) = true <->
  exists tail, token = String.append keyword tail.
Proof.
  unfold match_. revert token. induction keyword as [|k ks IH]; intros token; simpl.
  - split; [intros _; exists token; reflexivity|reflexivity].
  - destruct token as [|t ts]; [split; [discriminate|intros (tail & Hx); discriminate]|].
    destruct (Ascii.eqb k t) eqn:Hk.
    + apply Ascii.eqb_eq in Hk. subst t. rewrite IH. split.
      * intros (tail & ->). exists tail. reflexivity.
      * intros (tail & Hx). inversion Hx. eauto.
    + split; [discriminate|]. intros (tail & Hx). inversion Hx; subst.
      rewrite Ascii.eqb_refl in Hk. discriminate.
Qed.

Lemma common_token_prefix (k1 k2 t : string) :
  Libc.strncmp_prefix k1 t = true -> Libc.strncmp_prefix k2 t = true ->
  Libc.strncmp_prefix k1 k2 = true \/ Libc.strncmp_prefix k2 k1 = true.
Proof.
  revert k1 k2; induction t as [|c t IH]; intros k1 k2.
  - destruct k1; [|discriminate]. intros _ _. left. reflexivity.
  - destruct k1 as [|a k1]; [intros _ _; left; reflexivity|].
    destruct k2 as [|b k2]; [intros _ _; right; reflexivity|].
    simpl. destruct (Ascii.eqb a c) eqn:Ha; [|discriminate].
    destruct (Ascii.eqb b c) eqn:Hb; [|discriminate].
    apply Ascii.eqb_eq in Ha, Hb. subst a b. rewrite Ascii.eqb_refl. apply IH.
Qed.

Lemma prefix_free_one_match (words : list string) (token k1 k2 : string) :
  prefix_free words = true -> In k1 words -> In k2 words ->
  match_ (Some k1) (Some token) = true -> match_ (Some k2) (Some token) = true ->
  k1 = k2.
Proof.
  unfold prefix_free, match_. intros Hfree H1 H2 M1 M2.
  rewrite forallb_forall in Hfree.
  pose proof (Hfree k1 H1) as F1. rewrite forallb_forall in F1. specialize (F1 k2 H2).
  pose proof (Hfree k2 H2) as F2. rewrite forallb_forall in F2. specialize (F2 k1 H1).
  destruct (String.eqb k1 k2) eqn:E; [apply String.eqb_eq; exact E|].
  rewrite String.eqb_sym in F2. rewrite E in F2. simpl in F1, F2.
  apply negb_true_iff in F1, F2.
  destruct (common_token_prefix k1 k2 token M1 M2); congruence.
Qed.

Lemma words_prefix_free : prefix_free (verbs ++ operand_keywords) = true.
Proof. reflexivity. Qed.

(** A token that selects a verb is none of the operand keywords. *)
Lemma verb_is_no_keyword (token k : string) :
  is_verb token = true -> In k operand_keywords ->
  match_ (Some k) (Some token) = false.
Proof.
  intros Hv Hk. destruct (match_ (Some k) (Some token)) eqn:Hm; [|reflexivity].
  exfalso. unfold is_verb in Hv.
  assert (Hin : exists v, In v verbs /\ match_ (Some v) (Some token) = true).
  { repeat (apply orb_prop in Hv; destruct Hv as [Hv|Hv]);
      eexists; (split; [|exact Hv]); simpl; tauto. }
  destruct Hin as (v & Hvin & Hvm).
  assert (v = k).
  { apply (prefix_free_one_match (verbs ++ operand_keywords) token);
      auto using words_prefix_free; apply in_or_app; auto. }
  subst v. simpl in Hvin, Hk.
  repeat (destruct Hvin as [<- | Hvin];
          [repeat (destruct Hk as [Hk | Hk]; [discriminate Hk|]); exact Hk|]).
  exact Hvin.
Qed.

Lemma operand_on_verb {B : Type} `{Backend B} (token : string) (s : locals) (w : world B) :
  is_verb token = true -> operand token s w = Result (inl s) w [].
Proof.
  intros Hv. unfold operand.
  rewrite !(verb_is_no_keyword token _ Hv) by (simpl; tauto). reflexivity.
Qed.

(** X4. The four verbs and the seven operand keywords are prefix-free, so
    a token matches at most one of them and the order of the tests in
    [conf_parse] does not matter.  In particular the token that selected
    the verb goes through the chain of operand keywords without effect. *)
Theorem token_matches_one_word {B : Type} `{Backend B}
    (token k1 k2 : string) (s : locals) (w : world B) :
  In k1 (verbs ++ operand_keywords) -> In k2 (verbs ++ operand_keywords) ->
  match_ (Some k1) (Some token) = true -> match_ (Some k2) (Some token) = true ->
  k1 = k2 /\ (In k1 verbs -> operand token s w = Result (inl s) w []).
Proof.
  intros H1 H2 M1 M2. split.
  - exact (prefix_free_one_match _ token k1 k2 words_prefix_free H1 H2 M1 M2).
  - intros Hv. apply operand_on_verb. unfold is_verb. simpl in Hv.
    destruct Hv as [<- | [<- | [<- | [<- | []]]]]; rewrite M1;
      rewrite ?orb_true_r; reflexivity.
Qed.

Lemma token_matches_one_word_witness :
  "phyint" = "phyint" /\
  operand "phyint0" (init_locals 0 "x") Demo.w0 = Result (inl (init_locals 0 "x")) Demo.w0 [].
Proof.
  assert (Hin : In "phyint" (verbs ++ operand_keywords)) by (simpl; tauto).
  destruct (token_matches_one_word "phyint0" "phyint" "phyint" (init_locals 0 "x") Demo.w0
              Hin Hin eq_refl eq_refl) as [Heq Hop].
  split; [exact Heq|]. apply Hop. simpl; tauto.
Defined.

(** * The outbound names read after [to] *)

Lemma pop_token_none_line (l l' : option string) :
  pop_token l = (None, l') -> l' = None.
Proof.
  destruct l as [s|]; simpl; [|congruence].
  destruct (token_end (Libc.skip_spaces s)) as [tok e].
  destruct e; [congruence|]. destruct tok; congruence.
Qed.

Section ToLoop.

Context {B : Type} `{Backend B}.

(** X5. The loop of [to] takes every token that is left on the line.  When
    they fit, with the terminating NULL, into what is left of [dest], they
    are stored in order from [dest[num]] on, [num] is advanced by their
    number, the NULL is stored after them and the line is used up; the rest
    of [dest] and every other local are untouched.  When they do not fit,
    the loop stores the token in excess (or the NULL) one past the end of
    [dest]. *)
Theorem to_loop_stores_tokens (fuel : nat) (s : locals) (w : world B) :
  (fuel_of (line s) <= fuel)%nat ->
  0 <= num s <= Z.of_nat (length (dest s)) ->
  let toks := tokens fuel (line s) in
  let n := Z.to_nat (num s) in
  if (n + length toks <? length (dest s))%nat then
    to_loop fuel s w =
    Result
      (inl (Locals (op s) (num s + Z.of_nat (length toks)) (enable s) (l_threshold s)
              (ifname s) (source s) (group s)
              (take n (dest s) ++ map Some toks ++ None :: drop (S (n + length toks)) (dest s))
              None))
      w []
  else
    to_loop fuel s w =
    Result (inr (OOB_dest (Z.of_nat (length (dest s))) (toks !! (length (dest s) - n)%nat))) w [].
Proof.
  revert s; induction fuel as [|fuel IH]; intros s Hfuel Hnum.
  { pose proof (fuel_of_pos (line s)). lia. }
  cbn [to_loop tokens]. cbv zeta.
  destruct (pop_token (line s)) as [tok l'] eqn:Hp.
  destruct ((0 <=? num s) && (num s <? Z.of_nat (length (dest s)))) eqn:Hb.
  - apply andb_prop in Hb. destruct Hb as [_ Hlt]. apply Z.ltb_lt in Hlt.
    assert (Hn : (Z.to_nat (num s) < length (dest s))%nat) by lia.
    destruct tok as [t|].
    + pose proof (pop_token_shrinks _ _ _ Hp) as Hsh.
      pose proof (IH (set_num (num s + 1)
                        (set_line l' (set_dest (<[Z.to_nat (num s):=Some t]> (dest s)) s))))
        as IHs.
      cbn [line num dest op enable l_threshold ifname source group
           set_num set_line set_dest] in IHs.
      rewrite length_insert in IHs.
      specialize (IHs ltac:(lia) ltac:(lia)). cbv zeta in IHs.
      replace (Z.to_nat (num s + 1)) with (S (Z.to_nat (num s))) in IHs by lia.
      cbn [length].
      replace (Z.to_nat (num s) + S (length (tokens fuel l')) <? length (dest s))%nat
        with (S (Z.to_nat (num s)) + length (tokens fuel l') <? length (dest s))%nat
        by (f_equal; lia).
      destruct (S (Z.to_nat (num s)) + length (tokens fuel l') <? length (dest s))%nat eqn:Hfit.
      * rewrite IHs. f_equal. f_equal. f_equal; [lia|].
        rewrite (take_S_r _ _ (Some t)) by (apply list_lookup_insert_eq; exact Hn).
        rewrite take_insert_ge by lia.
        rewrite drop_insert_lt by lia.
        rewrite <- app_assoc. cbn [app map]. rewrite Nat.add_succ_r. reflexivity.
      * rewrite IHs. do 3 f_equal.
        replace (length (dest s) - Z.to_nat (num s))%nat
          with (S (length (dest s) - S (Z.to_nat (num s))))%nat by lia.
        reflexivity.
    + apply pop_token_none_line in Hp. subst l'. cbn [length].
      replace (Z.to_nat (num s) + 0 <? length (dest s))%nat with true
        by (symmetry; apply Nat.ltb_lt; lia).
      unfold ret, set_line, set_dest. cbn [op num enable l_threshold ifname source group dest line].
      f_equal. f_equal. f_equal; [lia|].
      rewrite Nat.add_0_r. cbn [map app]. apply insert_take_drop. exact Hn.
  - assert (Heq : num s = Z.of_nat (length (dest s))).
    { apply andb_false_iff in Hb. destruct Hb as [Hb|Hb];
        [apply Z.leb_gt in Hb|apply Z.ltb_ge in Hb]; lia. }
    replace (Z.to_nat (num s)) with (length (dest s)) by lia.
    rewrite Nat.sub_diag.
    replace (length (dest s) + length (match tok with
                                       | Some token => token :: tokens fuel l'
                                       | None => []
                                       end) <? length (dest s))%nat
      with false by (symmetry; apply Nat.ltb_ge; lia).
    unfold raise. rewrite Heq. destruct tok; reflexivity.
Qed.

End ToLoop.

Lemma to_loop_stores_tokens_witness :
  to_loop 20 (init_locals 0 (Demo.ln "eth1 eth2")) Demo.w0 =
  Result
    (inl (Locals 0 2 0 1 None None None
            (Some "eth1" :: Some "eth2" :: None :: replicate 29 None) None))
    Demo.w0 [].
Proof.
  assert (H1 : (fuel_of (line (init_locals 0 (Demo.ln "eth1 eth2"))) <= 20)%nat)
    by (vm_compute; lia).
  assert (H2 : 0 <= num (init_locals 0 (Demo.ln "eth1 eth2"))
               <= Z.of_nat (length (dest (init_locals 0 (Demo.ln "eth1 eth2")))))
    by (vm_compute; split; discriminate).
  exact (to_loop_stores_tokens 20 (init_locals 0 (Demo.ln "eth1 eth2")) Demo.w0 H1 H2).
Defined.

(** * Lines without a directive, and lines with one *)

Lemma filter_none {A} (f : A -> bool) (Q : A -> Prop) (l : list A) :
  (forall x, Q x -> f x = false) -> Forall Q l -> List.filter f l = [].
Proof.
  intros Hq Hall. induction Hall as [|x l Hx _ IH]; simpl; [reflexivity|].
  rewrite (Hq x Hx). exact IH.
Qed.

Section Lines.

Context {B : Type} `{Backend B}.
Variable P : platform.

(** X6. A blank line, a line whose first token begins with [#], and a
    line that holds [phyint] and nothing after it, do nothing at all: no
    log record, no call, no change of the world.  The [phyint] without a
    name is dropped without the warning an unknown command draws. *)
Theorem silent_line_does_nothing (do_vifs lineno : Z) (linebuf : string) (w : world B) :
  silent_line linebuf ->
  conf_line P do_vifs lineno linebuf w = Result (inl tt) w [].
Proof.
  unfold silent_line, conf_line. cbv zeta.
  change (fuel_of (line (init_locals do_vifs linebuf)))
    with (S (String.length (Libc.c_str linebuf))).
  cbn [token_loop].
  change (line (init_locals do_vifs linebuf)) with (Some (Libc.c_str linebuf)).
  destruct (pop_token (Some (Libc.c_str linebuf))) as [[token|] l] eqn:Hp;
    [|intros _; reflexivity].
  destruct (match_ (Some "#") (Some token)) eqn:Hc; [intros _; reflexivity|].
  intros [Hcomment | [Hphy Hnone]]; [discriminate|].
  pose proof (pop_token_shrinks _ _ _ Hp) as Hsh.
  assert (Hverb : is_verb token = true).
  { unfold is_verb. rewrite Hphy. rewrite ?orb_true_r. reflexivity. }
  assert (Hsel : select_verb lineno token (set_line l (init_locals do_vifs linebuf)) w =
                 Result (inl (Some (set_op 0 (set_line None (set_ifname None
                          (set_op 3 (set_line l (init_locals do_vifs linebuf)))))))) w []).
  { unfold select_verb.
    assert (Hg : match_ (Some "mgroup") (Some token) = false).
    { destruct (match_ (Some "mgroup") (Some token)) eqn:E; [|reflexivity].
      assert (Heq : "mgroup" = "phyint")
        by (apply (prefix_free_one_match (verbs ++ operand_keywords) token);
            auto using words_prefix_free; simpl; tauto).
      discriminate Heq. }
    assert (Hr : match_ (Some "mroute") (Some token) = false).
    { destruct (match_ (Some "mroute") (Some token)) eqn:E; [|reflexivity].
      assert (Heq : "mroute" = "phyint")
        by (apply (prefix_free_one_match (verbs ++ operand_keywords) token);
            auto using words_prefix_free; simpl; tauto).
      discriminate Heq. }
    rewrite Hg, Hr, Hphy. cbn [line set_line].
    destruct (pop_token l) as [t l2] eqn:Hp2. simpl in Hnone. subst t.
    apply pop_token_none_line in Hp2. subst l2. reflexivity. }
  change (op (set_line l (init_locals do_vifs linebuf)) =? 0) with true. cbv iota.
  assert (Hloop :
    (do v <- select_verb lineno token (set_line l (init_locals do_vifs linebuf));
     match v with
     | Some s' =>
         do s'' <- operand token s';
         token_loop (String.length (Libc.c_str linebuf)) lineno s''
     | None =>
         token_loop (String.length (Libc.c_str linebuf)) lineno
           (set_line l (init_locals do_vifs linebuf))
     end) w =
    Result (inl (set_op 0 (set_line None (set_ifname None
                   (set_op 3 (set_line l (init_locals do_vifs linebuf))))))) w []).
  { rewrite (bind_done _ _ _ _ _ _ Hsel).
    rewrite (bind_done _ _ _ _ _ _ (operand_on_verb token _ w Hverb)).
    pose proof (fuel_of_pos l) as Hpos. cbn [fuel_of] in Hsh.
    rewrite (token_loop_fuel (String.length (Libc.c_str linebuf)) 1);
      [reflexivity|cbn; lia|cbn; lia]. }
  rewrite (bind_done _ _ _ _ _ _ Hloop). reflexivity.
Qed.

(** X7. A line results in at most one backend call. *)
Theorem line_makes_at_most_one_call (do_vifs lineno : Z) (linebuf : string) (w : world B) :
  (length (List.filter is_call (out (conf_line P do_vifs lineno linebuf w))) <= 1)%nat.
Proof.
  destruct (conf_line_outcome P do_vifs lineno linebuf w)
    as [unknown rd Hun Hd -> | unknown f Hun Hf ->]; cbn [out].
  - rewrite List.filter_app, (filter_none _ _ _ (unknown_not_call lineno) Hun). cbn [app].
    destruct Hd as [-> | c Hc -> | ra Ha ->]; cbn [out]; [simpl; lia|simpl; lia|].
    destruct Ha as [-> | Hv6 -> | adv e Hadv Hrej -> | adv c Hadv Hc -> | adv f Hadv Hf ->];
      cbn [out]; rewrite ?List.filter_app,
                   ?(filter_none _ _ _ (advisory_not_call lineno) Hadv); simpl; try lia.
    rewrite (rejection_not_call _ _ Hrej). simpl. lia.
  - rewrite (filter_none _ _ _ (unknown_not_call lineno) Hun). simpl. lia.
Qed.

Lemma set_op_same (s : locals) : set_op (op s) s = s.
Proof. destruct s; reflexivity. Qed.

Lemma operand_keeps_op (token : string) (s s' : locals) (w : world B) :
  res (operand token s w) = inl s' -> op s' = op s.
Proof.
  intros Hres. pose proof (operand_set_op token (op s) s w) as Hc.
  rewrite set_op_same in Hc. rewrite Hc in Hres. unfold with_op in Hres. cbn [res] in Hres.
  destruct (res (operand token s w)) as [s1|f]; [|discriminate].
  inversion Hres as [Hs]. reflexivity.
Qed.

(** X11. Once a verb is chosen it is never changed, and nothing on the rest
    of the line is reported any more: run with [op] other than 0, the loop
    over the tokens logs nothing and gives back the same [op].  A later verb
    and a word that is no keyword are passed over in silence. *)
Theorem verb_is_chosen_once (fuel : nat) (lineno : Z) (s : locals) (w : world B) :
  op s <> 0 ->
  out (token_loop fuel lineno s w) = [] /\
  forall s', res (token_loop fuel lineno s w) = inl s' -> op s' = op s.
Proof.
  revert s; induction fuel as [|fuel IH]; intros s Hop.
  - split; [reflexivity|discriminate].
  - cbn [token_loop].
    destruct (pop_token (line s)) as [[token|] l];
      [|split; [reflexivity|intros s' Hs; inversion Hs; reflexivity]].
    destruct (match_ (Some "#") (Some token));
      [split; [reflexivity|intros s' Hs; inversion Hs; reflexivity]|].
    cbn [op set_line]. replace (op s =? 0) with false by (symmetry; apply Z.eqb_neq; exact Hop).
    rewrite bind_ret.
    destruct (operand_quiet token (set_line l s) w) as (Hpost & Hout & _ & _).
    pose proof (operand_keeps_op token (set_line l s)) as Hkeep.
    unfold bind.
    destruct (res (operand token (set_line l s) w)) as [s1|f] eqn:Hres; cbn [res out].
    + specialize (Hkeep s1 w Hres). cbn [op set_line] in Hkeep.
      destruct (IH s1 ltac:(congruence)) as [Ho Hr].
      rewrite Hpost, Hout, Ho. split; [reflexivity|].
      intros s' Hs. rewrite (Hr s' Hs). exact Hkeep.
    + split; [exact Hout|discriminate].
Qed.

End Lines.

Lemma silent_line_does_nothing_witness :
  conf_line Demo.no_ipv6 1 4 (Demo.ln "  # phyint eth0 enable") Demo.w0 = Result (inl tt) Demo.w0 [] /\
  conf_line Demo.no_ipv6 1 4 (Demo.ln "phyint") Demo.w0 = Result (inl tt) Demo.w0 [] /\
  conf_line Demo.no_ipv6 1 4 (Demo.ln "") Demo.w0 = Result (inl tt) Demo.w0 [].
Proof.
  split; [|split].
  - apply (silent_line_does_nothing Demo.no_ipv6 1 4 (Demo.ln "  # phyint eth0 enable") Demo.w0).
    left. reflexivity.
  - apply (silent_line_does_nothing Demo.no_ipv6 1 4 (Demo.ln "phyint") Demo.w0).
    right. split; reflexivity.
  - apply (silent_line_does_nothing Demo.no_ipv6 1 4 (Demo.ln "") Demo.w0).
    exact I.
Defined.

Lemma verb_is_chosen_once_witness :
  out (token_loop 40 1 (set_op 1 (init_locals 0 (Demo.ln "mroute bogus from eth0"))) Demo.w0) = [] /\
  forall s',
    res (token_loop 40 1 (set_op 1 (init_locals 0 (Demo.ln "mroute bogus from eth0"))) Demo.w0)
      = inl s' -> op s' = 1.
Proof.
  apply (verb_is_chosen_once 40 1 (set_op 1 (init_locals 0 (Demo.ln "mroute bogus from eth0")))
           Demo.w0).
  simpl. lia.
Defined.

(** * The calls and the warnings of a pass *)

Section Calls.

Context {B : Type} `{Backend B}.
Variable P : platform.

Lemma outbound_loop_ttl_length idx w_bad w_same lineno ifname inbound outbound n i total ttl
    (w : world B) total' ttl' :
  res (outbound_loop idx w_bad w_same lineno ifname inbound outbound n i total ttl w)
    = inl (total', ttl') ->
  length ttl' = length ttl.
Proof.
  revert i total ttl; induction n as [|n IH]; intros i total ttl.
  - simpl. intros Heq; inversion Heq; reflexivity.
  - cbn [outbound_loop].
    destruct (outbound !! Z.to_nat i) as [[name|]|]; try discriminate.
    rewrite bind_get.
    destruct (iface_find_by_name (be w) name) as [ifc|];
      [destruct (idx ifc =? -1)|]; try (rewrite bind_WARN; cbn [res]; apply IH).
    assert (Hgo : res ((if (0 <=? idx ifc) && (idx ifc <? Z.of_nat (length ttl))
                        then outbound_loop idx w_bad w_same lineno ifname inbound outbound n
                               (i + 1) total (<[Z.to_nat (idx ifc):=threshold ifc]> ttl)
                        else raise (OOB_ttl (idx ifc))) w) = inl (total', ttl') ->
                  length ttl' = length ttl).
    { destruct ((0 <=? idx ifc) && (idx ifc <? Z.of_nat (length ttl))); [|discriminate].
      intros Hr. rewrite (IH _ _ _ Hr). apply length_insert. }
    destruct (idx ifc =? inbound); [rewrite bind_WARN; cbn [res]|rewrite bind_ret]; exact Hgo.
Qed.

Lemma warn_from_line lineno fmt args : from_line lineno (warn_event lineno fmt args).
Proof. simpl. eauto. Qed.

Lemma route_tail_from_line idx w_bad w_same w_none (route : list Z -> call)
    lineno ifname inbound outbound n total ttl (w : world B) :
  (forall t : list Z, length t = length ttl -> call_ok (route t)) ->
  Forall (from_line lineno)
    (out ((do r <- outbound_loop idx w_bad w_same lineno ifname inbound outbound n 0 total ttl;
           let '(total, ttl) := r in
           if total =? 0 then seq WARN lineno w_none []; ret 1
           else invoke (route ttl)) w)).
Proof.
  intros Hroute.
  destruct (outbound_loop_any idx w_bad w_same lineno ifname inbound outbound n 0 total ttl w)
    as (Hpost & Hout & _).
  pose proof (outbound_loop_ttl_length idx w_bad w_same lineno ifname inbound outbound n 0
                total ttl w) as Hlen.
  destruct (outbound_loop idx w_bad w_same lineno ifname inbound outbound n 0 total ttl w)
    as [x w' evs] eqn:E.
  simpl in Hpost, Hout, Hlen. subst w'.
  assert (Hevs : Forall (from_line lineno) evs).
  { eapply Forall_impl; [exact Hout|]. intros e [args [-> | ->]]; apply warn_from_line. }
  destruct x as [[total' ttl']|f].
  - rewrite (bind_done _ _ _ _ _ _ E). cbn [out].
    apply Forall_app. split; [exact Hevs|].
    destruct (total' =? 0).
    + rewrite bind_WARN. repeat constructor. apply warn_from_line.
    + repeat constructor. apply Hroute. apply (Hlen total' ttl' eq_refl).
  - rewrite (bind_fault _ _ _ _ _ _ E). exact Hevs.
Qed.

Ltac one_warning := rewrite bind_WARN; repeat constructor; apply warn_from_line.

Lemma join_mgroup_from_line lineno ifname source group (w : world B) :
  Forall (from_line lineno) (out (join_mgroup P lineno ifname source group w)).
Proof.
  assert (H4 : forall i g src, Forall (from_line lineno) (out (join_mgroup4 lineno i g src w))).
  { intros i g src. unfold join_mgroup4.
    destruct (Libc.inet_pton4 g) as [grp|]; [destruct (Libc.IN_MULTICAST grp) eqn:Hm|];
      try one_warning. repeat constructor. exact Hm. }
  assert (H6 : forall i g, Forall (from_line lineno) (out (join_mgroup6 P lineno i g w))).
  { intros i g. unfold join_mgroup6.
    destruct (inet_pton6 P g) as [grp|]; [destruct (IN6_IS_ADDR_MULTICAST grp) eqn:Hm|];
      try one_warning. repeat constructor. exact Hm. }
  unfold join_mgroup.
  destruct ifname as [ifname|]; [|constructor].
  destruct group as [group|]; [|constructor].
  destruct (Libc.strchr group ":").
  - destruct (negb (ipv6_enabled P)); [one_warning|].
    destruct source; [rewrite bind_WARN|rewrite bind_ret]; cbn [out];
      repeat constructor; auto using warn_from_line.
  - destruct source as [s|]; [|apply H4].
    destruct (Libc.inet_pton4 s); [apply H4|one_warning].
Qed.

Lemma add_mroute_from_line lineno ifname group source outbound num (w : world B) :
  Forall (from_line lineno) (out (add_mroute P lineno ifname group source outbound num w)).
Proof.
  unfold add_mroute.
  destruct ifname as [ifname|]; [|constructor].
  destruct group as [group|]; [|constructor].
  destruct (num =? 0); [constructor|].
  destruct (Libc.strchr group ":").
  - destruct (negb (ipv6_enabled P)); [one_warning|].
    unfold add_mroute6. rewrite bind_get. cbv zeta.
    destruct (iface_get_mif_by_name (be w) ifname <? 0) eqn:Hin; [one_warning|].
    apply Z.ltb_ge in Hin.
    destruct (match source with Some s => inet_pton6 P s | None => None end) as [src|];
      [|one_warning].
    destruct (inet_pton6 P group) as [grp|];
      [destruct (IN6_IS_ADDR_MULTICAST grp) eqn:Hm|]; try one_warning.
    apply route_tail_from_line. intros t Ht. rewrite length_replicate in Ht.
    repeat split; cbn; auto. rewrite Ht. apply Z2Nat.id. unfold MAXMIFS. lia.
  - unfold add_mroute4. rewrite bind_get. cbv zeta.
    destruct (iface_get_vif_by_name (be w) ifname <? 0) eqn:Hin; [one_warning|].
    apply Z.ltb_ge in Hin.
    assert (Hgroup : forall src g len, 0 <= len <= 32 -> (len <> 0 -> src = Libc.INADDR_ANY) ->
              Forall (from_line lineno)
                (out (add_mroute4_group lineno ifname (iface_get_vif_by_name (be w) ifname)
                        src g len outbound num w))).
    { intros src g len Hlen Hsrc. unfold add_mroute4_group.
      destruct (Libc.inet_pton4 g) as [grp|];
        [destruct (Libc.IN_MULTICAST grp) eqn:Hm|]; try one_warning.
      apply route_tail_from_line. intros t Ht. rewrite length_replicate in Ht.
      repeat split; cbn; auto; try lia. rewrite Ht. apply Z2Nat.id. unfold MAXVIFS. lia. }
    assert (Hprefix : forall src,
              Forall (from_line lineno)
                (out (add_mroute4_prefix lineno ifname (iface_get_vif_by_name (be w) ifname)
                        src group outbound num w))).
    { intros src. unfold add_mroute4_prefix.
      destruct (Libc.strchr_split group "/") as [[g ptr]|].
      - destruct (src =? Libc.INADDR_ANY) eqn:Hs; cbn [negb]; [|one_warning].
        apply Z.eqb_eq in Hs. cbv zeta.
        destruct ((Libc.atoi ptr <? 0) || (32 <? Libc.atoi ptr)) eqn:Hl; [one_warning|].
        apply orb_false_elim in Hl. destruct Hl as [H0 H32].
        apply Z.ltb_ge in H0, H32. apply Hgroup; [lia|auto].
      - apply Hgroup; [lia|congruence]. }
    destruct source as [s|]; [|apply Hprefix].
    destruct (Libc.inet_pton4 s); [apply Hprefix|one_warning].
Qed.

Lemma apply_directive_from_line lineno (s : locals) (w : world B) :
  Forall (from_line lineno) (out (apply_directive P lineno s w)).
Proof.
  unfold apply_directive.
  destruct (op s =? 1); [rewrite discard_result; apply join_mgroup_from_line|].
  destruct (op s =? 2); [rewrite discard_result; apply add_mroute_from_line|].
  destruct (op s =? 3); [|constructor].
  destruct (negb (enable s =? 0)); rewrite discard_result; repeat constructor.
Qed.

Lemma out_then_ret {A C} (m : M B A) (c : C) (w : world B) :
  out ((seq m; ret c) w) = out (m w).
Proof.
  unfold bind, ret. destruct (res (m w)); cbn [out]; [apply app_nil_r|reflexivity].
Qed.

(** The run of a line, cut at the end of the loop over its tokens. *)
Lemma conf_line_run do_vifs lineno linebuf (w : world B) :
  exists unknown, Forall (is_unknown_warning lineno) unknown /\
    ((exists i v, conf_line P do_vifs lineno linebuf w = Result (inr (OOB_dest i v)) w unknown /\
                  res (token_loop (fuel_of (line (init_locals do_vifs linebuf))) lineno
                         (init_locals do_vifs linebuf) w) = inr (OOB_dest i v)) \/
     (exists s, res (token_loop (fuel_of (line (init_locals do_vifs linebuf))) lineno
                       (init_locals do_vifs linebuf) w) = inl s /\
                conf_line P do_vifs lineno linebuf w =
                Result (res (apply_directive P lineno s w)) (post (apply_directive P lineno s w))
                       (unknown ++ out (apply_directive P lineno s w)))).
Proof.
  unfold conf_line. cbv zeta.
  destruct (token_loop_facts (fuel_of (line (init_locals do_vifs linebuf))) lineno
              (init_locals do_vifs linebuf) w) as (Hpost & Hout & Hflt).
  destruct (token_loop _ lineno (init_locals do_vifs linebuf) w) as [x w' evs] eqn:E.
  simpl in Hpost, Hout, Hflt. subst w'. exists evs. split; [exact Hout|].
  destruct x as [s|f].
  - right. exists s. split; [reflexivity|]. rewrite (bind_done _ _ _ _ _ _ E). reflexivity.
  - left. destruct (Hflt f eq_refl) as [[_ Hno]|(i & v & ->)]; [exfalso; apply Hno; lia|].
    exists i, v. split; [|reflexivity]. rewrite (bind_fault _ _ _ _ _ _ E). reflexivity.
Qed.

Lemma conf_line_from_line do_vifs lineno linebuf (w : world B) :
  Forall (from_line lineno) (out (conf_line P do_vifs lineno linebuf w)).
Proof.
  destruct (conf_line_run do_vifs lineno linebuf w)
    as (unknown & Hun & [(i & v & -> & _) | (s & _ & ->)]); cbn [out].
  - eapply Forall_impl; [exact Hun|]. intros e (tok & ->). apply warn_from_line.
  - apply Forall_app. split; [|apply apply_directive_from_line].
    eapply Forall_impl; [exact Hun|]. intros e (tok & ->). apply warn_from_line.
Qed.

(** Every event of the loop over the lines is an event of one of the
    lines, run under its line number. *)
Lemma conf_lines_event (fuel : nat) (do_vifs lineno : Z) (fp : string) (w : world B)
    (e : event) :
  In e (out (conf_lines P fuel do_vifs lineno fp w)) ->
  exists (k : nat) linebuf (w' : world B),
    file_lines fuel fp !! k = Some linebuf /\
    In e (out (conf_line P do_vifs (lineno + Z.of_nat k) linebuf w')).
Proof.
  revert lineno fp w; induction fuel as [|fuel IH]; intros lineno fp w; [intros []|].
  cbn [conf_lines file_lines].
  destruct (fgets MAX_LINE_LEN fp) as [[linebuf fp']|]; [|intros []].
  unfold bind.
  destruct (res (conf_line P do_vifs lineno linebuf w)) as [[]|f]; cbn [out].
  - intros Hin. apply in_app_or in Hin. destruct Hin as [Hin|Hin].
    + exists 0%nat, linebuf, w. split; [reflexivity|]. rewrite Z.add_0_r. exact Hin.
    + destruct (IH _ _ _ Hin) as (k & l & w' & Hk & He).
      exists (S k), l, w'. split; [exact Hk|].
      replace (lineno + Z.of_nat (S k)) with (lineno + 1 + Z.of_nat k) by lia. exact He.
  - intros Hin. exists 0%nat, linebuf, w. split; [reflexivity|]. rewrite Z.add_0_r. exact Hin.
Qed.

(** X8. Every call that a run of [conf_read] makes has validated
    operands: a group handed to [mcgroup4_join] or [mcgroup6_join] is a
    multicast address; a route handed to [mroute4_add] has an inbound index
    that is not negative, a multicast group, a prefix length from 0 to 32, the
    wildcard source whenever the prefix length is not 0, and a TTL vector of
    MAXVIFS slots; a route handed to [mroute6_add] has an inbound index that
    is not negative, a multicast group and a TTL vector of MAXMIFS slots. *)
Theorem calls_have_validated_operands (h : host) (file : string) (do_vifs : Z)
    (w : world B) (c : call) :
  In (Call c) (out (conf_read P h file do_vifs w)) -> call_ok c.
Proof.
  rewrite conf_read_events.
  destruct (access_R_OK h file) as [e|].
  { destruct (e =? ENOENT); intros [Hc|[Hc|[]]]; discriminate. }
  intros Hin. apply in_app_or in Hin. destruct Hin as [Hin|Hin].
  - unfold conf_parse in Hin.
    destruct (fopen_r h file) as [e|fp]; [destruct Hin|].
    destruct (malloc_linebuf h) as [e|]; [destruct Hin|].
    rewrite out_then_ret in Hin.
    destruct (conf_lines_event _ _ _ _ _ _ Hin) as (k & l & w' & _ & He).
    pose proof (conf_line_from_line do_vifs (1 + Z.of_nat k) l w') as Hall.
    rewrite List.Forall_forall in Hall. exact (Hall _ He).
  - destruct (res (conf_parse P h file do_vifs w)) as [r|f]; [|destruct Hin].
    destruct (r =? 0); destruct Hin as [Hc|[]]; inversion Hc. exact I.
Qed.


End Calls.

(** * What can go wrong in a line *)

Section Memory.

Context {B : Type} `{Backend B}.
Variable P : platform.

Lemma init_locals_filled do_vifs linebuf : dest_filled (init_locals do_vifs linebuf).
Proof.
  unfold dest_filled. split; [reflexivity|]. split; [cbn; lia|].
  intros i Hi. cbn in Hi. lia.
Qed.

Lemma dest_filled_same (s s' : locals) :
  dest s' = dest s -> num s' = num s -> dest_filled s -> dest_filled s'.
Proof. unfold dest_filled. intros -> ->. auto. Qed.

Lemma to_loop_filled (fuel : nat) (s : locals) (w : world B) :
  dest_filled s ->
  (forall s', res (to_loop fuel s w) = inl s' -> dest_filled s') /\
  (forall f, res (to_loop fuel s w) = inr f -> f = OutOfFuel \/ exists v, f = OOB_dest 32 v).
Proof.
  revert s; induction fuel as [|fuel IH]; intros s (Hlen & Hnum & Hnames).
  { split; [discriminate|]. intros f Hf; inversion Hf; auto. }
  cbn [to_loop]. destruct (pop_token (line s)) as [tok l'].
  rewrite Hlen.
  destruct ((0 <=? num s) && (num s <? Z.of_nat 32)) eqn:Hb.
  - apply andb_prop in Hb. destruct Hb as [_ Hlt]. apply Z.ltb_lt in Hlt.
    destruct tok as [t|].
    + apply IH. repeat split; cbn [dest num set_num set_line set_dest].
      * rewrite length_insert. exact Hlen.
      * lia.
      * lia.
      * intros i Hi. destruct (Nat.eq_dec i (Z.to_nat (num s))) as [-> | Hne].
        -- exists t. apply list_lookup_insert_eq. lia.
        -- rewrite list_lookup_insert_ne by lia. apply Hnames. lia.
    + split; [|discriminate]. intros s' Hs'. inversion Hs'; subst s'.
      repeat split; cbn [dest num set_num set_line set_dest]; try lia.
      * rewrite length_insert. exact Hlen.
      * intros i Hi. rewrite list_lookup_insert_ne by lia. apply Hnames. exact Hi.
  - split; [discriminate|]. intros f Hf. inversion Hf; subst f. right.
    assert (num s = 32).
    { apply andb_false_iff in Hb. destruct Hb as [Hb|Hb];
        [apply Z.leb_gt in Hb|apply Z.ltb_ge in Hb]; lia. }
    exists tok. congruence.
Qed.

Lemma operand_filled (token : string) (s : locals) (w : world B) :
  dest_filled s ->
  (forall s', res (operand token s w) = inl s' -> dest_filled s') /\
  (forall f, res (operand token s w) = inr f -> exists v, f = OOB_dest 32 v).
Proof.
  intros Hs. unfold operand.
  repeat match goal with
  | |- context [if match_ ?a ?b then _ else _] => destruct (match_ a b)
  end;
  try (destruct (pop_token (line s)) as [t l]).
  7: destruct t as [t|]; [destruct ((1 <=? Libc.atoi t) || (Libc.atoi t <=? 255))|].
  all: try (split; [|discriminate]; intros s' Hs'; inversion Hs'; subst s';
            apply (dest_filled_same s); auto).
  destruct (to_loop_filled (fuel_of (line s)) s w Hs) as [Hok Hflt].
  split; [exact Hok|]. intros f Hf.
  destruct (Hflt f Hf) as [-> | Hv]; [|exact Hv].
  destruct (to_loop_quiet (fuel_of (line s)) s w) as (_ & _ & _ & Hq).
  destruct (Hq _ Hf) as [[_ Hno]|(i & v & Hiv)]; [exfalso; apply Hno; lia|discriminate].
Qed.

Lemma select_verb_filled lineno (token : string) (s s' : locals) (w : world B) :
  dest_filled s -> res (select_verb lineno token s w) = inl (Some s') -> dest_filled s'.
Proof.
  intros Hs. unfold select_verb.
  repeat match goal with
  | |- context [if match_ ?a ?b then _ else _] => destruct (match_ a b)
  end;
  try (destruct (pop_token (line s)) as [[t|] l]);
  try (rewrite bind_WARN); cbn [res ret];
  intros Heq; inversion Heq; subst s'; apply (dest_filled_same s); auto.
Qed.

Lemma token_loop_filled (fuel : nat) (lineno : Z) (s : locals) (w : world B) :
  dest_filled s ->
  (forall s', res (token_loop fuel lineno s w) = inl s' -> dest_filled s') /\
  (forall f, res (token_loop fuel lineno s w) = inr f ->
     f = OutOfFuel \/ exists v, f = OOB_dest 32 v).
Proof.
  revert s; induction fuel as [|fuel IH]; intros s Hs.
  { split; [discriminate|]. intros f Hf; inversion Hf; auto. }
  cbn [token_loop].
  destruct (pop_token (line s)) as [[token|] l].
  2:{ split; [|discriminate]. intros s' Hs'; inversion Hs'; subst s'.
      apply (dest_filled_same s); auto. }
  destruct (match_ (Some "#") (Some token)).
  { split; [|discriminate]. intros s' Hs'; inversion Hs'; subst s'.
    apply (dest_filled_same s); auto. }
  assert (Hl : dest_filled (set_line l s)) by (apply (dest_filled_same s); auto).
  assert (Hsel :
    (exists s1, (if op (set_line l s) =? 0
                 then select_verb lineno token (set_line l s)
                 else ret (Some (set_line l s))) w = Result (inl (Some s1)) w []
                /\ dest_filled s1) \/
    (if op (set_line l s) =? 0
     then select_verb lineno token (set_line l s)
     else ret (Some (set_line l s))) w =
      Result (inl None) w [warn_event lineno W_unknown_command [AStr token]]).
  { destruct (op (set_line l s) =? 0).
    - destruct (select_verb_cases lineno token (set_line l s) w) as [(s1 & Hs1 & _)|Hn];
        [left|right; exact Hn].
      exists s1. split; [exact Hs1|].
      apply (select_verb_filled lineno token (set_line l s) s1 w Hl). rewrite Hs1. reflexivity.
    - left. eexists; split; [reflexivity|exact Hl]. }
  destruct Hsel as [(s1 & Hs1 & Hf1)| Hnone].
  - rewrite (bind_done _ _ _ _ _ _ Hs1). cbn [res].
    destruct (operand_filled token s1 w Hf1) as [Hok Hflt].
    destruct (operand_quiet token s1 w) as (Hpost & _ & _ & _).
    unfold bind.
    destruct (res (operand token s1 w)) as [s2|f] eqn:Hres; cbn [res].
    + rewrite Hpost. apply IH. apply Hok. reflexivity.
    + split; [discriminate|]. intros f' Hf'. inversion Hf'; subst f'. right. apply Hflt.
      reflexivity.
  - rewrite (bind_done _ _ _ _ _ _ Hnone). cbn [res]. apply IH. exact Hl.
Qed.

(** The loop over the outbound names, on an array whose entries from [i]
    on hold names: it can only stop at a store outside the TTL vector. *)
Lemma outbound_loop_fault idx w_bad w_same lineno ifname inbound outbound n i total ttl
    (w : world B) (f : fault) :
  0 <= i ->
  (forall j, (Z.to_nat i <= j < Z.to_nat i + n)%nat ->
             exists name, outbound !! j = Some (Some name)) ->
  res (outbound_loop idx w_bad w_same lineno ifname inbound outbound n i total ttl w) = inr f ->
  exists name ifc, iface_find_by_name (be w) name = Some ifc /\
    f = OOB_ttl (idx ifc) /\ idx ifc <> -1 /\ ~ (0 <= idx ifc < Z.of_nat (length ttl)).
Proof.
  revert i total ttl; induction n as [|n IH]; intros i total ttl Hi Hnames; [discriminate|].
  cbn [outbound_loop].
  destruct (Hnames (Z.to_nat i) ltac:(lia)) as [name ->].
  rewrite bind_get.
  assert (Hnext : forall j, (Z.to_nat (i + 1) <= j < Z.to_nat (i + 1) + n)%nat ->
                            exists name, outbound !! j = Some (Some name)).
  { intros j Hj. apply Hnames. lia. }
  destruct (iface_find_by_name (be w) name) as [ifc|] eqn:Hfind.
  2:{ rewrite bind_WARN. cbn [res]. apply IH; [lia|exact Hnext]. }
  destruct (idx ifc =? -1) eqn:Hm1.
  { rewrite bind_WARN. cbn [res]. apply IH; [lia|exact Hnext]. }
  apply Z.eqb_neq in Hm1.
  assert (Hgo : res ((if (0 <=? idx ifc) && (idx ifc <? Z.of_nat (length ttl))
                      then outbound_loop idx w_bad w_same lineno ifname inbound outbound n
                             (i + 1) total (<[Z.to_nat (idx ifc):=threshold ifc]> ttl)
                      else raise (OOB_ttl (idx ifc))) w) = inr f ->
                exists name ifc, iface_find_by_name (be w) name = Some ifc /\
                  f = OOB_ttl (idx ifc) /\ idx ifc <> -1 /\
                  ~ (0 <= idx ifc < Z.of_nat (length ttl))).
  { destruct ((0 <=? idx ifc) && (idx ifc <? Z.of_nat (length ttl))) eqn:Hb.
    - intros Hr.
      destruct (IH (i + 1) total (<[Z.to_nat (idx ifc):=threshold ifc]> ttl)
                  ltac:(lia) Hnext Hr) as (nm & ic & H1 & H2 & H3 & H4).
      rewrite length_insert in H4. eauto 8.
    - intros Hr. inversion Hr; subst f. exists name, ifc. repeat split; auto.
      apply andb_false_iff in Hb. destruct Hb as [Hb|Hb];
        [apply Z.leb_gt in Hb|apply Z.ltb_ge in Hb]; lia. }
  destruct (idx ifc =? inbound); [rewrite bind_WARN; cbn [res]|rewrite bind_ret]; exact Hgo.
Qed.

Lemma route_tail_fault idx w_bad w_same w_none (route : list Z -> call)
    lineno ifname inbound outbound n total ttl (w : world B) (f : fault) :
  (forall j, (j < n)%nat -> exists name, outbound !! j = Some (Some name)) ->
  res ((do r <- outbound_loop idx w_bad w_same lineno ifname inbound outbound n 0 total ttl;
        let '(total, ttl) := r in
        if total =? 0 then seq WARN lineno w_none []; ret 1
        else invoke (route ttl)) w) = inr f ->
  exists name ifc, iface_find_by_name (be w) name = Some ifc /\
    f = OOB_ttl (idx ifc) /\ idx ifc <> -1 /\ ~ (0 <= idx ifc < Z.of_nat (length ttl)).
Proof.
  intros Hnames. unfold bind.
  destruct (res (outbound_loop idx w_bad w_same lineno ifname inbound outbound n 0 total ttl w))
    as [[total' ttl']|f'] eqn:Hres; cbn [res].
  - destruct (total' =? 0); discriminate.
  - intros Hf. inversion Hf; subst f'.
    apply (outbound_loop_fault idx w_bad w_same lineno ifname inbound outbound n 0 total ttl w);
      [lia| |exact Hres].
    intros j Hj. apply Hnames. simpl in Hj. lia.
Qed.

Lemma add_mroute_fault lineno ifname group source outbound num (w : world B) (f : fault) :
  (forall j, (j < Z.to_nat num)%nat -> exists name, outbound !! j = Some (Some name)) ->
  res (add_mroute P lineno ifname group source outbound num w) = inr f ->
  index_out_of_range (be w) f.
Proof.
  intros Hnames. unfold add_mroute.
  destruct ifname as [ifname|]; [|discriminate].
  destruct group as [group|]; [|discriminate].
  destruct (num =? 0); [discriminate|].
  destruct (Libc.strchr group ":").
  - destruct (negb (ipv6_enabled P)); [discriminate|].
    unfold add_mroute6. rewrite bind_get. cbv zeta.
    destruct (iface_get_mif_by_name (be w) ifname <? 0); [discriminate|].
    destruct (match source with Some s => inet_pton6 P s | None => None end) as [src|];
      [|discriminate].
    destruct (inet_pton6 P group) as [grp|];
      [destruct (IN6_IS_ADDR_MULTICAST grp)|]; try discriminate.
    intros Hf. apply route_tail_fault in Hf; [|exact Hnames].
    destruct Hf as (name & ifc & H1 & H2 & H3 & H4). rewrite length_replicate in H4.
    exists name, ifc. split; [exact H1|]. right. repeat split; auto.
  - unfold add_mroute4. rewrite bind_get. cbv zeta.
    destruct (iface_get_vif_by_name (be w) ifname <? 0); [discriminate|].
    assert (Hgroup : forall src g len,
              res (add_mroute4_group lineno ifname (iface_get_vif_by_name (be w) ifname)
                     src g len outbound num w) = inr f -> index_out_of_range (be w) f).
    { intros src g len. unfold add_mroute4_group.
      destruct (Libc.inet_pton4 g) as [grp|];
        [destruct (Libc.IN_MULTICAST grp)|]; try discriminate.
      intros Hf. apply route_tail_fault in Hf; [|exact Hnames].
      destruct Hf as (name & ifc & H1 & H2 & H3 & H4). rewrite length_replicate in H4.
      exists name, ifc. split; [exact H1|]. left. repeat split; auto. }
    assert (Hprefix : forall src,
              res (add_mroute4_prefix lineno ifname (iface_get_vif_by_name (be w) ifname)
                     src group outbound num w) = inr f -> index_out_of_range (be w) f).
    { intros src. unfold add_mroute4_prefix.
      destruct (Libc.strchr_split group "/") as [[g ptr]|]; [|apply Hgroup].
      destruct (negb (src =? Libc.INADDR_ANY)); [discriminate|]. cbv zeta.
      destruct ((Libc.atoi ptr <? 0) || (32 <? Libc.atoi ptr)); [discriminate|apply Hgroup]. }
    destruct source as [s|]; [|apply Hprefix].
    destruct (Libc.inet_pton4 s); [apply Hprefix|discriminate].
Qed.

Lemma join_mgroup_no_fault lineno ifname source group (w : world B) (f : fault) :
  res (join_mgroup P lineno ifname source group w) <> inr f.
Proof.
  unfold join_mgroup, join_mgroup4, join_mgroup6.
  destruct ifname as [ifname|]; [|discriminate].
  destruct group as [group|]; [|discriminate].
  destruct (Libc.strchr group ":").
  - destruct (negb (ipv6_enabled P)); [discriminate|].
    destruct source; [rewrite bind_WARN|rewrite bind_ret]; cbn [res];
      (destruct (inet_pton6 P group) as [grp|];
       [destruct (IN6_IS_ADDR_MULTICAST grp)|]); discriminate.
  - destruct source as [s|]; [destruct (Libc.inet_pton4 s)|];
      try discriminate;
      (destruct (Libc.inet_pton4 group) as [grp|];
       [destruct (Libc.IN_MULTICAST grp)|]); discriminate.
Qed.

(** X10. The run of a line can go wrong in two ways only.  The loop of
    [to] stores past the end of [dest], always at [dest[32]]; or
    [add_mroute] stores into the TTL vector at the index of an interface of
    the table that is neither -1 nor inside the vector.  In particular
    [add_mroute] never reads a slot of [dest] that the loop of [to] has not
    filled with a name, and the fuel of the loops is never used up. *)
Theorem line_faults (do_vifs lineno : Z) (linebuf : string) (w : world B) (f : fault) :
  res (conf_line P do_vifs lineno linebuf w) = inr f ->
  (exists v, f = OOB_dest 32 v) \/ index_out_of_range (be w) f.
Proof.
  destruct (conf_line_run P do_vifs lineno linebuf w)
    as (unknown & _ & [(i & v & -> & Hloop) | (s & Hloop & ->)]); cbn [res].
  - intros Hf. inversion Hf; subst f. left.
    destruct (token_loop_filled (fuel_of (line (init_locals do_vifs linebuf))) lineno
                (init_locals do_vifs linebuf) w (init_locals_filled do_vifs linebuf))
      as [_ Hflt].
    destruct (Hflt _ Hloop) as [Hfuel | (v' & Hv)]; [discriminate|]. eauto.
  - destruct (token_loop_filled (fuel_of (line (init_locals do_vifs linebuf))) lineno
                (init_locals do_vifs linebuf) w (init_locals_filled do_vifs linebuf))
      as [Hok _].
    destruct (Hok s Hloop) as (Hlen & Hnum & Hnames).
    unfold apply_directive.
    destruct (op s =? 1).
    { rewrite discard_result. cbn [res]. intros Hf.
      destruct (res (join_mgroup P lineno (ifname s) (source s) (group s) w)) as [r|f'] eqn:Hr;
        [discriminate|]. exfalso. exact (join_mgroup_no_fault _ _ _ _ _ _ Hr). }
    destruct (op s =? 2).
    { rewrite discard_result. cbn [res]. intros Hf. right.
      destruct (res (add_mroute P lineno (ifname s) (group s) (source s) (dest s) (num s) w))
        as [r|f'] eqn:Hr; [discriminate|]. inversion Hf; subst f'.
      exact (add_mroute_fault _ _ _ _ _ _ _ _ Hnames Hr). }
    destruct (op s =? 3); [|discriminate].
    destruct (negb (enable s =? 0)); discriminate.
Qed.

End Memory.

Lemma line_faults_witness :
  (exists v, OOB_dest 32 (Some "n33") = OOB_dest 32 v) \/
  index_out_of_range (be Demo.w0) (OOB_dest 32 (Some "n33")).
Proof.
  apply (line_faults Demo.no_ipv6 0 1
           (Demo.ln (String.append "mroute from eth0 group 225.1.2.3 to " names33)) Demo.w0).
  reflexivity.
Defined.

Lemma calls_have_validated_operands_witness :
  call_ok (mroute4_add {| m4_inbound := 0; m4_source := 0; m4_group := 0xef010000;
                          m4_len := 16; m4_ttl := 0 :: 5 :: replicate 30 0 |}).
Proof.
  apply (calls_have_validated_operands Demo.no_ipv6
           (Demo.host_with (Demo.ln "mroute from eth0 group 239.1.0.0/16 to eth1"))
           "smcroute.conf" 0 Demo.w0).
  vm_compute. left. reflexivity.
Defined.


(** * Slots and their keywords *)

Lemma tokens_fuel (f1 f2 : nat) (l : option string) :
  (fuel_of l <= f1)%nat -> (fuel_of l <= f2)%nat -> tokens f1 l = tokens f2 l.
Proof.
  revert f2 l; induction f1 as [|f1 IH]; intros f2 l H1 H2.
  - pose proof (fuel_of_pos l). lia.
  - destruct f2 as [|f2]; [pose proof (fuel_of_pos l); lia|].
    cbn [tokens]. destruct (pop_token l) as [[t|] l'] eqn:Hp; [|reflexivity].
    pose proof (pop_token_shrinks _ _ _ Hp). f_equal. apply IH; lia.
Qed.

Lemma tokens_pop (f : nat) (l : option string) (t : string) (l' : option string) :
  (fuel_of l <= f)%nat -> pop_token l = (Some t, l') -> tokens f l = t :: tokens f l'.
Proof.
  intros Hf Hp. pose proof (pop_token_shrinks _ _ _ Hp) as Hsh.
  destruct f as [|f]; [pose proof (fuel_of_pos l); lia|].
  assert (Hs : tokens (S f) l = t :: tokens f l') by (cbn [tokens]; rewrite Hp; reflexivity).
  rewrite Hs. f_equal. apply tokens_fuel; lia.
Qed.

Lemma tokens_end (f : nat) : tokens f None = [].
Proof. destruct f; reflexivity. Qed.

Lemma later_tokens_refl (f : nat) (l : option string) : later_tokens f l l.
Proof. exists []. reflexivity. Qed.

Lemma later_tokens_pop (f : nat) (l : option string) (t l' : option string) :
  (fuel_of l <= f)%nat -> pop_token l = (t, l') -> later_tokens f l l'.
Proof.
  intros Hf Hp. destruct t as [t|].
  - exists [t]. rewrite (tokens_pop f l t l' Hf Hp). reflexivity.
  - apply pop_token_none_line in Hp. subst l'. exists (tokens f l).
    rewrite tokens_end, app_nil_r. reflexivity.
Qed.

Lemma absent_one (k t : string) : absent k [t] <-> match_ (Some k) (Some t) = false.
Proof.
  unfold absent. split.
  - intros Ha. inversion Ha; assumption.
  - intros Hm. repeat constructor. exact Hm.
Qed.

Lemma kept_same (toks : list string) (s s' : locals) :
  enable s' = enable s -> l_threshold s' = l_threshold s -> source s' = source s ->
  group s' = group s -> dest s' = dest s -> num s' = num s -> ifname s' = ifname s ->
  kept toks s s'.
Proof. unfold kept. intuition. Qed.

Lemma kept_trans (a b all : list string) (s s1 s2 : locals) :
  (forall k, absent k all -> absent k a /\ absent k b) ->
  kept a s s1 -> kept b s1 s2 -> kept all s s2.
Proof.
  unfold kept. intros Hall (A1 & A2 & A3 & A4 & A5 & A6) (B1 & B2 & B3 & B4 & B5 & B6).
  repeat split.
  - intros He Hd. destruct (Hall _ He), (Hall _ Hd). rewrite B1, A1; auto.
  - intros Ht. destruct (Hall _ Ht). rewrite B2, A2; auto.
  - intros Ht. destruct (Hall _ Ht). rewrite B3, A3; auto.
  - intros Ht. destruct (Hall _ Ht). rewrite B4, A4; auto.
  - destruct (Hall _ H) as [Ha Hb]. destruct (B5 Hb) as [-> _]. apply (A5 Ha).
  - destruct (Hall _ H) as [Ha Hb]. destruct (B5 Hb) as [_ ->]. apply (A5 Ha).
  - intros Hf Hp. destruct (Hall _ Hf), (Hall _ Hp). rewrite B6, A6; auto.
Qed.

Ltac slot_case :=
  unfold kept; repeat split; intros; auto;
  repeat match goal with Ha : absent _ [_] |- _ => apply absent_one in Ha end;
  congruence.

Section Slots.

Context {B : Type} `{Backend B}.

Lemma to_loop_keeps (fuel : nat) (s s' : locals) (w : world B) :
  res (to_loop fuel s w) = inl s' ->
  line s' = None /\ enable s' = enable s /\ l_threshold s' = l_threshold s /\
  ifname s' = ifname s /\ source s' = source s /\ group s' = group s.
Proof.
  revert s; induction fuel as [|fuel IH]; intros s; [discriminate|].
  cbn [to_loop]. destruct (pop_token (line s)) as [tok l'] eqn:Hp.
  destruct ((0 <=? num s) && (num s <? Z.of_nat (length (dest s)))); [|discriminate].
  destruct tok as [t|].
  - intros Hr. apply IH in Hr. exact Hr.
  - apply pop_token_none_line in Hp. subst l'.
    intros Hr. inversion Hr; subst s'. repeat split.
Qed.

(** One token through the chain of operand keywords. *)
Lemma operand_kept (f : nat) (token : string) (s s' : locals) (w : world B) :
  (fuel_of (line s) <= f)%nat ->
  res (operand token s w) = inl s' ->
  kept [token] s s' /\ later_tokens f (line s) (line s').
Proof.
  intros Hf. unfold operand.
  destruct (match_ (Some "from") (Some token)) eqn:Mfrom.
  { destruct (pop_token (line s)) as [t l] eqn:Hp. intros Hr; inversion Hr; subst s'.
    split; [|apply (later_tokens_pop f _ t l Hf Hp)].
    slot_case. }
  destruct (match_ (Some "source") (Some token)) eqn:Msource.
  { destruct (pop_token (line s)) as [t l] eqn:Hp. intros Hr; inversion Hr; subst s'.
    split; [|apply (later_tokens_pop f _ t l Hf Hp)].
    slot_case. }
  destruct (match_ (Some "group") (Some token)) eqn:Mgroup.
  { destruct (pop_token (line s)) as [t l] eqn:Hp. intros Hr; inversion Hr; subst s'.
    split; [|apply (later_tokens_pop f _ t l Hf Hp)].
    slot_case. }
  destruct (match_ (Some "to") (Some token)) eqn:Mto.
  { intros Hr. destruct (to_loop_keeps _ _ _ _ Hr) as (Hl & He & Ht & Hi & Hs & Hg).
    split.
    - slot_case.
    - rewrite Hl. exists (tokens f (line s)). rewrite tokens_end, app_nil_r. reflexivity. }
  destruct (match_ (Some "enable") (Some token)) eqn:Menable.
  { intros Hr; inversion Hr; subst s'. split; [|apply later_tokens_refl].
    slot_case. }
  destruct (match_ (Some "disable") (Some token)) eqn:Mdisable.
  { intros Hr; inversion Hr; subst s'. split; [|apply later_tokens_refl].
    slot_case. }
  destruct (match_ (Some "ttl-threshold") (Some token)) eqn:Mttl.
  { destruct (pop_token (line s)) as [t l] eqn:Hp.
    assert (Hk : forall s0, enable s0 = enable s -> source s0 = source s -> group s0 = group s ->
                            dest s0 = dest s -> num s0 = num s -> ifname s0 = ifname s ->
                            kept [token] s s0).
    { intros s0 ? ? ? ? ? ?. slot_case. }
    destruct t as [t|]; [destruct ((1 <=? Libc.atoi t) || (Libc.atoi t <=? 255))|];
      intros Hr; inversion Hr; subst s';
      (split; [apply Hk; reflexivity|exact (later_tokens_pop f _ _ l Hf Hp)]). }
  intros Hr; inversion Hr; subst s'. split; [|apply later_tokens_refl].
  apply kept_same; reflexivity.
Qed.

Lemma select_verb_kept (f : nat) lineno (token : string) (s s' : locals) (w : world B) :
  (fuel_of (line s) <= f)%nat ->
  res (select_verb lineno token s w) = inl (Some s') ->
  kept [token] s s' /\ later_tokens f (line s) (line s').
Proof.
  intros Hf. unfold select_verb.
  destruct (match_ (Some "mgroup") (Some token)).
  { intros Hr; inversion Hr; subst s'. split; [apply kept_same; reflexivity|apply later_tokens_refl]. }
  destruct (match_ (Some "mroute") (Some token)).
  { intros Hr; inversion Hr; subst s'. split; [apply kept_same; reflexivity|apply later_tokens_refl]. }
  destruct (match_ (Some "phyint") (Some token)) eqn:Mphy.
  { destruct (pop_token (line s)) as [t l] eqn:Hp.
    assert (Hk : forall s0, enable s0 = enable s -> l_threshold s0 = l_threshold s ->
                            source s0 = source s -> group s0 = group s ->
                            dest s0 = dest s -> num s0 = num s -> kept [token] s s0).
    { intros s0 ? ? ? ? ? ?. slot_case. }
    destruct t as [t|]; intros Hr; inversion Hr; subst s';
      (split; [apply Hk; reflexivity|exact (later_tokens_pop f _ _ l Hf Hp)]). }
  destruct (match_ (Some "ssmgroup") (Some token)).
  { intros Hr; inversion Hr; subst s'. split; [apply kept_same; reflexivity|apply later_tokens_refl]. }
  rewrite bind_WARN. discriminate.
Qed.

Lemma absent_split (k : string) (t : string) (pre rest : list string) :
  absent k (t :: pre ++ rest) -> absent k [t] /\ absent k rest.
Proof.
  unfold absent. intros Ha. inversion Ha as [|x l Ht Hl]; subst.
  apply Forall_app in Hl. destruct Hl as [_ Hr]. split; [repeat constructor; exact Ht|exact Hr].
Qed.

(** X12. A slot of the directive is changed only by its own keyword.  If
    no token of the line has [enable] or [disable] as a prefix, [enable]
    comes out of the loop over the tokens as it went in (the value of
    [do_vifs]); likewise [threshold] without [ttl-threshold] (the default),
    [source] without [source], [group] without [group], [dest] and [num]
    without [to], and [ifname] without [from] and [phyint]. *)
Theorem slots_change_by_their_keyword (fuel : nat) (lineno : Z) (s s' : locals)
    (w : world B) :
  (fuel_of (line s) <= fuel)%nat ->
  res (token_loop fuel lineno s w) = inl s' ->
  kept (tokens fuel (line s)) s s'.
Proof.
  revert s; induction fuel as [|fuel IH]; intros s Hfuel; [discriminate|].
  cbn [token_loop].
  destruct (pop_token (line s)) as [[token|] l] eqn:Hp.
  2:{ intros Hr; inversion Hr; subst s'. apply kept_same; reflexivity. }
  pose proof (pop_token_shrinks _ _ _ Hp) as Hsh.
  rewrite (tokens_pop (S fuel) _ _ _ Hfuel Hp).
  rewrite (tokens_fuel (S fuel) fuel l) by lia.
  destruct (match_ (Some "#") (Some token)).
  { intros Hr; inversion Hr; subst s'. apply kept_same; reflexivity. }
  assert (Hsel :
    (exists s1, (if op (set_line l s) =? 0
                 then select_verb lineno token (set_line l s)
                 else ret (Some (set_line l s))) w = Result (inl (Some s1)) w []
                /\ kept [token] s s1 /\ later_tokens fuel l (line s1)
                /\ (fuel_of (line s1) <= fuel)%nat) \/
    (if op (set_line l s) =? 0
     then select_verb lineno token (set_line l s)
     else ret (Some (set_line l s))) w =
      Result (inl None) w [warn_event lineno W_unknown_command [AStr token]]).
  { destruct (op (set_line l s) =? 0).
    - destruct (select_verb_cases lineno token (set_line l s) w) as [(s1 & Hs1 & Hadv)|Hn];
        [left|right; exact Hn].
      exists s1. split; [exact Hs1|].
      destruct (select_verb_kept fuel lineno token (set_line l s) s1 w) as [Hk Hl];
        [simpl; lia|rewrite Hs1; reflexivity|].
      split; [|split; [exact Hl|unfold advances in Hadv; simpl in Hadv; lia]].
      eapply (kept_trans [] [token] [token]); [| |exact Hk].
      + intros k Hk'. split; [constructor|exact Hk'].
      + apply kept_same; reflexivity.
    - left. exists (set_line l s). split; [reflexivity|].
      split; [apply kept_same; reflexivity|]. split; [apply later_tokens_refl|simpl; lia]. }
  destruct Hsel as [(s1 & Hs1 & Hk1 & Hl1 & Hf1)| Hnone].
  - rewrite (bind_done _ _ _ _ _ _ Hs1). cbn [res].
    destruct (operand_quiet token s1 w) as (Hpost & _ & Hadv & _).
    pose proof (operand_kept fuel token s1) as Hop.
    unfold bind.
    destruct (res (operand token s1 w)) as [s2|f] eqn:Hres; cbn [res]; [|discriminate].
    specialize (Hadv s2 eq_refl). unfold advances in Hadv.
    destruct (Hop s2 w Hf1 Hres) as [Hk2 Hl2].
    rewrite Hpost. intros Hr.
    pose proof (IH s2 ltac:(lia) Hr) as Hk3.
    destruct Hl1 as [pre1 Hpre1]. destruct Hl2 as [pre2 Hpre2].
    rewrite Hpre1, Hpre2, app_assoc.
    eapply (kept_trans [token] (tokens fuel (line s2))); [|
      eapply (kept_trans [token] [token] [token]); [|exact Hk1|exact Hk2] | exact Hk3].
    + intros k. apply absent_split.
    + intros k Hk'. split; exact Hk'.
  - rewrite (bind_done _ _ _ _ _ _ Hnone). cbn [res]. intros Hr.
    pose proof (IH (set_line l s) ltac:(simpl; lia) Hr) as Hk3. cbn [line set_line] in Hk3.
    eapply (kept_trans [token] (tokens fuel l)); [| |exact Hk3].
    + intros k Hk'. apply (absent_split k token []). exact Hk'.
    + apply kept_same; reflexivity.
Qed.

End Slots.

Lemma slots_change_by_their_keyword_witness :
  kept (tokens 30 (Some (Demo.ln "phyint eth0 ttl-threshold 7")))
       (init_locals 1 (Demo.ln "phyint eth0 ttl-threshold 7"))
       (Locals 3 0 1 7 (Some "eth0") None None (replicate 32 None) None).
Proof.
  apply (slots_change_by_their_keyword 30 1
           (init_locals 1 (Demo.ln "phyint eth0 ttl-threshold 7"))
           (Locals 3 0 1 7 (Some "eth0") None None (replicate 32 None) None) Demo.w0).
  - vm_compute. lia.
  - reflexivity.
Defined.

(** * Operand keywords and the kind of the directive *)

(** A token that matches one operand keyword matches no other. *)
Lemma keyword_alone (token k k' : string) :
  In k operand_keywords -> In k' operand_keywords -> k' <> k ->
  match_ (Some k) (Some token) = true -> match_ (Some k') (Some token) = false.
Proof.
  intros Hk Hk' Hne Hm.
  destruct (match_ (Some k') (Some token)) eqn:Hm'; [|reflexivity].
  exfalso. apply Hne.
  apply (prefix_free_one_match (verbs ++ operand_keywords) token);
    auto using words_prefix_free; apply in_or_app; right; assumption.
Qed.

Ltac not_keyword token k k' Hm :=
  rewrite (keyword_alone token k k' ltac:(simpl; tauto) ltac:(simpl; tauto)
             ltac:(discriminate) Hm).

Section Keywords.

Context {B : Type} `{Backend B}.
Variable P : platform.

(** The loop of [to] when the tokens left on the line fit into [dest]. *)
Lemma to_loop_takes (fuel : nat) (s : locals) (w : world B) :
  (fuel_of (line s) <= fuel)%nat -> 0 <= num s ->
  (Z.to_nat (num s) + length (tokens fuel (line s)) < length (dest s))%nat ->
  to_loop fuel s w =
  Result
    (inl (Locals (op s) (num s + Z.of_nat (length (tokens fuel (line s))))
            (enable s) (l_threshold s) (ifname s) (source s) (group s)
            (take (Z.to_nat (num s)) (dest s) ++ map Some (tokens fuel (line s)) ++
             None :: drop (S (Z.to_nat (num s) + length (tokens fuel (line s)))) (dest s))
            None))
    w [].
Proof.
  revert s; induction fuel as [|fuel IH]; intros s Hfuel Hnum Hfit.
  { pose proof (fuel_of_pos (line s)). lia. }
  cbn [to_loop tokens] in *.
  destruct (pop_token (line s)) as [[t|] l'] eqn:Hp.
  - cbn [length] in Hfit.
    replace ((0 <=? num s) && (num s <? Z.of_nat (length (dest s)))) with true
      by (symmetry; apply andb_true_intro; split; [apply Z.leb_le|apply Z.ltb_lt]; lia).
    pose proof (pop_token_shrinks _ _ _ Hp) as Hsh.
    pose proof (IH (set_num (num s + 1)
                      (set_line l' (set_dest (<[Z.to_nat (num s):=Some t]> (dest s)) s))))
      as IHs.
    cbn [line num dest op enable l_threshold ifname source group
         set_num set_line set_dest] in IHs.
    rewrite length_insert in IHs.
    replace (Z.to_nat (num s + 1)) with (S (Z.to_nat (num s))) in IHs by lia.
    rewrite IHs by lia. cbn [length map].
    f_equal. f_equal. f_equal; [lia|].
    rewrite (take_S_r _ _ (Some t)) by (apply list_lookup_insert_eq; lia).
    rewrite take_insert_ge by lia.
    rewrite drop_insert_lt by lia.
    rewrite <- app_assoc. cbn [app]. rewrite Nat.add_succ_r. reflexivity.
  - apply pop_token_none_line in Hp. subst l'. cbn [length map app] in *.
    replace ((0 <=? num s) && (num s <? Z.of_nat (length (dest s)))) with true
      by (symmetry; apply andb_true_intro; split; [apply Z.leb_le|apply Z.ltb_lt]; lia).
    unfold ret, set_line, set_dest. cbn [op num enable l_threshold ifname source group dest line].
    f_equal. f_equal. f_equal; [lia|].
    rewrite Nat.add_0_r. apply insert_take_drop. lia.
Qed.

(** C9. Once a verb is chosen ([op] is not 0), whichever it is, every
    token the loop takes from the line goes through the chain of operand
    keywords, and the chain neither reads nor writes [op]: run on the same
    locals under any directive kind, it makes the same changes.  (A token
    that the chain takes as the operand of a keyword is a value: it is not
    tested in its turn.)  Whatever
    [op] is, a token that has a keyword as a prefix updates the slot of that
    keyword and no other: [from], [source] and [group] store the token that
    follows in [ifname], [source] and [group]; [to] stores all the tokens
    that follow in [dest], from [dest[num]] on, with a NULL after them, and
    advances [num] by their number (they are taken to fit into [dest]);
    [enable] and [disable] set [enable] to 1 and to 0; [ttl-threshold]
    stores the number read from the token that follows in [threshold].  So on
    a [phyint] line [from NAME] replaces the interface name of the
    [mroute_add_vif] or [mroute_del_vif] call, and [enable], [disable] and
    [ttl-threshold N] on an [mgroup] or [mroute] line are consumed without a
    warning and the directive is applied as without them. *)
Theorem keywords_ignore_directive_kind :
  (forall (fuel : nat) (lineno : Z) (s : locals) (w : world B),
     op s <> 0 ->
     token_loop (S fuel) lineno s w =
     match pop_token (line s) with
     | (Some token, l) =>
         if match_ (Some "#") (Some token) then ret (set_line l s) w
         else (do s' <- operand token (set_line l s); token_loop fuel lineno s') w
     | (None, l) => ret (set_line l s) w
     end) /\
  (forall (token : string) (v : Z) (s : locals) (w : world B),
     operand token (set_op v s) w = with_op v (operand token s w)) /\
  (forall (token : string) (s : locals) (w : world B),
     let next := fst (pop_token (line s)) in
     let l := snd (pop_token (line s)) in
     let names := tokens (fuel_of (line s)) (line s) in
     (match_ (Some "from") (Some token) = true ->
      operand token s w = Result (inl (set_line l (set_ifname next s))) w []) /\
     (match_ (Some "source") (Some token) = true ->
      operand token s w = Result (inl (set_line l (set_source next s))) w []) /\
     (match_ (Some "group") (Some token) = true ->
      operand token s w = Result (inl (set_line l (set_group next s))) w []) /\
     (match_ (Some "to") (Some token) = true ->
      0 <= num s -> (Z.to_nat (num s) + length names < length (dest s))%nat ->
      operand token s w =
      Result
        (inl (Locals (op s) (num s + Z.of_nat (length names))
                (enable s) (l_threshold s) (ifname s) (source s) (group s)
                (take (Z.to_nat (num s)) (dest s) ++ map Some names ++
                 None :: drop (S (Z.to_nat (num s) + length names)) (dest s))
                None))
        w []) /\
     (match_ (Some "enable") (Some token) = true ->
      operand token s w = Result (inl (set_enable 1 s)) w []) /\
     (match_ (Some "disable") (Some token) = true ->
      operand token s w = Result (inl (set_enable 0 s)) w []) /\
     (match_ (Some "ttl-threshold") (Some token) = true ->
      operand token s w =
      Result (inl match next with
                  | Some number => set_threshold (Libc.atoi number) (set_line l s)
                  | None => set_line l s
                  end) w [])) /\
  (forall do_vifs lineno (w : world B),
     out (conf_line P do_vifs lineno (Demo.ln "phyint eth0 from eth1 enable") w)
       = [Call (mroute_add_vif (Some "eth1") 1)] /\
     out (conf_line P do_vifs lineno (Demo.ln "phyint eth0 from eth1 disable") w)
       = [Call (mroute_del_vif (Some "eth1"))] /\
     out (conf_line P do_vifs lineno
            (Demo.ln "phyint eth0 enable group 225.1.2.3 to eth1 eth2") w)
       = [Call (mroute_add_vif (Some "eth0") DEFAULT_THRESHOLD)] /\
     conf_line P do_vifs lineno
       (Demo.ln "mgroup from eth0 enable group 225.1.2.3 disable ttl-threshold 300") w
       = conf_line P do_vifs lineno (Demo.ln "mgroup from eth0 group 225.1.2.3") w /\
     out (conf_line P do_vifs lineno
            (Demo.ln "mgroup from eth0 enable group 225.1.2.3 disable ttl-threshold 300") w)
       = [Call (mcgroup4_join "eth0" 0 0xe1010203)] /\
     conf_line P do_vifs lineno
       (Demo.ln "mroute from eth0 disable group 225.1.2.3 ttl-threshold 9 to eth1") w
       = conf_line P do_vifs lineno (Demo.ln "mroute from eth0 group 225.1.2.3 to eth1") w).
Proof.
  split.
  { intros fuel lineno s w Hop. apply Z.eqb_neq in Hop.
    cbn [token_loop]. destruct (pop_token (line s)) as [[token|] l]; [|reflexivity].
    destruct (match_ (Some "#") (Some token)); [reflexivity|].
    cbn [op set_line]. rewrite Hop, bind_ret. reflexivity. }
  split; [apply operand_set_op|]. split.
  - intros token s w. cbv zeta. repeat split; intros Hm; unfold operand.
    + rewrite Hm. destruct (pop_token (line s)); reflexivity.
    + not_keyword token "source" "from" Hm.
      rewrite Hm. destruct (pop_token (line s)); reflexivity.
    + not_keyword token "group" "from" Hm. not_keyword token "group" "source" Hm.
      rewrite Hm. destruct (pop_token (line s)); reflexivity.
    + intros Hnum Hfit.
      not_keyword token "to" "from" Hm. not_keyword token "to" "source" Hm.
      not_keyword token "to" "group" Hm. rewrite Hm.
      apply to_loop_takes; [lia|exact Hnum|exact Hfit].
    + not_keyword token "enable" "from" Hm. not_keyword token "enable" "source" Hm.
      not_keyword token "enable" "group" Hm. not_keyword token "enable" "to" Hm.
      rewrite Hm. reflexivity.
    + not_keyword token "disable" "from" Hm. not_keyword token "disable" "source" Hm.
      not_keyword token "disable" "group" Hm. not_keyword token "disable" "to" Hm.
      not_keyword token "disable" "enable" Hm.
      rewrite Hm. reflexivity.
    + not_keyword token "ttl-threshold" "from" Hm. not_keyword token "ttl-threshold" "source" Hm.
      not_keyword token "ttl-threshold" "group" Hm. not_keyword token "ttl-threshold" "to" Hm.
      not_keyword token "ttl-threshold" "enable" Hm.
      not_keyword token "ttl-threshold" "disable" Hm.
      rewrite Hm. destruct (pop_token (line s)) as [[number|] l]; cbn [fst snd]; [|reflexivity].
      rewrite ttl_range_test_always_true. reflexivity.
  - intros do_vifs lineno w. repeat split.
Qed.

End Keywords.

(** On a [phyint] line: [from] replaces the interface name, and [to]
    fills [dest] with the names that follow. *)
Lemma keywords_ignore_directive_kind_witness :
  operand "from"
    {| op := 3; num := 0; enable := 1; l_threshold := 1; ifname := Some "eth0";
       source := None; group := None; dest := replicate 32 None;
       line := Some (Demo.ln "eth1 enable") |} Demo.w0
  = Result
      (inl {| op := 3; num := 0; enable := 1; l_threshold := 1; ifname := Some "eth1";
              source := None; group := None; dest := replicate 32 None;
              line := Some (Demo.ln "enable") |})
      Demo.w0 [] /\
  operand "to"
    {| op := 3; num := 0; enable := 1; l_threshold := 1; ifname := Some "eth0";
       source := None; group := None; dest := replicate 32 None;
       line := Some (Demo.ln "eth1 eth2") |} Demo.w0
  = Result
      (inl {| op := 3; num := 2; enable := 1; l_threshold := 1; ifname := Some "eth0";
              source := None; group := None;
              dest := Some "eth1" :: Some "eth2" :: None :: replicate 29 None;
              line := None |})
      Demo.w0 [].
Proof.
  split.
  - exact (proj1 (proj1 (proj2 (proj2 (keywords_ignore_directive_kind Demo.no_ipv6))) "from"
             {| op := 3; num := 0; enable := 1; l_threshold := 1; ifname := Some "eth0";
                source := None; group := None; dest := replicate 32 None;
                line := Some (Demo.ln "eth1 enable") |} Demo.w0) eq_refl).
  - assert (Hnum : 0 <= 0) by lia.
    assert (Hfit : (Z.to_nat 0 + 2 < 32)%nat) by (simpl; lia).
    exact (proj1 (proj2 (proj2 (proj2 (proj1 (proj2 (proj2
             (keywords_ignore_directive_kind Demo.no_ipv6))) "to"
             {| op := 3; num := 0; enable := 1; l_threshold := 1; ifname := Some "eth0";
                source := None; group := None; dest := replicate 32 None;
                line := Some (Demo.ln "eth1 eth2") |} Demo.w0)))) eq_refl Hnum Hfit).
Defined.
